(** * hoh-realtime: the room relay of the two WebSocket servers

    The repository holds two servers: [server.js] (one room per
    connection, a room -> members map, presence notifications) and
    [hoh-ws-server.js] (a client -> rooms map, join/leave frames, the
    body-chat write and the HTTP [/emit] ingress).  Each is embedded
    here as a state machine over an explicit server state: the JS
    [Map]s and [Set]s are insertion-ordered lists, the [ws] objects
    live in a store indexed by their identity, and everything a
    handler does to the outside (frames passed to [ws.send], calls of
    [ws.close], [console.error], [fetch], HTTP responses) is appended
    to a log of the state.  [parseQuery] of [hoh-ws-server.js] is a
    function on the code units of the URL, with [decodeURIComponent]
    after ECMA-262. *)

From Stdlib Require Import PrimFloat Ascii String NArith.
From stdpp Require Import gmap list strings.

Set Default Proof Using "Type".
Set Warnings "-register-all -clear-no-such-hyp -notation-for-abbreviation".


(** ** The JavaScript values the handlers look at *)

Module JS.

(** A JS string is its sequence of UTF-16 code units. *)
Abbreviation jsstring := (list N).

Definition u16 (s : string) : jsstring :=
  N_of_ascii <$> list_ascii_of_string s.

(** Values as [JSON.parse] and [jwt.verify] return them, [undefined],
    and the built-in functions a property read can give (by their
    name; [JSON.stringify] leaves out a property that holds one). *)
Inductive value :=
| VUndef
| VNull
| VBool (b : bool)
| VNum (x : float)
| VStr (s : jsstring)
| VArr (items : list value)
| VObj (props : list (jsstring * value))
| VFun (name : string).

(** [if (v)], [!v], [v || w], [v && w]. *)
Definition truthy (v : value) : bool :=
  match v with
  | VUndef | VNull => false
  | VBool b => b
  | VNum x => negb (PrimFloat.eqb x 0 || PrimFloat.is_nan x)
  | VStr s => negb (bool_decide (s = []))
  | VArr _ | VObj _ | VFun _ => true
  end.

Definition js_or (v w : value) : value := if truthy v then v else w.

(** [v === 'literal']. *)
Definition is_str (v : value) (lit : string) : bool :=
  match v with
  | VStr s => bool_decide (s = u16 lit)
  | _ => false
  end.

(** Key equality of [Set] and [Map] (SameValueZero).  Arrays and
    objects are compared by identity; every comparison the servers
    make is between a value kept from an earlier frame and a value of
    the current frame, and two [JSON.parse] results are never the same
    object.  A built-in function is the same whenever it is read. *)
Definition same_value_zero (a b : value) : bool :=
  match a, b with
  | VUndef, VUndef => true
  | VNull, VNull => true
  | VBool x, VBool y => Bool.eqb x y
  | VNum x, VNum y =>
      PrimFloat.eqb x y || (PrimFloat.is_nan x && PrimFloat.is_nan y)
  | VStr s, VStr t => bool_decide (s = t)
  | VFun f, VFun g => String.eqb f g
  | _, _ => false
  end.

(** A [Set] is the list of its elements in insertion order. *)
Section JsSet.
Context {A : Type} (same : A → A → bool).

Definition set_has (s : list A) (x : A) : bool := existsb (same x) s.

Definition set_add (s : list A) (x : A) : list A :=
  if set_has s x then s else s ++ [x].

Definition set_delete (s : list A) (x : A) : list A :=
  List.filter (λ y, negb (same x y)) s.
End JsSet.

(** Property access [v.k] for the property names the servers read.
    Of these names the prototypes hold two: a string has [sub]
    ([String.prototype.sub]) and a function has its [name].  [None] is
    the [TypeError] of reading a property of [null] or [undefined]. *)
Fixpoint own_prop (k : jsstring) (ps : list (jsstring * value)) : value :=
  match ps with
  | [] => VUndef
  | (k', v) :: ps' => if bool_decide (k' = k) then v else own_prop k ps'
  end.

Definition getprop (v : value) (k : string) : option value :=
  match v with
  | VUndef | VNull => None
  | VObj ps => Some (own_prop (u16 k) ps)
  | VStr _ => Some (if String.eqb k "sub" then VFun "sub" else VUndef)
  | VFun f => Some (if String.eqb k "name" then VStr (u16 f) else VUndef)
  | _ => Some VUndef
  end.

(** [v.k] where it is read and used if there: [undefined] also when
    the read throws. *)
Definition field (v : value) (k : string) : value :=
  default VUndef (getprop v k).

(** An own property [k], whatever it holds. *)
Definition has_own (k : jsstring) (ps : list (jsstring * value)) : bool :=
  existsb (λ p, bool_decide (p.1 = k)) ps.

(** The template literal [`${v}`] throws a [TypeError]: ToString of an
    object with an own property [toString], which after [JSON.parse]
    holds nothing callable (and [valueOf] gives no primitive);
    [Array.prototype.join] converts the elements of an array in the
    same way, [null] apart. *)
Fixpoint to_string_throws (v : value) : bool :=
  match v with
  | VObj ps => has_own (u16 "toString") ps
  | VArr items => existsb to_string_throws items
  | _ => false
  end.

(** Object literal. *)
Definition obj (ps : list (string * value)) : value :=
  VObj (prod_map u16 id <$> ps).

Definition str (s : string) : value := VStr (u16 s).

(** [String.prototype.trim]: WhiteSpace and LineTerminator code units. *)
Definition is_space (c : N) : bool :=
  bool_decide (c ∈ [9; 10; 11; 12; 13; 32; 160; 5760; 8232; 8233; 8239;
                    8287; 12288; 65279]%N)
  || ((8192 <=? c) && (c <=? 8202))%N.

Fixpoint trim_start (s : jsstring) : jsstring :=
  match s with
  | c :: s' => if is_space c then trim_start s' else s
  | [] => []
  end.

Definition trim (s : jsstring) : jsstring :=
  reverse (trim_start (reverse (trim_start s))).

(** [s.split(sep)] for a one-unit separator. *)
Fixpoint split (sep : N) (s : jsstring) : list jsstring :=
  match s with
  | [] => [[]]
  | c :: s' =>
      if (c =? sep)%N then [] :: split sep s'
      else match split sep s' with
           | w :: ws => (c :: w) :: ws
           | [] => [[c]]
           end
  end.

(** [l.join(sep)] for a one-unit separator. *)
Fixpoint join (sep : N) (l : list jsstring) : jsstring :=
  match l with
  | [] => []
  | [e] => e
  | e :: l' => e ++ sep :: join sep l'
  end.

(** [s.indexOf(c)] for a one-unit [c]; [None] is [-1]. *)
Fixpoint indexOf (c : N) (s : jsstring) : option nat :=
  match s with
  | [] => None
  | d :: s' => if (d =? c)%N then Some 0 else S <$> indexOf c s'
  end.

(** [decodeURIComponent] (ECMA-262, Decode with nothing preserved);
    [None] is the [URIError]. *)
Definition hex_digit (c : N) : option N :=
  if ((48 <=? c) && (c <=? 57))%N then Some (c - 48)%N
  else if ((65 <=? c) && (c <=? 70))%N then Some (c - 55)%N
  else if ((97 <=? c) && (c <=? 102))%N then Some (c - 87)%N
  else None.

(** ParseHexOctet on the two code units at the head of [s], with the
    rest of [s]. *)
Definition hex_octet (s : jsstring) : option (N * jsstring) :=
  match s with
  | h :: l :: s' =>
      match hex_digit h, hex_digit l with
      | Some a, Some b => Some (16 * a + b, s')%N
      | _, _ => None
      end
  | _ => None
  end.

(** The number of leading 1 bits of an octet (5 for more than 4). *)
Definition leading_ones (b : N) : nat :=
  if (b <? 128)%N then 0
  else if (b <? 192)%N then 1
  else if (b <? 224)%N then 2
  else if (b <? 240)%N then 3
  else if (b <? 248)%N then 4
  else 5.

(** The [n] escapes [%XX] that continue a multi-byte sequence. *)
Fixpoint continuation (n : nat) (s : jsstring) : option (list N * jsstring) :=
  match n with
  | 0 => Some ([], s)
  | S n' =>
      match s with
      | c :: s1 =>
          if (c =? 37)%N then
            '(b, s2) ← hex_octet s1;
            '(bs, s3) ← continuation n' s2;
            Some (b :: bs, s3)
          else None
      | [] => None
      end
  end.

Definition is_continuation (b : N) : bool := ((128 <=? b) && (b <? 192))%N.

(** The code point of a well-formed UTF-8 sequence of two to four
    octets: no overlong form, no surrogate, nothing above U+10FFFF. *)
Definition utf8_code_point (octets : list N) : option N :=
  match octets with
  | [b0; b1] =>
      let v := ((b0 - 192) * 64 + (b1 - 128))%N in
      if is_continuation b1 && (128 <=? v)%N then Some v else None
  | [b0; b1; b2] =>
      let v := ((b0 - 224) * 4096 + (b1 - 128) * 64 + (b2 - 128))%N in
      if is_continuation b1 && is_continuation b2 && (2048 <=? v)%N
         && negb ((55296 <=? v) && (v <=? 57343))%N
      then Some v else None
  | [b0; b1; b2; b3] =>
      let v := ((b0 - 240) * 262144 + (b1 - 128) * 4096 + (b2 - 128) * 64
                + (b3 - 128))%N in
      if is_continuation b1 && is_continuation b2 && is_continuation b3
         && (65536 <=? v)%N && (v <=? 1114111)%N
      then Some v else None
  | _ => None
  end.

(** UTF16EncodeCodePoint. *)
Definition utf16_encode (v : N) : jsstring :=
  if (v <=? 65535)%N then [v]
  else [(55296 + (v - 65536) / 1024)%N; (56320 + (v - 65536) mod 1024)%N].

(** The loop of Decode.  [fuel] bounds the iterations; each consumes
    at least one code unit, so the length of [s] is enough. *)
Fixpoint decode (fuel : nat) (s : jsstring) : option jsstring :=
  match s, fuel with
  | [], _ => Some []
  | _ :: _, 0 => None
  | c :: s1, S fuel' =>
      if (c =? 37)%N then
        '(b, s2) ← hex_octet s1;
        let n := leading_ones b in
        if bool_decide (n = 0) then cons b <$> decode fuel' s2
        else if bool_decide (n = 1 ∨ 4 < n) then None
        else
          '(bs, s3) ← continuation (n - 1) s2;
          v ← utf8_code_point (b :: bs);
          app (utf16_encode v) <$> decode fuel' s3
      else cons c <$> decode fuel' s1
  end.

Definition decodeURIComponent (s : jsstring) : option jsstring :=
  decode (length s) s.

(** [WebSocket.readyState]. *)
Inductive ready_state := CONNECTING | OPEN | CLOSING | CLOSED.

#[global] Instance ready_state_eq_dec : EqDecision ready_state.
Proof. solve_decision. Defined.

(** An inbound text (a WebSocket frame or an HTTP body) with the
    outcome of [JSON.parse] on it. *)
Inductive inbound :=
| NotJSON (raw : jsstring)
| IsJSON (v : value).

End JS.

(** ** server.js *)

Module Server.
Import JS.

(** A [ws] object: the fields the server reads and writes, and the
    listeners the connection handler installs on it.  Both listeners
    close over the handler's [room]. *)
Record socket := Socket {
  readyState : ready_state;
  _room : option jsstring;
  _user : value;
  listening : option jsstring;
}.

Definition fresh_socket : socket :=
  {| readyState := OPEN; _room := None; _user := VUndef; listening := None |}.

Inductive log_line :=
| LogJoined (name : value) (room : jsstring)
| LogLeft (name : value) (room : jsstring)
| LogJwtFailed
| LogConnectionError.

(** The server: [rooms] is the [Map] roomName -> [Set] of clients,
    [sockets] the store of [ws] objects (a client is its index). *)
Record state := State {
  rooms : gmap jsstring (list nat);
  sockets : list socket;
  sent : list (nat * value);
  closes : list (nat * N);
  console : list log_line;
  crashed : bool;
}.

Definition init : state :=
  {| rooms := ∅; sockets := []; sent := []; closes := []; console := [];
     crashed := false |}.

Definition with_rooms (f : gmap jsstring (list nat) → gmap jsstring (list nat))
    (st : state) : state :=
  State (f (rooms st)) (sockets st) (sent st) (closes st) (console st) (crashed st).

Definition with_socket (ws : nat) (f : socket → socket) (st : state) : state :=
  State (rooms st) (alter f ws (sockets st)) (sent st) (closes st) (console st)
    (crashed st).

Definition log (l : log_line) (st : state) : state :=
  State (rooms st) (sockets st) (sent st) (closes st) (console st ++ [l])
    (crashed st).

Definition uncaught (st : state) : state :=
  State (rooms st) (sockets st) (sent st) (closes st) (console st) true.

(** [ws.send(JSON.stringify(data))]: the log keeps [data]. *)
Definition send (ws : nat) (data : value) (st : state) : state :=
  State (rooms st) (sockets st) (sent st ++ [(ws, data)]) (closes st)
    (console st) (crashed st).

Definition closing (s : socket) : socket :=
  Socket (match readyState s with CLOSED => CLOSED | _ => CLOSING end)
    (_room s) (_user s) (listening s).

(** [ws.close(code, reason)]. *)
Definition close (ws : nat) (code : N) (st : state) : state :=
  with_socket ws closing
    (State (rooms st) (sockets st) (sent st) (closes st ++ [(ws, code)])
       (console st) (crashed st)).

Definition is_open (st : state) (ws : nat) : bool :=
  match sockets st !! ws with
  | Some s => bool_decide (readyState s = OPEN)
  | None => false
  end.

(** The members of a room: [rooms.get(room)], empty when absent. *)
Definition members (st : state) (room : jsstring) : list nat :=
  default [] (rooms st !! room).

Definition joinRoom (ws : nat) (room : jsstring) (st : state) : state :=
  let st1 :=
    if bool_decide (is_Some (rooms st !! room)) then st
    else with_rooms (insert room []) st in
  let st2 := with_rooms (alter (λ set, set_add Nat.eqb set ws) room) st1 in
  with_socket ws
    (λ s, Socket (readyState s) (Some room) (_user s) (listening s)) st2.

Definition leaveRoom (ws : nat) (st : state) : state :=
  match sockets st !! ws ≫= _room with
  | None => st
  | Some room =>
      if bool_decide (room = []) then st
      else match rooms st !! room with
           | None => st
           | Some set =>
               let set' := set_delete Nat.eqb set ws in
               if bool_decide (length set' = 0)
               then with_rooms (delete room) st
               else with_rooms (insert room set') st
           end
  end.

Definition broadcastToRoom (room : jsstring) (data : value) (st : state) : state :=
  match rooms st !! room with
  | None => st
  | Some set =>
      foldl (λ st client, if is_open st client then send client data st else st)
        st set
  end.

(** The upgrade request as [new URL(...)] reads it: the constructor
    throws, or [searchParams.get] gives [token] and [room] ([None] is
    [null]). *)
Inductive upgrade :=
| BadURL
| Query (token room : option jsstring).

Definition user_of (st : state) (ws : nat) : value :=
  default VUndef (_user <$> sockets st !! ws).

Definition presence (ev : string) (user : value) (room : jsstring) (now : float)
    : value :=
  obj [("type", str "presence"); ("event", str ev); ("user", user);
       ("room", VStr room); ("timestamp", VNum now)].

Section Config.
(** [process.env.HOH_JWT_SECRET] and [jwt.verify] ([None]: it throws). *)
Variable JWT_SECRET : option jsstring.
Variable jwt_verify : jsstring → jsstring → option value.

Definition falsy (s : option jsstring) : bool :=
  match s with
  | None | Some [] => true
  | Some _ => false
  end.

(** [wss.on('connection', (ws, req) => ...)]; the new [ws] is the next
    free index of the store.  The template literal of the join log
    converts [ws._user.name]: when that throws, the socket has joined
    the room and the [catch] closes it. *)
Definition on_connection (req : upgrade) (now : float) (st0 : state) : state :=
  let ws := length (sockets st0) in
  let st :=
    State (rooms st0) (sockets st0 ++ [fresh_socket]) (sent st0) (closes st0)
      (console st0) (crashed st0) in
  match req with
  | BadURL => close ws 1011 (log LogConnectionError st)
  | Query token room_param =>
      let room := if falsy room_param then u16 "team_chat"
                  else default [] room_param in
      if falsy token || falsy JWT_SECRET then close ws 4001 st
      else
        match jwt_verify (default [] token) (default [] JWT_SECRET) with
        | None => close ws 4002 (log LogJwtFailed st)
        | Some payload =>
            match getprop payload "sub", getprop payload "name",
                  getprop payload "email" with
            | Some sub, Some name, Some email =>
                let user := obj [("id", sub); ("name", name); ("email", email)] in
                let st1 :=
                  with_socket ws
                    (λ s, Socket (readyState s) (_room s) user (listening s)) st in
                let st2 := joinRoom ws room st1 in
                if to_string_throws name
                then close ws 1011 (log LogConnectionError st2)
                else
                  let st3 := log (LogJoined name room) st2 in
                  let st4 :=
                    broadcastToRoom room (presence "join" user room now) st3 in
                  with_socket ws
                    (λ s, Socket (readyState s) (_room s) (_user s) (Some room))
                    st4
            | _, _, _ => close ws 1011 (log LogConnectionError st)
            end
        end
  end.

(** [ws.on('message', ...)] of the connection [ws] in [room]. *)
Definition on_message (ws : nat) (room : jsstring) (message : inbound)
    (now : float) (st : state) : state :=
  let data :=
    match message with
    | IsJSON v => v
    | NotJSON raw => obj [("type", str "message"); ("text", VStr raw)]
    end in
  match getprop data "type" with
  | None => uncaught st
  | Some ty =>
      if is_str ty "typing" then
        broadcastToRoom room
          (obj [("type", str "typing"); ("user", user_of st ws);
                ("room", VStr room); ("timestamp", VNum now)]) st
      else
        broadcastToRoom room
          (obj [("type", str "message"); ("user", user_of st ws);
                ("room", VStr room);
                ("text", js_or (default VUndef (getprop data "text")) (str ""));
                ("timestamp", VNum now)]) st
  end.

(** [ws.on('close', ...)]; its log converts the name like the join
    log, outside any [try]. *)
Definition on_close (ws : nat) (room : jsstring) (now : float) (st : state)
    : state :=
  let name := default VUndef (getprop (user_of st ws) "name") in
  if to_string_throws (js_or name (str "Unknown")) then uncaught st
  else
    let st1 := log (LogLeft (js_or name (str "Unknown")) room) st in
    let st2 := leaveRoom ws st1 in
    broadcastToRoom room (presence "leave" (user_of st2 ws) room now) st2.

(** What the transport delivers.  A socket emits ['close'] once, its
    [readyState] being [CLOSED] by then, and no message after it. *)
Inductive event :=
| Connection (req : upgrade) (now : float)
| Message (ws : nat) (message : inbound) (now : float)
| Close (ws : nat) (now : float).

Definition step (e : event) (st : state) : state :=
  if crashed st then st
  else match e with
       | Connection req now => on_connection req now st
       | Message ws message now =>
           match sockets st !! ws with
           | Some (Socket rs _ _ (Some room)) =>
               if bool_decide (rs = CLOSED) then st
               else on_message ws room message now st
           | _ => st
           end
       | Close ws now =>
           match sockets st !! ws with
           | Some (Socket rs r u l) =>
               if bool_decide (rs = CLOSED) then st
               else
                 let st1 := with_socket ws (λ _, Socket CLOSED r u l) st in
                 match l with
                 | Some room => on_close ws room now st1
                 | None => st1
                 end
           | None => st
           end
       end.

Definition run (es : list event) (st : state) : state :=
  foldl (λ st e, step e st) st es.
End Config.

End Server.

(** ** hoh-ws-server.js *)

Module HohWs.
Import JS.

(** [{ userId, name, rooms: Set<string> }]. *)
Record meta := Meta {
  userId : value;
  name : value;
  rooms : list value;
}.

Record socket := Socket {
  readyState : ready_state;
  listening : bool;
}.

Inductive log_line :=
| LogConnectionError
| LogSaveFailed.

(** The server: [clients] is the [Map] ws -> meta in insertion order, a
    [ws] being its index in [sockets]; [fetches] holds the body-chat
    writes whose promise is not settled yet, each with the connection
    whose handler issued it. *)
Record state := State {
  clients : list (nat * meta);
  sockets : list socket;
  sent : list (nat * value);
  closes : list (nat * option N);
  errors : list log_line;
  fetches : list (nat * value);
  responses : list (N * string);
  crashed : bool;
}.

Definition init : state :=
  {| clients := []; sockets := []; sent := []; closes := []; errors := [];
     fetches := []; responses := []; crashed := false |}.

Definition with_clients (f : list (nat * meta) → list (nat * meta)) (st : state)
    : state :=
  State (f (clients st)) (sockets st) (sent st) (closes st) (errors st)
    (fetches st) (responses st) (crashed st).

Definition with_socket (ws : nat) (f : socket → socket) (st : state) : state :=
  State (clients st) (alter f ws (sockets st)) (sent st) (closes st) (errors st)
    (fetches st) (responses st) (crashed st).

Definition with_fetches (f : list (nat * value) → list (nat * value))
    (st : state) : state :=
  State (clients st) (sockets st) (sent st) (closes st) (errors st)
    (f (fetches st)) (responses st) (crashed st).

Definition console_error (l : log_line) (st : state) : state :=
  State (clients st) (sockets st) (sent st) (closes st) (errors st ++ [l])
    (fetches st) (responses st) (crashed st).

Definition uncaught (st : state) : state :=
  State (clients st) (sockets st) (sent st) (closes st) (errors st)
    (fetches st) (responses st) true.

(** [ws.send(JSON.stringify(data))]: the log keeps [data]. *)
Definition send (ws : nat) (data : value) (st : state) : state :=
  State (clients st) (sockets st) (sent st ++ [(ws, data)]) (closes st)
    (errors st) (fetches st) (responses st) (crashed st).

(** [res.statusCode = code; res.end(text)]. *)
Definition respond (code : N) (text : string) (st : state) : state :=
  State (clients st) (sockets st) (sent st) (closes st) (errors st)
    (fetches st) (responses st ++ [(code, text)]) (crashed st).

Definition closing (s : socket) : socket :=
  Socket (match readyState s with CLOSED => CLOSED | _ => CLOSING end)
    (listening s).

(** [ws.close(code, reason)] and [ws.close()]. *)
Definition close (ws : nat) (code : option N) (st : state) : state :=
  with_socket ws closing
    (State (clients st) (sockets st) (sent st) (closes st ++ [(ws, code)])
       (errors st) (fetches st) (responses st) (crashed st)).

Definition is_open (st : state) (ws : nat) : bool :=
  match sockets st !! ws with
  | Some s => bool_decide (readyState s = OPEN)
  | None => false
  end.

(** [clients.set(ws, meta)]. *)
Fixpoint map_set (m : list (nat * meta)) (ws : nat) (v : meta)
    : list (nat * meta) :=
  match m with
  | [] => [(ws, v)]
  | (k, v') :: m' =>
      if Nat.eqb k ws then (k, v) :: m' else (k, v') :: map_set m' ws v
  end.

(** The [meta] object of a connection.  The handlers of [ws] close
    over the very object [clients] maps [ws] to, so a handler's
    [meta.rooms.add] is an update of that entry. *)
Fixpoint meta_of (m : list (nat * meta)) (ws : nat) : option meta :=
  match m with
  | [] => None
  | (k, v) :: m' => if Nat.eqb k ws then Some v else meta_of m' ws
  end.

Fixpoint update_meta (m : list (nat * meta)) (ws : nat) (f : meta → meta)
    : list (nat * meta) :=
  match m with
  | [] => []
  | (k, v) :: m' =>
      if Nat.eqb k ws then (k, f v) :: m' else (k, v) :: update_meta m' ws f
  end.

Definition with_rooms_of (ws : nat) (f : list value → list value) (st : state)
    : state :=
  with_clients
    (λ m, update_meta m ws (λ v, Meta (userId v) (name v) (f (rooms v)))) st.

(** The rooms a connection is in: [meta.rooms]. *)
Definition rooms_of (st : state) (ws : nat) : list value :=
  default [] (rooms <$> meta_of (clients st) ws).

Definition in_room (m : meta) (room : value) : bool :=
  set_has same_value_zero (rooms m) room.

Definition broadcastToRoom (room : value) (message : value)
    (exceptWs : option nat) (st : state) : state :=
  foldl (λ st '(ws, m),
           if negb (is_open st ws) then st
           else if negb (in_room m room) then st
           else if bool_decide (exceptWs = Some ws) then st
           else send ws message st)
    st (clients st).

(** The upgrade request as [parseQuery] reads it: it throws (a
    malformed escape), or gives [query.token] and [query.rooms]
    ([None] is [undefined]). *)
Inductive upgrade :=
| BadQuery
| Query (token rooms : option jsstring).

(** [const [k, v] = pair.split('=')]: [v] is [None] when it is
    [undefined]. *)
Definition key_value (pair : jsstring) : jsstring * option jsstring :=
  match split 61 pair with
  | k :: v :: _ => (k, Some v)
  | [k] => (k, None)
  | [] => ([], None)
  end.

(** [out[k] = v] on an object literal, [v] a string: the setter of
    [__proto__] ignores it, every other key becomes an own property. *)
Definition set_prop (out : gmap jsstring jsstring) (k v : jsstring)
    : gmap jsstring jsstring :=
  if bool_decide (k = u16 "__proto__") then out else <[k := v]> out.

(** The callback of [query.split('&').forEach]; [None] when
    [decodeURIComponent] throws. *)
Definition add_pair (out : gmap jsstring jsstring) (pair : jsstring)
    : option (gmap jsstring jsstring) :=
  let '(k, v) := key_value pair in
  if bool_decide (k = []) then Some out
  else
    k' ← decodeURIComponent k;
    v' ← decodeURIComponent (default [] v);
    Some (set_prop out k' v').

(** [parseQuery(url)]: the own properties of [out], or [None] when a
    pair makes it throw. *)
Definition parseQuery (url : jsstring) : option (gmap jsstring jsstring) :=
  match indexOf 63 url with
  | None => Some ∅
  | Some qIndex =>
      let query := drop (qIndex + 1) url in
      foldl (λ out pair, out ≫= λ o, add_pair o pair) (Some ∅) (split 38 query)
  end.

(** What the connection handler reads of [req.url]. *)
Definition upgrade_of (url : jsstring) : upgrade :=
  match parseQuery url with
  | None => BadQuery
  | Some query => Query (query !! u16 "token") (query !! u16 "rooms")
  end.

(** The outcome of the body-chat write: [fetch] rejects, or responds
    with a body on which [res.json()] resolves or rejects.  The status
    of the response is no part of it: the handler reads neither
    [res.ok] nor [res.status]. *)
Inductive fetch_outcome :=
| Rejected
| Responded (body : inbound).

Definition falsy (s : option jsstring) : bool :=
  match s with
  | None | Some [] => true
  | Some _ => false
  end.

(** [if (query.rooms) query.rooms.split(',').forEach(r => ...)] on
    [meta.rooms]. *)
Definition add_initial_rooms (q : option jsstring) (set : list value)
    : list value :=
  if falsy q then set
  else foldl (λ set r, let room := trim r in
                       if bool_decide (room = []) then set
                       else set_add same_value_zero set (VStr room))
         set (split 44 (default [] q)).

Section Config.
(** [process.env.HOH_JWT_SECRET] and [jwt.verify] ([None]: it throws). *)
Variable HOH_JWT_SECRET : option jsstring.
Variable jwt_verify : jsstring → jsstring → option value.

Definition JWT_SECRET : jsstring :=
  if falsy HOH_JWT_SECRET then u16 "change-me-in-production"
  else default [] HOH_JWT_SECRET.

(** [wss.on('connection', (ws, req) => ...)]; the new [ws] is the next
    free index of the store. *)
Definition on_connection (req : upgrade) (st0 : state) : state :=
  let ws := length (sockets st0) in
  let st := State (clients st0) (sockets st0 ++ [Socket OPEN false]) (sent st0)
              (closes st0) (errors st0) (fetches st0) (responses st0)
              (crashed st0) in
  let caught := close ws None (console_error LogConnectionError st) in
  match req with
  | BadQuery => caught
  | Query token rooms_param =>
      if falsy token then close ws (Some 4001%N) st
      else
        match jwt_verify (default [] token) JWT_SECRET with
        | None => close ws (Some 4002%N) st
        | Some payload =>
            match getprop payload "sub", getprop payload "user_id",
                  getprop payload "name" with
            | Some sub, Some user_id, Some nm =>
                let userId := js_or sub user_id in
                let name := js_or nm (str "Guest") in
                let st1 := with_clients (λ m, map_set m ws (Meta userId name [])) st in
                let st2 := with_rooms_of ws (add_initial_rooms rooms_param) st1 in
                let st3 :=
                  send ws (obj [("type", str "connected"); ("userId", userId);
                                ("name", name);
                                ("rooms", VArr (rooms_of st2 ws))]) st2 in
                with_socket ws (λ s, Socket (readyState s) true) st3
            | _, _, _ => caught
            end
        end
  end.

(** [ws.on('message', ...)] of the connection [ws]. *)
Definition on_message (ws : nat) (data : inbound) (now : float) (st : state)
    : state :=
  match data with
  | NotJSON _ => st
  | IsJSON msg =>
      match getprop msg "type", getprop msg "room" with
      | Some type, Some room =>
          let prop k := default VUndef (getprop msg k) in
          let userId := default VUndef (userId <$> meta_of (clients st) ws) in
          let name := default VUndef (name <$> meta_of (clients st) ws) in
          if is_str type "message:new" then
            let st1 :=
              with_rooms_of ws (λ set, set_add same_value_zero set (str "body_chat"))
                st in
            match getprop (prop "message") "content",
                  getprop (prop "message") "message_type",
                  getprop (prop "message") "metadata" with
            | Some content, Some message_type, Some metadata =>
                with_fetches
                  (λ l, l ++ [(ws, obj [("body_chat_id", prop "body_chat_id");
                                        ("user_id", userId);
                                        ("content", content);
                                        ("message_type", message_type);
                                        ("metadata", metadata)])]) st1
            | _, _, _ => uncaught st1
            end
          else if is_str type "message" && truthy room then
            match prop "text" with
            | VStr text =>
                if negb (truthy (VStr text)) || bool_decide (trim text = [])
                then st
                else broadcastToRoom room
                       (obj [("type", str "message"); ("room", room);
                             ("text", VStr text);
                             ("user", obj [("id", userId); ("name", name)]);
                             ("timestamp", VNum now)]) (Some ws) st
            | text => if truthy text then uncaught st else st
            end
          else if is_str type "join" && truthy room then
            send ws (obj [("type", str "joined"); ("room", room)])
              (with_rooms_of ws (λ set, set_add same_value_zero set room) st)
          else if is_str type "leave" && truthy room then
            send ws (obj [("type", str "left"); ("room", room)])
              (with_rooms_of ws (λ set, set_delete same_value_zero set room) st)
          else if is_str type "event" && truthy room && truthy (prop "payload")
                  && truthy (default VUndef (getprop (prop "payload") "event"))
          then
            broadcastToRoom room
              (obj [("type", str "event"); ("room", room);
                    ("event", default VUndef (getprop (prop "payload") "event"));
                    ("data", js_or (default VUndef (getprop (prop "payload") "data"))
                               (obj []));
                    ("from", obj [("userId", userId); ("name", name)])])
              (Some ws) st
          else st
      | _, _ => uncaught st
      end
  end.

(** The continuation of the write issued by the handler of [ws]:
    [.then(res => res.json()).then(saved => ...).catch(err => ...)]. *)
Definition on_settled (ws : nat) (outcome : fetch_outcome) (st : state)
    : state :=
  match outcome with
  | Responded (IsJSON saved) =>
      broadcastToRoom (str "body_chat")
        (obj [("type", str "message:new"); ("message", saved)]) (Some ws) st
  | Responded (NotJSON _) | Rejected => console_error LogSaveFailed st
  end.

(** [server.on('request', ...)], the body read to its end. *)
Definition on_request (method url : jsstring) (body : inbound) (st : state)
    : state :=
  if bool_decide (method = u16 "POST") && bool_decide (url = u16 "/emit") then
    let parsed :=
      match body with
      | NotJSON [] => Some (obj [])
      | NotJSON _ => None
      | IsJSON v => Some v
      end in
    match parsed ≫= (λ v, getprop v "room"),
          parsed ≫= (λ v, getprop v "event"),
          parsed ≫= (λ v, getprop v "data") with
    | Some room, Some event, Some data =>
        if negb (truthy room) || negb (truthy event)
        then respond 400 "Missing room or event" st
        else respond 200 "OK"
               (broadcastToRoom room
                  (obj [("type", str "event"); ("room", room);
                        ("event", event); ("data", js_or data (obj []));
                        ("from", obj [("system", VBool true)])]) None st)
    | _, _, _ => respond 400 "Invalid JSON" st
    end
  else respond 404 "Not found" st.

(** What the transport and the runtime deliver.  This server installs
    no ['close'] listener: a closing socket only changes its
    [readyState]. *)
Inductive event :=
| Connection (req : upgrade)
| Message (ws : nat) (data : inbound) (now : float)
| Close (ws : nat)
| Settled (i : nat) (outcome : fetch_outcome)
| Request (method url : jsstring) (body : inbound).

Definition step (e : event) (st : state) : state :=
  if crashed st then st
  else match e with
       | Connection req => on_connection req st
       | Message ws data now =>
           match sockets st !! ws with
           | Some (Socket rs true) =>
               if bool_decide (rs = CLOSED) then st
               else on_message ws data now st
           | _ => st
           end
       | Close ws => with_socket ws (λ s, Socket CLOSED (listening s)) st
       | Settled i outcome =>
           match fetches st !! i with
           | Some (ws, _) =>
               on_settled ws outcome (with_fetches (delete i) st)
           | None => st
           end
       | Request method url body => on_request method url body st
       end.

Definition run (es : list event) (st : state) : state :=
  foldl (λ st e, step e st) st es.
End Config.

End HohWs.

(** ** The vocabulary of the statements *)

Module ServerSpec.
Import JS Server.

(** The clients a broadcast reaches: the open members of the room. *)
Definition recipients (st : state) (room : jsstring) : list nat :=
  List.filter (is_open st) (members st room).

(** A room is a key of the map exactly when it has a member. *)
Definition pruned (st : state) : Prop :=
  ∀ room, is_Some (rooms st !! room) ↔ members st room ≠ [].

(** Calls of the two registry operations. *)
Inductive registry_op :=
| Join (ws : nat) (room : jsstring)
| Leave (ws : nat).

Definition apply_op (st : state) (op : registry_op) : state :=
  match op with
  | Join ws room => joinRoom ws room st
  | Leave ws => leaveRoom ws st
  end.

(** The client is in the room already: a member whose [_room] is the
    room. *)
Definition joined (st : state) (ws : nat) (room : jsstring) : Prop :=
  ws ∈ members st room ∧ ∀ s, sockets st !! ws = Some s → _room s = Some room.

(** Between two events: every room of the map has members and lists
    none twice; a member is a socket whose [_room] is the room and
    which either carries the listeners of the room and is not closed
    yet, or carries no listener and is not open (the join log threw);
    a listening socket that is not closed is a member of its room; the
    name of the user of a listening socket converts to a string; and a
    socket that joined a room and got no listener stays a member. *)
Record wf (st : state) : Prop := Wf {
  wf_pruned : pruned st;
  wf_nodup : ∀ room, NoDup (members st room);
  wf_member : ∀ room ws, ws ∈ members st room →
    room ≠ [] ∧ ∃ s, sockets st !! ws = Some s ∧ _room s = Some room ∧
                     (listening s = Some room ∧ readyState s ≠ CLOSED ∨
                      listening s = None ∧ readyState s ≠ OPEN);
  wf_listening : ∀ ws s room,
    sockets st !! ws = Some s → listening s = Some room →
    readyState s ≠ CLOSED → ws ∈ members st room;
  wf_name : ∀ ws s room,
    sockets st !! ws = Some s → listening s = Some room →
    to_string_throws (js_or (field (_user s) "name") (str "Unknown")) = false;
  wf_stuck : ∀ ws s room,
    sockets st !! ws = Some s → _room s = Some room → listening s = None →
    ws ∈ members st room;
}.

(** A session: a listening socket that is not closed yet, on a server
    that runs. *)
Definition session (st : state) (ws : nat) (s : socket) (room : jsstring)
    : Prop :=
  crashed st = false ∧ sockets st !! ws = Some s ∧
  listening s = Some room ∧ readyState s ≠ CLOSED.

(** The connection handler turned the new socket down with [code] and
    did nothing else: no room joined, no frame sent, no listener. *)
Definition rejected (st st' : state) (code : N) : Prop :=
  rooms st' = rooms st ∧ sent st' = sent st ∧
  closes st' = closes st ++ [(length (sockets st), code)] ∧
  sockets st' = sockets st ++ [Socket CLOSING None VUndef None].

(** The connection handler joined the room for the new socket and
    closed it with 1011, the join log having thrown: the socket is a
    member of the room, without a listener, and no frame was sent. *)
Definition aborted (st st' : state) (user : value) (room : jsstring) : Prop :=
  rooms st'
  = <[room := set_add Nat.eqb (members st room) (length (sockets st))]> (rooms st) ∧
  sent st' = sent st ∧
  closes st' = closes st ++ [(length (sockets st), 1011%N)] ∧
  console st' = console st ++ [LogConnectionError] ∧
  sockets st' = sockets st ++ [Socket CLOSING (Some room) user None].

(** What the connection handler decides: the close code it answers
    with, or the user and the room it registers, to the end
    ([Accept]) or up to the throw of the join log ([Abort]). *)
Inductive decision :=
| Reject (code : N)
| Accept (user : value) (room : jsstring)
| Abort (user : value) (room : jsstring).

Section Config.
Variable JWT_SECRET : option jsstring.
Variable jwt_verify : jsstring → jsstring → option value.

Definition decide_connection (req : upgrade) : decision :=
  match req with
  | BadURL => Reject 1011
  | Query token room_param =>
      if falsy token || falsy JWT_SECRET then Reject 4001
      else match jwt_verify (default [] token) (default [] JWT_SECRET) with
           | None => Reject 4002
           | Some payload =>
               match getprop payload "sub", getprop payload "name",
                     getprop payload "email" with
               | Some sub, Some name, Some email =>
                   (if to_string_throws name then Abort else Accept)
                     (obj [("id", sub); ("name", name); ("email", email)])
                     (if falsy room_param then u16 "team_chat"
                      else default [] room_param)
               | _, _, _ => Reject 1011
               end
           end
  end.

(** [ws] is a connection the handler accepted in the course of [es]. *)
Definition accepted (es : list event) (ws : nat) : Prop :=
  ∃ es1 req now es2 user room,
    es = es1 ++ Connection req now :: es2 ∧
    crashed (run JWT_SECRET jwt_verify es1 init) = false ∧
    ws = length (sockets (run JWT_SECRET jwt_verify es1 init)) ∧
    decide_connection req = Accept user room.
End Config.

End ServerSpec.

Module HohSpec.
Import JS HohWs.

(** The clients a broadcast reaches. *)
Definition recipients (st : state) (room : value) (exceptWs : option nat)
    : list nat :=
  fst <$> List.filter
            (λ '(ws, m), is_open st ws && in_room m room
                         && negb (bool_decide (exceptWs = Some ws)))
            (clients st).

(** The frame has no usable [k]: absent, or falsy as [!k] tests it. *)
Definition missing (v : value) (k : string) : bool :=
  negb (truthy (field v k)).

(** A frame of a recognised type without a field its type requires:
    [room] for join and leave, [room] and [text] for message, [room]
    and [payload.event] for event. *)
Definition lacks_required_field (msg : value) : bool :=
  let type := field msg "type" in
  if is_str type "join" || is_str type "leave" then missing msg "room"
  else if is_str type "message"
  then missing msg "room" || missing msg "text"
  else if is_str type "event"
  then missing msg "room" || missing msg "payload"
       || missing (field msg "payload") "event"
  else false.

(** The unicast replies [joined] and [left]. *)
Definition is_reply (f : value) : bool :=
  is_str (field f "type") "joined" || is_str (field f "type") "left".


(** [l] holds no frame for [ws]. *)
Definition silent_for (ws : nat) (l : list (nat * value)) : Prop :=
  ∀ f, (ws, f) ∉ l.

(** The connection handler turned the new socket down with [code] and
    did nothing else: no client registered, no frame sent, no
    listener. *)
Definition rejected (st st' : state) (code : option N) : Prop :=
  clients st' = clients st ∧ sent st' = sent st ∧
  closes st' = closes st ++ [(length (sockets st), code)] ∧
  sockets st' = sockets st ++ [Socket CLOSING false].

(** The write failed: [fetch] rejected, or [res.json()] did. *)
Definition write_failed (outcome : fetch_outcome) : bool :=
  match outcome with
  | Rejected | Responded (NotJSON _) => true
  | Responded (IsJSON _) => false
  end.

(** [JSON.parse(body || '{}')], [None] when it throws. *)
Definition parse_body (body : inbound) : option value :=
  match body with
  | NotJSON [] => Some (obj [])
  | NotJSON _ => None
  | IsJSON v => Some v
  end.

Definition bad_emit (body : inbound) : bool :=
  match parse_body body with
  | None => true
  | Some v => missing v "room" || missing v "event"
  end.

(** The frame [/emit] broadcasts for the body [v]. *)
Definition emit_frame (v : value) : value :=
  obj [("type", str "event"); ("room", field v "room");
       ("event", field v "event");
       ("data", js_or (field v "data") (obj []));
       ("from", obj [("system", VBool true)])].

Definition connected_frame (userId name : value) (rooms : list value) : value :=
  obj [("type", str "connected"); ("userId", userId); ("name", name);
       ("rooms", VArr rooms)].

(** The frame is a [join] of [room]. *)
Definition join_frame (msg room : value) : Prop :=
  getprop msg "type" = Some (str "join") ∧ getprop msg "room" = Some room ∧
  truthy room = true.

(** The body of the write a [message:new] frame of a client makes
    the handler issue. *)
Definition write_body (msg : value) (m : meta) : value :=
  obj [("body_chat_id", field msg "body_chat_id");
       ("user_id", userId m);
       ("content", field (field msg "message") "content");
       ("message_type", field (field msg "message") "message_type");
       ("metadata", field (field msg "message") "metadata")].

(** The frame the body-chat write broadcasts once [saved]. *)
Definition saved_frame (saved : value) : value :=
  obj [("type", str "message:new"); ("message", saved)].

(** The frame is a [leave] of [room]. *)
Definition leave_frame (msg room : value) : Prop :=
  getprop msg "type" = Some (str "leave") ∧ getprop msg "room" = Some room ∧
  truthy room = true.

(** The frame is a [message] for [room] whose text is the string
    [text]. *)
Definition message_frame (msg room : value) (text : jsstring) : Prop :=
  getprop msg "type" = Some (str "message") ∧ getprop msg "room" = Some room ∧
  truthy room = true ∧ getprop msg "text" = Some (VStr text).

(** The frame a [message] is relayed as. *)
Definition relayed_message (room : value) (text : jsstring) (m : meta)
    (now : float) : value :=
  obj [("type", str "message"); ("room", room); ("text", VStr text);
       ("user", obj [("id", userId m); ("name", name m)]);
       ("timestamp", VNum now)].

(** The pairs of the query of a URL: [query.split('&')], none when the
    URL has no [?]. *)
Definition query_pairs (url : jsstring) : list jsstring :=
  match indexOf 63 url with
  | None => []
  | Some qIndex => split 38 (drop (qIndex + 1) url)
  end.

(** The key of a pair and the value [parseQuery] decodes for it. *)
Definition pair_key (pair : jsstring) : jsstring := (key_value pair).1.
Definition pair_value (pair : jsstring) : jsstring :=
  default [] (key_value pair).2.

(** Between two events: a registered client is a socket of the store
    and is registered once; the listening sockets are the registered
    clients; and every frame went to a registered client. *)
Record consistent (st : state) : Prop := Consistent {
  registered_socket : ∀ w, is_Some (meta_of (clients st) w) →
    ∃ s, sockets st !! w = Some s ∧ listening s = true;
  registered_once : NoDup (fst <$> clients st);
  listening_registered : ∀ w s, sockets st !! w = Some s →
    listening s = true → is_Some (meta_of (clients st) w);
  sent_registered : ∀ w f, (w, f) ∈ sent st → is_Some (meta_of (clients st) w);
}.

(** What the connection handler decides: the close code it answers
    with ([None]: the [ws.close()] of the [catch]), or the identity it
    resolves. *)
Inductive decision :=
| Reject (code : option N)
| Accept (userId name : value).

Definition rooms_param (req : upgrade) : option jsstring :=
  match req with
  | BadQuery => None
  | Query _ q => q
  end.

Section Config.
Variable HOH_JWT_SECRET : option jsstring.
Variable jwt_verify : jsstring → jsstring → option value.

Definition decide_connection (req : upgrade) : decision :=
  match req with
  | BadQuery => Reject None
  | Query token _ =>
      if falsy token then Reject (Some 4001%N)
      else match jwt_verify (default [] token) (JWT_SECRET HOH_JWT_SECRET) with
           | None => Reject (Some 4002%N)
           | Some payload =>
               match getprop payload "sub", getprop payload "user_id",
                     getprop payload "name" with
               | Some sub, Some user_id, Some nm =>
                   Accept (js_or sub user_id) (js_or nm (str "Guest"))
               | _, _, _ => Reject None
               end
           end
  end.

(** [ws] is a connection the handler accepted in the course of [es]. *)
Definition accepted (es : list event) (ws : nat) : Prop :=
  ∃ es1 req es2 userId name,
    es = es1 ++ Connection req :: es2 ∧
    crashed (run HOH_JWT_SECRET jwt_verify es1 init) = false ∧
    ws = length (sockets (run HOH_JWT_SECRET jwt_verify es1 init)) ∧
    decide_connection req = Accept userId name.
End Config.

End HohSpec.

(** ** A configuration and two users for the examples *)

Module Examples.
Import JS.

Definition secret : option jsstring := Some (u16 "s3cret").

(** A verifier that knows three tokens: [alice] and [bob] signed with
    [s3cret], [mallory] signed with [change-me-in-production]. *)
Definition verify (token key : jsstring) : option value :=
  if bool_decide (key = u16 "s3cret") then
    if bool_decide (token = u16 "alice")
    then Some (obj [("sub", str "u1"); ("name", str "Alice")])
    else if bool_decide (token = u16 "bob")
    then Some (obj [("sub", str "u2"); ("name", str "Bob")])
    else None
  else if bool_decide (key = u16 "change-me-in-production") then
    if bool_decide (token = u16 "mallory")
    then Some (obj [("sub", str "u3"); ("name", str "Mallory")])
    else None
  else None.

Definition alice : option jsstring := Some (u16 "alice").
Definition bob : option jsstring := Some (u16 "bob").
Definition lobby : option jsstring := Some (u16 "lobby").

Definition alice_user : value :=
  obj [("id", str "u1"); ("name", str "Alice"); ("email", VUndef)].

(** [server.js] with alice and bob in the lobby. *)
Definition server_lobby : Server.state :=
  Server.run secret verify
    [Server.Connection (Server.Query alice lobby) 1;
     Server.Connection (Server.Query bob lobby) 2] Server.init.

(** [hoh-ws-server.js] with alice and bob in the lobby. *)
Definition hoh_lobby : HohWs.state :=
  HohWs.run secret verify
    [HohWs.Connection (HohWs.Query alice lobby);
     HohWs.Connection (HohWs.Query bob lobby)] HohWs.init.

Definition typing_frame : value :=
  obj [("type", str "typing"); ("user", alice_user);
       ("room", str "lobby"); ("timestamp", VNum 3)].

(** The body with which the body-chat service refuses a write (HTTP
    403). *)
Definition refusal : value :=
  obj [("code", str "rest_forbidden");
       ("message", str "Sorry, you are not allowed to do that.");
       ("data", obj [("status", VNum 403)])].

(** [verify] with one more token, [eve], whose name no template
    literal prints. *)
Definition verify_unprintable (token key : jsstring) : option value :=
  if bool_decide (token = u16 "eve")
  then Some (obj [("sub", str "u4"); ("name", obj [("toString", VNull)])])
  else verify token key.

End Examples.

(** ** Sets and lists *)

Section JsSetFacts.
Context {A : Type} (same : A → A → bool).

Lemma set_has_spec (s : list A) (x : A) :
  JS.set_has same s x = true ↔ ∃ y, y ∈ s ∧ same x y = true.
Proof.
  unfold JS.set_has. rewrite existsb_exists.
  split; intros (y & Hy & Hs); exists y; split; auto; by apply list_elem_of_In.
Qed.

Lemma set_add_present (s : list A) (x : A) :
  JS.set_has same s x = true → JS.set_add same s x = s.
Proof. unfold JS.set_add. by intros ->. Qed.

Lemma set_add_nonempty (s : list A) (x : A) : JS.set_add same s x ≠ [].
Proof.
  unfold JS.set_add. destruct (JS.set_has same s x) eqn:E.
  - intros ->. discriminate.
  - by destruct s.
Qed.

Lemma elem_of_set_add (s : list A) (x y : A) :
  y ∈ JS.set_add same s x ↔ y ∈ s ∨ (y = x ∧ JS.set_has same s x = false).
Proof.
  unfold JS.set_add. destruct (JS.set_has same s x) eqn:E.
  - naive_solver.
  - rewrite elem_of_app, list_elem_of_singleton. naive_solver.
Qed.

Lemma set_has_add (s : list A) (x : A) :
  same x x = true → JS.set_has same (JS.set_add same s x) x = true.
Proof.
  intros Hx. unfold JS.set_add. destruct (JS.set_has same s x) eqn:E; [done|].
  unfold JS.set_has. rewrite existsb_app. simpl. rewrite Hx.
  by rewrite orb_true_r.
Qed.
End JsSetFacts.

Section ListFacts.
Import JS.

Lemma alter_last {A} (f : A → A) (l : list A) (x : A) :
  alter f (length l) (l ++ [x]) = l ++ [f x].
Proof.
  replace (length l) with (length l + 0) by lia.
  by rewrite alter_app_r.
Qed.

Lemma alter_fixed {A} (f : A → A) (l : list A) (i : nat) :
  (∀ x, l !! i = Some x → f x = x) → alter f i l = l.
Proof.
  intros H. apply list_eq. intros j. rewrite list_lookup_alter.
  case_decide; [subst|done].
  destruct (l !! j) as [x|] eqn:E; [|done]. simpl. by rewrite H.
Qed.

Lemma ws_has_spec (s : list nat) (x : nat) :
  set_has Nat.eqb s x = true ↔ x ∈ s.
Proof.
  rewrite set_has_spec. split.
  - intros (y & Hy & ->%Nat.eqb_eq). done.
  - intros H. exists x. by rewrite Nat.eqb_refl.
Qed.

Lemma elem_of_ws_add (s : list nat) (x y : nat) :
  y ∈ set_add Nat.eqb s x ↔ y ∈ s ∨ y = x.
Proof.
  rewrite elem_of_set_add. split; [naive_solver|].
  intros [H| ->]; [by left|].
  destruct (set_has Nat.eqb s x) eqn:E; [|by right].
  left. by apply ws_has_spec.
Qed.

Lemma elem_of_ws_delete (s : list nat) (x y : nat) :
  y ∈ set_delete Nat.eqb s x ↔ y ∈ s ∧ y ≠ x.
Proof.
  unfold set_delete. rewrite !list_elem_of_In.
  rewrite filter_In, negb_true_iff, Nat.eqb_neq. naive_solver.
Qed.

Lemma ws_add_NoDup (s : list nat) (x : nat) :
  NoDup s → NoDup (set_add Nat.eqb s x).
Proof.
  intros H. unfold set_add. destruct (set_has Nat.eqb s x) eqn:E; [done|].
  apply NoDup_app. split_and!; [done| |apply NoDup_singleton].
  intros y Hy ->%list_elem_of_singleton.
  apply ws_has_spec in Hy. congruence.
Qed.

Lemma ws_delete_NoDup (s : list nat) (x : nat) :
  NoDup s → NoDup (set_delete Nat.eqb s x).
Proof.
  intros H. unfold set_delete. apply NoDup_ListNoDup.
  apply List.NoDup_filter. by apply NoDup_ListNoDup.
Qed.

Lemma str_has_spec (s : list value) (t : jsstring) :
  set_has same_value_zero s (VStr t) = true ↔ VStr t ∈ s.
Proof.
  rewrite set_has_spec. split.
  - intros (y & Hy & Hs). destruct y; simpl in Hs; try done.
    apply bool_decide_eq_true in Hs. by subst.
  - intros H. exists (VStr t). split; [done|]. simpl.
    by apply bool_decide_eq_true.
Qed.

Lemma elem_of_str_add (s : list value) (t : jsstring) (y : value) :
  y ∈ set_add same_value_zero s (VStr t) ↔ y ∈ s ∨ y = VStr t.
Proof.
  rewrite elem_of_set_add. split; [naive_solver|].
  intros [H| ->]; [by left|].
  destruct (set_has same_value_zero s (VStr t)) eqn:E; [|by right].
  left. by apply str_has_spec.
Qed.

Lemma str_add_NoDup (s : list value) (t : jsstring) :
  NoDup s → NoDup (set_add same_value_zero s (VStr t)).
Proof.
  intros H. unfold set_add.
  destruct (set_has same_value_zero s (VStr t)) eqn:E; [done|].
  apply NoDup_app. split_and!; [done| |apply NoDup_singleton].
  intros y Hy ->%list_elem_of_singleton.
  apply str_has_spec in Hy. congruence.
Qed.

Lemma split_nonempty (sep : N) (s : jsstring) : split sep s ≠ [].
Proof.
  destruct s as [|c s]; simpl; [done|].
  destruct (c =? sep)%N; [done|]. by destruct (split sep s).
Qed.

(** [split] cuts at every separator and nowhere else. *)
Lemma split_join (sep : N) (s : jsstring) :
  join sep (split sep s) = s ∧ Forall (λ e, sep ∉ e) (split sep s).
Proof.
  induction s as [|c s [IHj IHf]]; simpl.
  - split; [done|]. repeat constructor. apply not_elem_of_nil.
  - destruct (N.eqb_spec c sep) as [->|Hne].
    + pose proof (split_nonempty sep s) as Hn. split.
      * simpl. destruct (split sep s) as [|e l]; [done|]. by rewrite IHj.
      * constructor; [apply not_elem_of_nil|done].
    + destruct (split sep s) as [|e l] eqn:E.
      { by destruct (split_nonempty sep s). }
      split.
      * simpl in *. destruct l; simpl in *; by rewrite <- IHj.
      * inversion IHf as [|? ? He Hl]; subst. constructor; [|done].
        intros [?|?]%elem_of_cons; [congruence|done].
Qed.

Lemma trim_start_spec (s : jsstring) :
  ∃ l, s = l ++ trim_start s ∧ Forall (λ c, is_space c = true) l ∧
       ∀ c, head (trim_start s) = Some c → is_space c = false.
Proof.
  induction s as [|c s (l & Hs & Hl & Hh)]; simpl.
  - exists []. by repeat split.
  - destruct (is_space c) eqn:E.
    + exists (c :: l). split_and!; [by rewrite Hs at 1|by constructor|done].
    + exists []. split_and!; [done|constructor|]. simpl. by intros ? [= <-].
Qed.

(** [trim] takes white space, and only white space, off both ends. *)
Lemma trim_spec (s : jsstring) :
  ∃ l r, s = l ++ trim s ++ r ∧
         Forall (λ c, is_space c = true) l ∧ Forall (λ c, is_space c = true) r ∧
         (∀ c, head (trim s) = Some c → is_space c = false) ∧
         (∀ c, last (trim s) = Some c → is_space c = false).
Proof.
  unfold trim.
  destruct (trim_start_spec s) as (l & Hs & Hl & Hh).
  destruct (trim_start_spec (reverse (trim_start s))) as (r & Hr & Hrl & Hrh).
  exists l, (reverse r).
  assert (Ht : trim_start s
               = reverse (trim_start (reverse (trim_start s))) ++ reverse r).
  { rewrite <- reverse_app, <- Hr. by rewrite reverse_involutive. }
  split_and!.
  - by rewrite <- Ht.
  - done.
  - by apply Forall_reverse.
  - intros c Hc. apply Hh. rewrite Ht.
    destruct (reverse (trim_start (reverse (trim_start s)))); simpl in *; done.
  - intros c Hc. apply Hrh. by rewrite last_reverse in Hc.
Qed.

Lemma is_str_true (v : value) (lit : string) :
  is_str v lit = true → v = str lit.
Proof.
  destruct v; simpl; try done. intros H%bool_decide_eq_true. by subst.
Qed.
End ListFacts.

Section SetRoundTrips.
Import JS.
Context {A : Type} (same : A → A → bool).

Lemma set_has_delete (s : list A) (x : A) :
  set_has same (set_delete same s x) x = false.
Proof.
  unfold set_has, set_delete. induction s as [|y s IH]; simpl; [done|].
  destruct (same x y) eqn:E; simpl; [done|]. by rewrite E.
Qed.

Lemma set_delete_absent (s : list A) (x : A) :
  set_has same s x = false → set_delete same s x = s.
Proof.
  unfold set_has, set_delete. induction s as [|y s IH]; simpl; [done|].
  intros [E H]%orb_false_iff. rewrite E. simpl. by rewrite IH.
Qed.

Lemma set_delete_add (s : list A) (x : A) :
  same x x = true →
  set_delete same (set_add same s x) x = set_delete same s x.
Proof.
  intros Hx. unfold set_add. destruct (set_has same s x); [done|].
  unfold set_delete. rewrite List.filter_app. simpl. rewrite Hx. simpl.
  by rewrite app_nil_r.
Qed.

Lemma set_delete_idemp (s : list A) (x : A) :
  set_delete same (set_delete same s x) x = set_delete same s x.
Proof. apply set_delete_absent, set_has_delete. Qed.
End SetRoundTrips.

Section StringFacts.
Import JS.
#[local] Arguments utf8_code_point : simpl never.

Lemma trim_start_blank (s : jsstring) :
  Forall (λ c, is_space c = true) s → trim_start s = [].
Proof. induction 1 as [|c s Hc _ IH]; simpl; [done|]. by rewrite Hc. Qed.

(** [trim] leaves nothing exactly of the strings of white space. *)
Lemma trim_blank (s : jsstring) :
  trim s = [] ↔ Forall (λ c, is_space c = true) s.
Proof.
  split.
  - intros H. destruct (trim_spec s) as (l & r & Hs & Hl & Hr & _).
    rewrite H in Hs. rewrite Hs. by apply Forall_app.
  - intros H. unfold trim. by rewrite (trim_start_blank s H).
Qed.

Lemma indexOf_None (c : N) (s : jsstring) : indexOf c s = None ↔ c ∉ s.
Proof.
  induction s as [|d s IH]; simpl.
  - split; [intros _; apply not_elem_of_nil|done].
  - destruct (N.eqb_spec d c) as [->|Hne].
    + split; [done|]. intros H. destruct H. by left.
    + rewrite fmap_None, IH, not_elem_of_cons. naive_solver.
Qed.

Lemma indexOf_app (c : N) (a b : jsstring) :
  c ∉ a → indexOf c (a ++ c :: b) = Some (length a).
Proof.
  induction a as [|d a IH]; simpl; intros Ha.
  - by rewrite N.eqb_refl.
  - apply not_elem_of_cons in Ha as [Hd Ha].
    destruct (N.eqb_spec d c) as [->|_]; [done|]. by rewrite IH.
Qed.

Lemma indexOf_Some (c : N) (s : jsstring) (i : nat) :
  indexOf c s = Some i →
  (c ∉ take i s) ∧ s = take i s ++ c :: drop (S i) s.
Proof.
  revert i. induction s as [|d s IH]; intros i; simpl; [done|].
  destruct (N.eqb_spec d c) as [->|Hne].
  - intros [= <-]. simpl. split; [apply not_elem_of_nil|]. by rewrite drop_0.
  - destruct (indexOf c s) as [j|]; [|done]. intros [= <-].
    destruct (IH j eq_refl) as [Hn He]. simpl. split.
    + apply not_elem_of_cons. split; [congruence|done].
    + by rewrite <- He.
Qed.

Lemma split_app (c : N) (a b : jsstring) :
  split c (a ++ c :: b) = split c a ++ split c b.
Proof.
  induction a as [|d a IH]; simpl.
  - by rewrite N.eqb_refl.
  - destruct (d =? c)%N; [by rewrite IH|]. rewrite IH.
    pose proof (split_nonempty c a). by destruct (split c a).
Qed.

Lemma split_plain (c : N) (a : jsstring) : c ∉ a → split c a = [a].
Proof.
  induction a as [|d a IH]; simpl; [done|]. intros [Hd Ha]%not_elem_of_cons.
  destruct (N.eqb_spec d c) as [->|_]; [done|]. by rewrite IH.
Qed.

Lemma elem_of_split (c : N) (s w : jsstring) (x : N) :
  w ∈ split c s → x ∈ w → x ∈ s.
Proof.
  revert w. induction s as [|d s IH]; simpl; intros w.
  - by intros ->%list_elem_of_singleton.
  - destruct (d =? c)%N.
    + intros [->|Hw]%elem_of_cons Hx; [by apply elem_of_nil in Hx|].
      right. by eapply IH.
    + pose proof (split_nonempty c s). destruct (split c s) as [|e l]; [done|].
      intros [->|Hw]%elem_of_cons Hx.
      * apply elem_of_cons in Hx as [->|Hx]; [by left|].
        right. apply (IH e); [by left|done].
      * right. apply (IH w); [by right|done].
Qed.

Lemma hex_octet_length (s s' : jsstring) (b : N) :
  hex_octet s = Some (b, s') → length s = 2 + length s'.
Proof.
  destruct s as [|h [|l s'']]; simpl; try done.
  destruct (hex_digit h), (hex_digit l); try done. by intros [= _ <-].
Qed.

Lemma continuation_length (n : nat) (s s' : jsstring) (bs : list N) :
  continuation n s = Some (bs, s') → length s' ≤ length s.
Proof.
  revert s s' bs. induction n as [|n IH]; intros s s' bs; simpl.
  - by intros [= _ <-].
  - destruct s as [|c s1]; [done|]. destruct (c =? 37)%N; [|done].
    destruct (hex_octet s1) as [[b s2]|] eqn:E; simpl; [|done].
    destruct (continuation n s2) as [[bs' s3]|] eqn:E'; simpl; [|done].
    intros [= _ <-]. apply hex_octet_length in E. apply IH in E'.
    simpl. lia.
Qed.

(** The loop of Decode does not run out of fuel. *)
Lemma decode_fuel (n m : nat) (s : jsstring) :
  length s ≤ n → length s ≤ m → decode n s = decode m s.
Proof.
  revert m s. induction n as [|n IH]; intros m s Hn Hm.
  - destruct s; [|simpl in Hn; lia]. by destruct m.
  - destruct s as [|c s1]; [by destruct m|].
    destruct m as [|m]; [simpl in Hm; lia|]. simpl in *.
    destruct (c =? 37)%N.
    + destruct (hex_octet s1) as [[b s2]|] eqn:E; simpl; [|done].
      apply hex_octet_length in E.
      case_bool_decide; [by rewrite (IH m s2) by lia|].
      case_bool_decide; [done|].
      destruct (continuation _ s2) as [[bs s3]|] eqn:E'; simpl; [|done].
      apply continuation_length in E'.
      destruct (utf8_code_point (b :: bs)); simpl; [|done].
      by rewrite (IH m s3) by lia.
    + by rewrite (IH m s1) by lia.
Qed.

Lemma decode_plain (n : nat) (s : jsstring) :
  37%N ∉ s → length s ≤ n → decode n s = Some s.
Proof.
  revert s. induction n as [|n IH]; intros s Hs Hn.
  - destruct s; [done|simpl in Hn; lia].
  - destruct s as [|c s]; [done|]. simpl in *.
    apply not_elem_of_cons in Hs as [Hc Hs].
    destruct (N.eqb_spec c 37) as [->|_]; [done|].
    rewrite IH by (done || lia). done.
Qed.

(** A string without [%] is its own decoding. *)
Lemma decodeURIComponent_plain (s : jsstring) :
  37%N ∉ s → decodeURIComponent s = Some s.
Proof. intros H. by apply decode_plain. Qed.

(** Decoding goes from left to right: a prefix without [%] is kept. *)
Lemma decodeURIComponent_app_plain (a s : jsstring) :
  37%N ∉ a → decodeURIComponent (a ++ s) = (app a) <$> decodeURIComponent s.
Proof.
  unfold decodeURIComponent. induction a as [|c a IH]; simpl; intros Ha.
  - by destruct (decode _ s).
  - apply not_elem_of_cons in Ha as [Hc Ha].
    destruct (N.eqb_spec c 37) as [->|_]; [done|].
    rewrite IH by done. by destruct (decode _ s).
Qed.

End StringFacts.

(** ** server.js: the registry and its invariant *)

Module ServerFacts.
Import JS Server ServerSpec.

Lemma server_broadcast_fold (data : value) (set : list nat) (st : state) :
  foldl (λ st client, if is_open st client then send client data st else st)
    st set
  = State (rooms st) (sockets st)
      (sent st ++ ((λ w, (w, data)) <$> List.filter (is_open st) set))
      (closes st) (console st) (crashed st).
Proof.
  revert st. induction set as [|w set IH]; intros st; simpl.
  - rewrite app_nil_r. by destruct st.
  - rewrite IH. destruct (is_open st w) eqn:E; simpl.
    + unfold is_open at 1. simpl. fold (is_open st).
      rewrite <- app_assoc. done.
    + done.
Qed.

Lemma server_broadcast_spec (room : jsstring) (data : value) (st : state) :
  broadcastToRoom room data st
  = State (rooms st) (sockets st)
      (sent st ++ ((λ w, (w, data)) <$> recipients st room))
      (closes st) (console st) (crashed st).
Proof.
  unfold broadcastToRoom, recipients, members.
  destruct (rooms st !! room) as [set|]; simpl.
  - apply server_broadcast_fold.
  - rewrite app_nil_r. by destruct st.
Qed.

Lemma elem_of_server_recipients (st : state) (room : jsstring) (w : nat) :
  w ∈ recipients st room ↔ w ∈ members st room ∧ is_open st w = true.
Proof.
  unfold recipients. by rewrite !list_elem_of_In, filter_In.
Qed.

Lemma pruned_alt (st : state) :
  pruned st ↔ ∀ room set, rooms st !! room = Some set → set ≠ [].
Proof.
  unfold pruned, members. split.
  - intros H room set Hs. specialize (H room). rewrite Hs in H. simpl in H.
    apply H. eauto.
  - intros H room. destruct (rooms st !! room) as [set|] eqn:E; simpl.
    + split; eauto.
    + split; [by intros [? ?]|done].
Qed.

Lemma pruned_init : pruned init.
Proof. apply pruned_alt. intros room set. simpl. by rewrite lookup_empty. Qed.

Lemma pruned_rooms (st st' : state) :
  rooms st' = rooms st → pruned st → pruned st'.
Proof. unfold pruned, members. by intros ->. Qed.

Lemma rooms_joinRoom (ws : nat) (room : jsstring) (st : state) :
  rooms (joinRoom ws room st)
  = <[room := set_add Nat.eqb (members st room) ws]> (rooms st).
Proof.
  unfold joinRoom, members. simpl.
  destruct (rooms st !! room) as [set|] eqn:E; simpl.
  - apply map_eq. intros r. rewrite lookup_alter, lookup_insert.
    case_decide; subst; by rewrite ?E.
  - apply map_eq. intros r.
    destruct (decide (room = r)) as [<-|Hr].
    + by rewrite lookup_alter_eq, !lookup_insert_eq.
    + by rewrite lookup_alter_ne, !lookup_insert_ne.
Qed.

Lemma sockets_joinRoom (ws : nat) (room : jsstring) (st : state) :
  sockets (joinRoom ws room st)
  = alter (λ s, Socket (readyState s) (Some room) (_user s) (listening s)) ws
      (sockets st).
Proof. unfold joinRoom. by case_bool_decide. Qed.

Lemma others_joinRoom (ws : nat) (room : jsstring) (st : state) :
  sent (joinRoom ws room st) = sent st ∧
  closes (joinRoom ws room st) = closes st ∧
  console (joinRoom ws room st) = console st ∧
  crashed (joinRoom ws room st) = crashed st.
Proof. unfold joinRoom. by case_bool_decide. Qed.

Lemma members_joinRoom (ws : nat) (room r : jsstring) (st : state) :
  members (joinRoom ws room st) r
  = if decide (room = r) then set_add Nat.eqb (members st room) ws
    else members st r.
Proof.
  unfold members at 1. rewrite rooms_joinRoom, lookup_insert.
  by case_decide.
Qed.

Lemma joinRoom_pruned (ws : nat) (room : jsstring) (st : state) :
  pruned st → pruned (joinRoom ws room st).
Proof.
  rewrite !pruned_alt. intros H r set. rewrite rooms_joinRoom, lookup_insert.
  case_decide; subst.
  - intros [= <-]. apply set_add_nonempty.
  - apply H.
Qed.

Lemma leaveRoom_pruned (ws : nat) (st : state) :
  pruned st → pruned (leaveRoom ws st).
Proof.
  rewrite !pruned_alt. intros H r set. unfold leaveRoom.
  destruct (sockets st !! ws ≫= _room) as [room|]; [|apply H].
  case_bool_decide; [apply H|].
  destruct (rooms st !! room) as [set0|] eqn:E; [|apply H].
  case_bool_decide as Hl; simpl.
  - rewrite lookup_delete. case_decide; [done|apply H].
  - rewrite lookup_insert. case_decide; [|apply H].
    intros [= <-]. intros Hnil. by rewrite Hnil in Hl.
Qed.

(** On a member of its own room, [leaveRoom] takes the client out of
    that room and leaves the other rooms as they are. *)
Lemma members_leaveRoom (ws : nat) (room r : jsstring) (st : state) :
  sockets st !! ws ≫= _room = Some room → room ≠ [] →
  ws ∈ members st room →
  members (leaveRoom ws st) r
  = if decide (room = r) then set_delete Nat.eqb (members st room) ws
    else members st r.
Proof.
  intros Hroom Hne Hin. unfold leaveRoom. rewrite Hroom.
  rewrite bool_decide_eq_false_2 by done.
  unfold members in *.
  destruct (rooms st !! room) as [set|] eqn:E; simpl in *.
  2:{ by apply elem_of_nil in Hin. }
  case_bool_decide as Hl; simpl.
  - rewrite lookup_delete. case_decide; subst; simpl.
    + symmetry. by apply length_zero_iff_nil.
    + done.
  - rewrite lookup_insert. by case_decide.
Qed.

Lemma leaveRoom_frame (ws : nat) (st : state) :
  sockets (leaveRoom ws st) = sockets st ∧ sent (leaveRoom ws st) = sent st ∧
  closes (leaveRoom ws st) = closes st ∧ crashed (leaveRoom ws st) = crashed st.
Proof.
  unfold leaveRoom.
  destruct (sockets st !! ws ≫= _room) as [room|]; [|done].
  case_bool_decide; [done|].
  destruct (rooms st !! room); [|done]. by case_bool_decide.
Qed.

Lemma is_open_alter (f : socket → socket) (ws w : nat) (st st' : state) :
  (∀ s, readyState (f s) = readyState s) →
  sockets st' = alter f ws (sockets st) →
  is_open st' w = is_open st w.
Proof.
  intros Hf Hs. unfold is_open. rewrite Hs, list_lookup_alter.
  case_decide; [subst|done].
  destruct (sockets st !! w); simpl; [|done]. by rewrite Hf.
Qed.

Lemma recipients_ext (st st' : state) (room : jsstring) :
  rooms st' = rooms st → (∀ w, is_open st' w = is_open st w) →
  recipients st' room = recipients st room.
Proof.
  intros Hr Ho. unfold recipients, members. rewrite Hr.
  by apply filter_ext.
Qed.

(** The close handler changes no socket and closes none. *)
Lemma sockets_on_close (ws : nat) (room : jsstring) (now : float) (st : state) :
  sockets (on_close ws room now st) = sockets st ∧
  closes (on_close ws room now st) = closes st.
Proof.
  unfold on_close. destruct (to_string_throws _); [done|].
  rewrite server_broadcast_spec. cbn -[leaveRoom].
  match goal with |- context [leaveRoom ?w ?s] =>
    by destruct (leaveRoom_frame w s) as (-> & _ & -> & _) end.
Qed.

Lemma wf_init : wf init.
Proof.
  split.
  - apply pruned_init.
  - intros room. unfold members. simpl. rewrite lookup_empty. constructor.
  - intros room ws. unfold members. simpl. rewrite lookup_empty. simpl.
    by intros ?%elem_of_nil.
  - intros ws s room. simpl. by rewrite lookup_nil.
  - intros ws s room. simpl. by rewrite lookup_nil.
  - intros ws s room. simpl. by rewrite lookup_nil.
Qed.

Section Config.
Variable JWT_SECRET : option jsstring.
Variable jwt_verify : jsstring → jsstring → option value.
Notation on_connection := (on_connection JWT_SECRET jwt_verify).
Notation decide_connection := (decide_connection JWT_SECRET jwt_verify).
Notation step := (step JWT_SECRET jwt_verify).
Notation run := (run JWT_SECRET jwt_verify).

Lemma server_connection_decided (req : upgrade) (now : float) (st : state) :
  let ws := length (sockets st) in
  let st' := on_connection req now st in
  crashed st' = crashed st ∧
  match decide_connection req with
  | Reject code => rejected st st' code
  | Accept user room =>
      room ≠ [] ∧ closes st' = closes st ∧
      rooms st' = <[room := set_add Nat.eqb (members st room) ws]> (rooms st) ∧
      sockets st' = sockets st ++ [Socket OPEN (Some room) user (Some room)] ∧
      sent st' = sent st ++ ((λ w, (w, presence "join" user room now))
                               <$> recipients st' room)
  | Abort user room => room ≠ [] ∧ aborted st st' user room
  end.
Proof.
  intros ws st'. subst st'. unfold Server.on_connection, ServerSpec.decide_connection.
  fold ws. unfold rejected, aborted.
  destruct req as [|token room_param].
  { simpl. unfold ws. by rewrite alter_last. }
  destruct (falsy token || falsy JWT_SECRET).
  { simpl. unfold ws. by rewrite alter_last. }
  destruct (jwt_verify _ _) as [payload|].
  2:{ simpl. unfold ws. by rewrite alter_last. }
  destruct (getprop payload "sub") as [sub|] eqn:Es;
    destruct (getprop payload "name") as [nm|] eqn:En;
    destruct (getprop payload "email") as [em|] eqn:Ee;
    try (simpl; unfold ws; by rewrite alter_last).
  set (room := if falsy room_param then _ else _).
  set (user := obj _).
  assert (Hroom : room ≠ []).
  { subst room. destruct room_param as [[|c r]|]; simpl; done. }
  remember (joinRoom ws room
    (with_socket ws (λ s, Socket (readyState s) (_room s) user (listening s))
       {| rooms := rooms st; sockets := sockets st ++ [fresh_socket];
          sent := sent st; closes := closes st; console := console st;
          crashed := crashed st |})) as stJ eqn:HJ.
  assert (Hr : rooms stJ
               = <[room := set_add Nat.eqb (members st room) ws]> (rooms st)).
  { subst stJ. by rewrite rooms_joinRoom. }
  assert (Hs : sockets stJ
               = sockets st ++ [Socket OPEN (Some room) user None]).
  { subst stJ. rewrite sockets_joinRoom. cbn.
    unfold ws. by rewrite !alter_last. }
  assert (Ho : sent stJ = sent st ∧ closes stJ = closes st
               ∧ console stJ = console st ∧ crashed stJ = crashed st).
  { subst stJ.
    by destruct (others_joinRoom ws room
      (with_socket ws (λ s, Socket (readyState s) (_room s) user (listening s))
         {| rooms := rooms st; sockets := sockets st ++ [fresh_socket];
            sent := sent st; closes := closes st; console := console st;
            crashed := crashed st |})) as (-> & -> & -> & ->). }
  destruct Ho as (Hsent & Hcl & Hco & Hcr). clear HJ.
  destruct (to_string_throws nm).
  { cbn. rewrite Hr, Hs, Hsent, Hcl, Hco, Hcr. unfold ws.
    by rewrite alter_last. }
  rewrite server_broadcast_spec. cbn -[recipients presence].
  rewrite Hr, Hs, Hsent, Hcl, Hcr. unfold ws. rewrite alter_last.
  cbn -[recipients presence].
  repeat split; try done.
  f_equal. f_equal. symmetry. apply recipients_ext; [cbn; by rewrite ?Hr|].
  intros w.
  apply (is_open_alter (λ s, Socket (readyState s) (_room s) (_user s) (Some room))
           (length (sockets st))); [done|].
  cbn. by rewrite Hs, alter_last.
Qed.

Lemma server_message_frame (ws : nat) (room : jsstring) (message : inbound)
    (now : float) (st : state) :
  rooms (on_message ws room message now st) = rooms st ∧
  sockets (on_message ws room message now st) = sockets st ∧
  closes (on_message ws room message now st) = closes st.
Proof.
  unfold on_message. destruct (getprop _ "type") as [ty|]; [|done].
  destruct (is_str ty "typing"); by rewrite server_broadcast_spec.
Qed.

(** The name the connection handler accepted converts to a string. *)
Lemma accept_name (req : upgrade) (user : value) (room : jsstring) :
  decide_connection req = Accept user room →
  to_string_throws (js_or (field user "name") (str "Unknown")) = false.
Proof.
  unfold ServerSpec.decide_connection. destruct req as [|token room_param]; [done|].
  destruct (falsy token || falsy JWT_SECRET); [done|].
  destruct (jwt_verify _ _) as [payload|]; [|done].
  destruct (getprop payload "sub") as [sub|]; [|done].
  destruct (getprop payload "name") as [nm|]; [|done].
  destruct (getprop payload "email") as [em|]; [|done].
  destruct (to_string_throws nm) eqn:E; [done|]. intros [= <- _].
  assert (field (obj [("id", sub); ("name", nm); ("email", em)]) "name" = nm)
    as -> by (by vm_compute).
  unfold js_or. by destruct (truthy nm).
Qed.

(** The invariant after a [joinRoom] for a new socket. *)
Lemma wf_joined (st st' : state) (room : jsstring) (new : socket) :
  wf st → room ≠ [] →
  rooms st'
  = <[room := set_add Nat.eqb (members st room) (length (sockets st))]> (rooms st) →
  sockets st' = sockets st ++ [new] → _room new = Some room →
  (listening new = Some room ∧ readyState new ≠ CLOSED ∧
   to_string_throws (js_or (field (_user new) "name") (str "Unknown")) = false ∨
   listening new = None ∧ readyState new ≠ OPEN) →
  wf st'.
Proof.
  intros [Hp Hn Hm Hl Hnm Hst] Hne Hr Hs Hroom Hnew.
  assert (Hmem : ∀ r, members st' r
                      = if decide (room = r)
                        then set_add Nat.eqb (members st room) (length (sockets st))
                        else members st r).
  { intros r. unfold members at 1. rewrite Hr, lookup_insert. by case_decide. }
  split.
  - apply pruned_alt. intros r set. rewrite Hr, lookup_insert.
    case_decide.
    + intros [= <-]. apply set_add_nonempty.
    + by apply pruned_alt.
  - intros r. rewrite Hmem. case_decide; [|apply Hn].
    apply ws_add_NoDup, Hn.
  - intros r ws. rewrite Hmem, Hs. intros Hin.
    assert (Hold : ws ∈ members st r → r ≠ [] ∧ ∃ s,
              (sockets st ++ [new]) !! ws = Some s ∧ _room s = Some r ∧
              (listening s = Some r ∧ readyState s ≠ CLOSED ∨
               listening s = None ∧ readyState s ≠ OPEN)).
    { intros Hin'. destruct (Hm r ws Hin') as (? & s & Hs' & ?).
      split; [done|]. exists s. split; [|done]. by apply lookup_app_l_Some. }
    case_decide as Hd; [subst r|by apply Hold].
    apply elem_of_ws_add in Hin as [Hin| ->]; [by apply Hold|].
    split; [done|]. exists new. split.
    { rewrite lookup_app_r by done. by rewrite Nat.sub_diag. }
    split; [done|]. destruct Hnew as [(? & ? & _)|?]; [by left|by right].
  - intros ws s r. rewrite Hs, Hmem. intros Hlk Hli Hrs.
    apply lookup_app_Some in Hlk as [Hlk|[Hge Hlk]].
    + specialize (Hl ws s r Hlk Hli Hrs).
      case_decide; [subst r|done]. apply elem_of_ws_add. by left.
    + apply list_lookup_singleton_Some in Hlk as [Hz <-].
      destruct Hnew as [(Hli' & _)|[Hli' _]]; [|congruence].
      assert (r = room) as -> by congruence.
      rewrite decide_True by done. apply elem_of_ws_add. right. lia.
  - intros ws s r. rewrite Hs. intros Hlk Hli.
    apply lookup_app_Some in Hlk as [Hlk|[Hge Hlk]]; [by eapply Hnm|].
    apply list_lookup_singleton_Some in Hlk as [Hz <-].
    destruct Hnew as [(_ & _ & Hok)|[Hli' _]]; [done|congruence].
  - intros ws s r. rewrite Hs, Hmem. intros Hlk Hro Hli.
    apply lookup_app_Some in Hlk as [Hlk|[Hge Hlk]].
    + specialize (Hst ws s r Hlk Hro Hli).
      case_decide; [subst r|done]. apply elem_of_ws_add. by left.
    + apply list_lookup_singleton_Some in Hlk as [Hz <-].
      assert (r = room) as -> by congruence.
      rewrite decide_True by done. apply elem_of_ws_add. right. lia.
Qed.

Lemma wf_on_connection (req : upgrade) (now : float) (st : state) :
  wf st → wf (on_connection req now st).
Proof.
  intros Hwf. pose proof Hwf as [Hp Hn Hm Hl Hnm Hst].
  destruct (server_connection_decided req now st) as [_ H].
  destruct (decide_connection req) as [code|user room|user room] eqn:Hd.
  - destruct H as (Hr & _ & _ & Hs).
    assert (Hmem : ∀ r, members (on_connection req now st) r = members st r).
    { intros r. unfold members. by rewrite Hr. }
    split.
    + intros r. unfold pruned in Hp. rewrite Hmem, Hr. apply Hp.
    + intros r. rewrite Hmem. apply Hn.
    + intros r ws. rewrite Hmem. intros Hin.
      destruct (Hm r ws Hin) as (? & s & Hs' & ?). split; [done|].
      exists s. split; [|done]. rewrite Hs. by apply lookup_app_l_Some.
    + intros ws s r. rewrite Hs, Hmem. intros Hlk Hli Hrs.
      apply lookup_app_Some in Hlk as [Hlk|[_ Hlk]]; [by eapply Hl|].
      apply list_lookup_singleton_Some in Hlk as [_ <-]. done.
    + intros ws s r. rewrite Hs. intros Hlk Hli.
      apply lookup_app_Some in Hlk as [Hlk|[_ Hlk]]; [by eapply Hnm|].
      apply list_lookup_singleton_Some in Hlk as [_ <-]. done.
    + intros ws s r. rewrite Hs, Hmem. intros Hlk Hro Hli.
      apply lookup_app_Some in Hlk as [Hlk|[_ Hlk]]; [by eapply Hst|].
      apply list_lookup_singleton_Some in Hlk as [_ <-]. done.
  - destruct H as (Hne & _ & Hr & Hs & _).
    apply (wf_joined st _ room _ Hwf Hne Hr Hs); [done|].
    left. split_and!; [done..|]. by apply (accept_name req user room).
  - destruct H as (Hne & Hr & _ & _ & _ & Hs).
    apply (wf_joined st _ room _ Hwf Hne Hr Hs); [done|].
    by right.
Qed.

(** The close event of a session takes it out of its room and notifies
    the open members that remain. *)
Lemma close_step (ws : nat) (s : socket) (room : jsstring) (now : float)
    (st : state) :
  wf st → session st ws s room →
  let st' := step (Close ws now) st in
  sockets st' = <[ws := Socket CLOSED (_room s) (_user s) (listening s)]> (sockets st) ∧
  (∀ r, members st' r = if decide (room = r)
                        then set_delete Nat.eqb (members st room) ws
                        else members st r) ∧
  sent st' = sent st ++ ((λ w, (w, presence "leave" (_user s) room now))
                           <$> recipients st' room) ∧
  closes st' = closes st ∧ crashed st' = crashed st.
Proof.
  intros Hwf (Hcr & Hs & Hli & Hrs) st'. subst st'.
  pose proof (wf_listening _ Hwf ws s room Hs Hli Hrs) as Hin.
  destruct (wf_member _ Hwf room ws Hin) as (Hne & s' & Hs' & Hroom & _).
  assert (s' = s) by congruence. subst s'.
  pose proof (wf_name _ Hwf ws s room Hs Hli) as Hnm. unfold field in Hnm.
  unfold Server.step. rewrite Hcr, Hs. destruct s as [rs r u l]. simpl in *.
  subst r l. rewrite bool_decide_eq_false_2 by done.
  set (st1 := with_socket ws _ st).
  assert (Hu1 : user_of st1 ws = u).
  { unfold user_of. subst st1. cbn. by rewrite list_lookup_alter_eq, Hs. }
  unfold on_close. rewrite Hu1, Hnm.
  set (st2 := log _ st1).
  assert (Hsock1 : sockets st2
                   = <[ws := Socket CLOSED (Some room) u (Some room)]> (sockets st)).
  { subst st2 st1. cbn. by rewrite list_insert_alter. }
  assert (Hmem : ∀ r, members (leaveRoom ws st2) r
                      = if decide (room = r)
                        then set_delete Nat.eqb (members st room) ws
                        else members st r).
  { intros r. rewrite (members_leaveRoom ws room r st2); try done.
    rewrite Hsock1, list_lookup_insert_eq; [done|].
    by eapply lookup_lt_Some. }
  destruct (leaveRoom_frame ws st2) as (Hsk & Hsent & Hcl & Hcrs).
  rewrite server_broadcast_spec. cbn -[recipients presence leaveRoom].
  rewrite Hsk, Hsent, Hcl, Hcrs, Hsock1.
  assert (Hu : user_of (leaveRoom ws st2) ws = u).
  { unfold user_of. rewrite Hsk, Hsock1, list_lookup_insert_eq; [done|].
    by eapply lookup_lt_Some. }
  rewrite Hu.
  split; [done|]. split; [|split; [|done]].
  - intros r'. rewrite <- Hmem. done.
  - f_equal. f_equal. apply recipients_ext; [done|].
    intros w. unfold is_open. cbn -[leaveRoom]. by rewrite Hsk, Hsock1.
Qed.
End Config.
End ServerFacts.

Module ServerRuns.
Import JS Server ServerSpec ServerFacts.

Section Config.
Variable JWT_SECRET : option jsstring.
Variable jwt_verify : jsstring → jsstring → option value.
Notation on_connection := (on_connection JWT_SECRET jwt_verify).
Notation decide_connection := (decide_connection JWT_SECRET jwt_verify).
Notation step := (step JWT_SECRET jwt_verify).
Notation run := (run JWT_SECRET jwt_verify).

Lemma wf_step (e : event) (st : state) : wf st → wf (step e st).
Proof.
  intros Hwf. unfold Server.step. destruct (crashed st) eqn:Hcr; [done|].
  destruct e as [req now|ws message now|ws now].
  - by apply wf_on_connection.
  - destruct (sockets st !! ws) as [[rs r u [room|]]|]; try done.
    case_bool_decide; [done|].
    destruct (server_message_frame ws room message now st) as (Hr & Hs & _).
    destruct Hwf as [Hp Hn Hm Hl Hnm Hst].
    assert (Hmem : ∀ r, members (on_message ws room message now st) r
                        = members st r).
    { intros r'. unfold members. by rewrite Hr. }
    split.
    + intros r'. unfold pruned in Hp. rewrite Hmem, Hr. apply Hp.
    + intros r'. rewrite Hmem. apply Hn.
    + intros r' w. rewrite Hmem, Hs. apply Hm.
    + intros w s r'. rewrite Hmem, Hs. apply Hl.
    + intros w s r'. rewrite Hs. apply Hnm.
    + intros w s r'. rewrite Hmem, Hs. apply Hst.
  - destruct (sockets st !! ws) as [[rs r u l]|] eqn:Hs; [|done].
    case_bool_decide as Hrs; [done|].
    destruct l as [room|].
    + pose proof (close_step JWT_SECRET jwt_verify ws _ room now st Hwf
        (conj Hcr (conj Hs (conj eq_refl Hrs)))) as H.
      unfold Server.step in H. rewrite Hcr, Hs in H.
      rewrite bool_decide_eq_false_2 in H by done.
      cbv zeta in H. cbn [_room _user listening] in H.
      destruct H as (Hsk & Hmem & _).
      pose proof (wf_name _ Hwf ws _ room Hs eq_refl) as Hnm0.
      unfold field in Hnm0. cbn [_user] in Hnm0.
      destruct Hwf as [Hp Hn Hm Hl Hnm Hst]. split.
      * unfold on_close.
        assert (Hu1 : user_of (with_socket ws
                         (λ _, Socket CLOSED r u (Some room)) st) ws = u).
        { unfold user_of. cbn. by rewrite list_lookup_alter_eq, Hs. }
        rewrite Hu1, Hnm0. rewrite server_broadcast_spec.
        eapply pruned_rooms; [|apply leaveRoom_pruned; eapply pruned_rooms;
                                [|exact Hp]]; done.
      * intros r'. rewrite Hmem. case_decide; [|apply Hn].
        apply ws_delete_NoDup, Hn.
      * intros r' w. rewrite Hmem, Hsk. intros Hin.
        assert (Hw : w ∈ members st r' ∧ w ≠ ws).
        { case_decide as Hd.
          - subst r'. by apply elem_of_ws_delete in Hin.
          - split; [done|]. intros ->.
            destruct (Hm r' ws Hin) as (_ & s' & Hs' & Hr' & _).
            pose proof (Hl ws _ room Hs eq_refl Hrs) as Hin'.
            destruct (Hm room ws Hin') as (_ & s'' & Hs'' & Hr'' & _).
            congruence. }
        destruct Hw as [Hw Hne].
        destruct (Hm r' w Hw) as (? & s' & Hs' & ?). split; [done|].
        exists s'. split; [|done]. by rewrite list_lookup_insert_ne.
      * intros w s r'. rewrite Hmem, Hsk. intros Hlk Hli Hrs'.
        destruct (decide (w = ws)) as [->|Hne].
        { rewrite list_lookup_insert_eq in Hlk by (by eapply lookup_lt_Some).
          injection Hlk as <-. done. }
        rewrite list_lookup_insert_ne in Hlk by done.
        specialize (Hl w s r' Hlk Hli Hrs').
        case_decide; [subst r'|done].
        apply elem_of_ws_delete. done.
      * intros w s r'. rewrite Hsk. intros Hlk Hli.
        destruct (decide (w = ws)) as [->|Hne].
        { rewrite list_lookup_insert_eq in Hlk by (by eapply lookup_lt_Some).
          injection Hlk as <-. done. }
        rewrite list_lookup_insert_ne in Hlk by done.
        by eapply Hnm.
      * intros w s r'. rewrite Hmem, Hsk. intros Hlk Hro Hli.
        destruct (decide (w = ws)) as [->|Hne].
        { rewrite list_lookup_insert_eq in Hlk by (by eapply lookup_lt_Some).
          injection Hlk as <-. done. }
        rewrite list_lookup_insert_ne in Hlk by done.
        specialize (Hst w s r' Hlk Hro Hli).
        case_decide; [subst r'|done].
        apply elem_of_ws_delete. done.
    + destruct Hwf as [Hp Hn Hm Hl Hnm Hst]. split; try done.
      * intros r' w Hin. destruct (Hm r' w Hin) as (? & s' & Hs' & Hx).
        split; [done|]. cbn.
        destruct (decide (w = ws)) as [->|Hne].
        -- rewrite list_lookup_alter_eq, Hs. eexists. split; [done|].
           rewrite Hs in Hs'. injection Hs' as <-. simpl in *.
           destruct Hx as [Hr [[? _]|_]]; [done|]. split; [done|]. by right.
        -- exists s'. by rewrite list_lookup_alter_ne.
      * intros w s r' Hlk Hli Hrs'. cbn in Hlk.
        destruct (decide (w = ws)) as [->|Hne].
        { rewrite list_lookup_alter_eq, Hs in Hlk. simpl in Hlk.
          injection Hlk as <-. done. }
        rewrite list_lookup_alter_ne in Hlk by done.
        by eapply Hl.
      * intros w s r' Hlk Hli. cbn in Hlk.
        destruct (decide (w = ws)) as [->|Hne].
        { rewrite list_lookup_alter_eq, Hs in Hlk. simpl in Hlk.
          injection Hlk as <-. done. }
        rewrite list_lookup_alter_ne in Hlk by done.
        by eapply Hnm.
      * intros w s r' Hlk Hro Hli. cbn in Hlk.
        destruct (decide (w = ws)) as [->|Hne].
        { rewrite list_lookup_alter_eq, Hs in Hlk. simpl in Hlk.
          injection Hlk as <-. simpl in *. by eapply (Hst ws _ r' Hs). }
        rewrite list_lookup_alter_ne in Hlk by done.
        by eapply Hst.
Qed.

Lemma wf_run (es : list event) (st : state) : wf st → wf (run es st).
Proof.
  revert st. induction es as [|e es IH]; intros st Hwf; [done|].
  simpl. apply IH. by apply wf_step.
Qed.


End Config.
End ServerRuns.

(** ** hoh-ws-server.js: broadcasts, the client map, closed sockets *)

Module HohFacts.
Import JS HohWs HohSpec.

Lemma hoh_broadcast_fold (room message : value) (exceptWs : option nat)
    (cs : list (nat * meta)) (st : state) :
  foldl (λ st '(ws, m),
           if negb (is_open st ws) then st
           else if negb (in_room m room) then st
           else if bool_decide (exceptWs = Some ws) then st
           else send ws message st) st cs
  = State (clients st) (sockets st)
      (sent st ++ ((λ w, (w, message)) <$>
         (fst <$> List.filter
            (λ '(ws, m), is_open st ws && in_room m room
                         && negb (bool_decide (exceptWs = Some ws))) cs)))
      (closes st) (errors st) (fetches st) (responses st) (crashed st).
Proof.
  revert st. induction cs as [|[w m] cs IH]; intros st; simpl.
  - rewrite app_nil_r. by destruct st.
  - rewrite IH. clear IH.
    destruct (is_open st w) eqn:Eo; simpl; [|done].
    destruct (in_room m room); simpl; [|done].
    destruct (bool_decide (exceptWs = Some w)); simpl; [done|].
    by rewrite <- app_assoc.
Qed.

Lemma hoh_broadcast_spec (room message : value) (exceptWs : option nat)
    (st : state) :
  broadcastToRoom room message exceptWs st
  = State (clients st) (sockets st)
      (sent st ++ ((λ w, (w, message)) <$> recipients st room exceptWs))
      (closes st) (errors st) (fetches st) (responses st) (crashed st).
Proof. apply hoh_broadcast_fold. Qed.

Lemma elem_of_recipients (st : state) (room : value) (exceptWs : option nat)
    (w : nat) :
  w ∈ recipients st room exceptWs ↔
  is_open st w = true ∧ exceptWs ≠ Some w ∧
  ∃ m, (w, m) ∈ clients st ∧ in_room m room = true.
Proof.
  unfold recipients. rewrite list_elem_of_fmap. split.
  - intros ([w' m] & -> & Hin). apply list_elem_of_In, filter_In in Hin.
    destruct Hin as [Hin Hc]. simpl.
    apply andb_true_iff in Hc as [Hc He]. apply andb_true_iff in Hc as [Ho Hr].
    apply negb_true_iff, bool_decide_eq_false in He.
    split_and!; [done..|]. exists m. split; [|done]. by apply list_elem_of_In.
  - intros (Ho & He & m & Hin & Hr). exists (w, m). split; [done|].
    apply list_elem_of_In, filter_In. split; [by apply list_elem_of_In|].
    rewrite Ho, Hr. simpl. apply negb_true_iff. by apply bool_decide_eq_false.
Qed.

Lemma meta_of_update (m : list (nat * meta)) (ws w : nat) (f : meta → meta) :
  meta_of (update_meta m ws f) w
  = if decide (w = ws) then f <$> meta_of m w else meta_of m w.
Proof.
  induction m as [|[k v] m IH]; simpl.
  - by case_decide.
  - destruct (Nat.eqb k ws) eqn:E; simpl.
    + apply Nat.eqb_eq in E. subst k.
      destruct (Nat.eqb ws w) eqn:E'.
      * apply Nat.eqb_eq in E'. subst. by rewrite decide_True.
      * apply Nat.eqb_neq in E'. by rewrite decide_False.
    + rewrite IH. destruct (Nat.eqb k w) eqn:E'; [|done].
      apply Nat.eqb_eq in E'. subst. apply Nat.eqb_neq in E.
      by rewrite decide_False.
Qed.

Lemma update_meta_id (m : list (nat * meta)) (ws : nat) (f : meta → meta) :
  (∀ v, meta_of m ws = Some v → f v = v) → update_meta m ws f = m.
Proof.
  induction m as [|[k v] m IH]; simpl; [done|]. intros H.
  destruct (Nat.eqb k ws) eqn:E.
  - by rewrite H.
  - by rewrite IH.
Qed.

Lemma meta_of_map_set (m : list (nat * meta)) (ws : nat) (v : meta) :
  meta_of (map_set m ws v) ws = Some v.
Proof.
  induction m as [|[k v'] m IH]; simpl.
  - by rewrite Nat.eqb_refl.
  - destruct (Nat.eqb k ws) eqn:E; simpl; by rewrite E.
Qed.

Lemma meta_of_map_set_ne (m : list (nat * meta)) (ws w : nat) (v : meta) :
  w ≠ ws → meta_of (map_set m ws v) w = meta_of m w.
Proof.
  intros Hw. induction m as [|[k v'] m IH]; simpl.
  - apply Nat.eqb_neq in Hw. rewrite Nat.eqb_sym in Hw. by rewrite Hw.
  - destruct (Nat.eqb k ws) eqn:E; simpl.
    + apply Nat.eqb_eq in E. subst k.
      destruct (Nat.eqb ws w) eqn:E'; [|done].
      apply Nat.eqb_eq in E'. by subst.
    + by rewrite IH.
Qed.

Lemma rooms_of_with_rooms_of (ws w : nat) (f : list value → list value)
    (st : state) :
  rooms_of (with_rooms_of ws f st) w
  = if decide (w = ws)
    then match meta_of (clients st) w with
         | Some _ => f (rooms_of st w)
         | None => []
         end
    else rooms_of st w.
Proof.
  unfold rooms_of, with_rooms_of. simpl. rewrite meta_of_update.
  case_decide; [|done]. by destruct (meta_of (clients st) w).
Qed.

(** The rooms the connection handler seeds: the trimmed, non-empty
    entries of the comma-separated list. *)
Lemma add_initial_rooms_spec (s : jsstring) (set : list value) (r : value) :
  r ∈ add_initial_rooms (Some s) set ↔
  r ∈ set ∨ ∃ e, e ∈ split 44 s ∧ trim e ≠ [] ∧ r = VStr (trim e).
Proof.
  unfold add_initial_rooms. destruct s as [|c s]; simpl falsy; cbv iota.
  { split; [by left|]. intros [H|(e & He & Hne & _)]; [done|].
    simpl in He. apply list_elem_of_singleton in He. by subst. }
  simpl default. generalize (split 44 (c :: s)). intros l. revert set.
  induction l as [|e l IH]; intros set; simpl.
  - split; [by left|]. intros [H|(e & He & _)]; [done|].
    by apply elem_of_nil in He.
  - rewrite IH. case_bool_decide as Ht.
    + split.
      * intros [H|(e' & He' & Hne & Hr)]; [by left|].
        right. exists e'. split_and!; [|done..]. by right.
      * intros [H|(e' & [->|He']%elem_of_cons & Hne & Hr)];
          [by left|done|]. right. by exists e'.
    + rewrite elem_of_str_add. split.
      * intros [[H| ->]|(e' & He' & Hne & Hr)]; [by left| |].
        -- right. exists e. split_and!; [by left|done..].
        -- right. exists e'. split_and!; [by right|done..].
      * intros [H|(e' & [->|He']%elem_of_cons & Hne & Hr)].
        -- by left; left.
        -- by left; right.
        -- right. by exists e'.
Qed.

Lemma add_initial_rooms_NoDup (q : option jsstring) (set : list value) :
  NoDup set → NoDup (add_initial_rooms q set).
Proof.
  unfold add_initial_rooms. destruct (falsy q); [done|].
  generalize (split 44 (default [] q)). intros l. revert set.
  induction l as [|e l IH]; intros set Hs; simpl; [done|].
  apply IH. case_bool_decide; [done|]. by apply str_add_NoDup.
Qed.




Local Ltac quiet H := (split_and!; [done..|apply H; done]).

Section Config.
Variable HOH_JWT_SECRET : option jsstring.
Variable jwt_verify : jsstring → jsstring → option value.
Notation JWT_SECRET := (JWT_SECRET HOH_JWT_SECRET).
Notation on_connection := (on_connection HOH_JWT_SECRET jwt_verify).
Notation decide_connection := (decide_connection HOH_JWT_SECRET jwt_verify).
Notation step := (step HOH_JWT_SECRET jwt_verify).
Notation run := (run HOH_JWT_SECRET jwt_verify).

(** What a message handler sends: the reply to its own connection, or
    a broadcast to open sockets other than its own. *)
Lemma on_message_effects (ws : nat) (data : inbound) (now : float) (st : state) :
  let st' := on_message ws data now st in
  sockets st' = sockets st ∧ closes st' = closes st ∧
  errors st' = errors st ∧ responses st' = responses st ∧
  ∃ l, sent st' = sent st ++ l ∧
       ∀ x f, (x, f) ∈ l →
         (x = ws ∧ is_reply f = true) ∨ (x ≠ ws ∧ is_open st x = true).
Proof.
  assert (Hnil : ∀ st' : state,
    sent st' = sent st →
    ∃ l, sent st' = sent st ++ l ∧
       ∀ x f, (x, f) ∈ l →
         (x = ws ∧ is_reply f = true) ∨ (x ≠ ws ∧ is_open st x = true)).
  { intros st' ->. exists []. rewrite app_nil_r. split; [done|].
    by intros x f ?%elem_of_nil. }
  assert (Hbc : ∀ room message,
    ∃ l, sent (broadcastToRoom room message (Some ws) st) = sent st ++ l ∧
       ∀ x f, (x, f) ∈ l →
         (x = ws ∧ is_reply f = true) ∨ (x ≠ ws ∧ is_open st x = true)).
  { intros room message. rewrite hoh_broadcast_spec. eexists. split; [done|].
    intros x f (w & [= -> ->] & Hw)%list_elem_of_fmap.
    apply elem_of_recipients in Hw as (Ho & He & _). right.
    split; [congruence|done]. }
  intros st'. subst st'.
  unfold on_message. destruct data as [raw|msg]; [quiet Hnil|].
  destruct (getprop msg "type") as [type|]; [|quiet Hnil].
  destruct (getprop msg "room") as [room|]; [|quiet Hnil].
  destruct (is_str type "message:new").
  { repeat case_match; quiet Hnil. }
  destruct (is_str type "message" && truthy room).
  { destruct (default VUndef (getprop msg "text")) as [| |b|x|text|l|ps|fn];
      simpl truthy; try quiet Hnil.
    - destruct b; quiet Hnil.
    - destruct (negb _); quiet Hnil.
    - destruct (_ || _); [quiet Hnil|].
      match goal with |- context [broadcastToRoom ?r ?m _ _] =>
        destruct (Hbc r m) as (l' & Hl' & Hl'') end.
      rewrite hoh_broadcast_spec in *. split_and!; try done. eauto. }
  destruct (is_str type "join" && truthy room).
  { split_and!; try done. eexists [_]. split; [done|].
    intros x f [= -> ->]%list_elem_of_singleton. by left. }
  destruct (is_str type "leave" && truthy room).
  { split_and!; try done. eexists [_]. split; [done|].
    intros x f [= -> ->]%list_elem_of_singleton. by left. }
  destruct (_ && _); [|quiet Hnil].
  match goal with |- context [broadcastToRoom ?r ?m _ _] =>
    destruct (Hbc r m) as (l' & Hl' & Hl'') end.
  rewrite hoh_broadcast_spec in *. split_and!; try done. eauto.
Qed.

Lemma hoh_connection_decided (req : upgrade) (st : state) :
  let ws := length (sockets st) in
  let st' := on_connection req st in
  crashed st' = crashed st ∧ fetches st' = fetches st ∧
  responses st' = responses st ∧
  match decide_connection req with
  | Reject code => rejected st st' code
  | Accept userId name =>
      closes st' = closes st ∧ errors st' = errors st ∧
      sockets st' = sockets st ++ [Socket OPEN true] ∧
      meta_of (clients st') ws
        = Some (Meta userId name (add_initial_rooms (rooms_param req) [])) ∧
      (∀ w, w ≠ ws → meta_of (clients st') w = meta_of (clients st) w) ∧
      sent st' = sent st ++
        [(ws, connected_frame userId name
                (add_initial_rooms (rooms_param req) []))]
  end.
Proof.
  intros ws st'. subst st'.
  unfold HohWs.on_connection, HohSpec.decide_connection, rejected.
  fold ws.
  destruct req as [|token q].
  { cbn. unfold ws. by rewrite alter_last. }
  destruct (falsy token).
  { cbn. unfold ws. by rewrite alter_last. }
  destruct (jwt_verify _ _) as [payload|].
  2:{ cbn. unfold ws. by rewrite alter_last. }
  destruct (getprop payload "sub") as [sub|];
    destruct (getprop payload "user_id") as [uid|];
    destruct (getprop payload "name") as [nm|];
    try (cbn; unfold ws; by rewrite alter_last).
  cbn -[add_initial_rooms]. unfold rooms_of. cbn -[add_initial_rooms].
  assert (Hm : meta_of
      (update_meta (map_set (clients st) ws
                      (Meta (js_or sub uid) (js_or nm (str "Guest")) []))
         ws (λ v, Meta (userId v) (name v) (add_initial_rooms q (rooms v)))) ws
      = Some (Meta (js_or sub uid) (js_or nm (str "Guest"))
                (add_initial_rooms q []))).
  { rewrite meta_of_update, decide_True by done. by rewrite meta_of_map_set. }
  rewrite Hm. cbn -[add_initial_rooms]. unfold ws at 1. rewrite alter_last.
  split_and!; try done.
  intros w Hw. rewrite meta_of_update, decide_False by done.
  by apply meta_of_map_set_ne.
Qed.


End Config.
End HohFacts.

(** ** hoh-ws-server.js: the query of the upgrade request *)

Module QueryFacts.
Import JS HohWs HohSpec.

Notation fold_pairs :=
  (foldl (λ (out : option (gmap jsstring jsstring)) pair,
            out ≫= λ o, add_pair o pair)).

Lemma parseQuery_pairs (url : jsstring) :
  parseQuery url = fold_pairs (Some ∅) (query_pairs url).
Proof. unfold parseQuery, query_pairs. by destruct (indexOf 63 url). Qed.

Lemma add_pair_alt (o : gmap jsstring jsstring) (pair : jsstring) :
  add_pair o pair
  = if bool_decide (pair_key pair = []) then Some o
    else k ← decodeURIComponent (pair_key pair);
         v ← decodeURIComponent (pair_value pair);
         Some (set_prop o k v).
Proof.
  unfold add_pair, pair_key, pair_value. by destruct (key_value pair).
Qed.

Lemma fold_pairs_None (pairs : list jsstring) : fold_pairs None pairs = None.
Proof. by induction pairs. Qed.

Lemma key_value_plain (c : N) (pair : jsstring) :
  c ∉ pair → (c ∉ pair_key pair) ∧ (c ∉ pair_value pair).
Proof.
  intros Hp. unfold pair_key, pair_value, key_value.
  pose proof (elem_of_split 61 pair) as Hs.
  destruct (split 61 pair) as [|k [|v l]]; simpl.
  - split; apply not_elem_of_nil.
  - split; [|apply not_elem_of_nil]. intros H. apply Hp, (Hs k); [by left|done].
  - split; intros H; apply Hp.
    + apply (Hs k); [by left|done].
    + apply (Hs v); [by right; left|done].
Qed.

Lemma key_value_pair (k v : jsstring) :
  61%N ∉ k → 61%N ∉ v → key_value (k ++ 61%N :: v) = (k, Some v).
Proof.
  intros Hk Hv. unfold key_value.
  by rewrite split_app, !split_plain.
Qed.

Lemma key_value_bare (k : jsstring) : 61%N ∉ k → key_value k = (k, None).
Proof. intros Hk. unfold key_value. by rewrite split_plain. Qed.

Lemma key_value_cut (k v w : jsstring) :
  61%N ∉ k → 61%N ∉ v → key_value (k ++ 61%N :: v ++ 61%N :: w) = (k, Some v).
Proof.
  intros Hk Hv. unfold key_value.
  rewrite split_app, split_app, !split_plain by done. done.
Qed.

(** [parseQuery] throws exactly when a pair with a key has a key or a
    value that [decodeURIComponent] rejects. *)
Lemma fold_pairs_throws (o : gmap jsstring jsstring) (pairs : list jsstring) :
  fold_pairs (Some o) pairs = None ↔
  ∃ pair, pair ∈ pairs ∧ pair_key pair ≠ [] ∧
          (decodeURIComponent (pair_key pair) = None ∨
           decodeURIComponent (pair_value pair) = None).
Proof.
  revert o. induction pairs as [|p pairs IH]; intros o; simpl.
  - split; [done|]. by intros (? & ?%elem_of_nil & _).
  - rewrite add_pair_alt. case_bool_decide as Hk.
    { rewrite IH. split.
      - intros (pair & Hin & H). exists pair. split; [by right|done].
      - intros (pair & [->|Hin]%elem_of_cons & Hne & H); [done|].
        by exists pair. }
    destruct (decodeURIComponent (pair_key p)) as [k|] eqn:Ek; simpl.
    2:{ rewrite fold_pairs_None. split; [|done]. intros _.
        exists p. split_and!; [by left|done|by left]. }
    destruct (decodeURIComponent (pair_value p)) as [v|] eqn:Ev; simpl.
    2:{ rewrite fold_pairs_None. split; [|done]. intros _.
        exists p. split_and!; [by left|done|by right]. }
    rewrite IH. split.
    + intros (pair & Hin & H). exists pair. split; [by right|done].
    + intros (pair & [->|Hin]%elem_of_cons & Hne & H).
      * destruct H; congruence.
      * by exists pair.
Qed.

Lemma set_prop_lookup (o : gmap jsstring jsstring) (k v k' : jsstring) :
  is_Some (set_prop o k v !! k') ↔
  is_Some (o !! k') ∨ (k' = k ∧ k ≠ u16 "__proto__").
Proof.
  unfold set_prop. case_bool_decide as Hp.
  - split; [by left|]. intros [H|[_ H]]; done.
  - rewrite lookup_insert_is_Some. split.
    + intros [<-|[_ H]]; [by right|by left].
    + intros [H|[-> _]]; [|by left].
      destruct (decide (k = k')); [by left|by right].
Qed.

Lemma fold_pairs_keys (o q : gmap jsstring jsstring) (pairs : list jsstring)
    (k : jsstring) :
  fold_pairs (Some o) pairs = Some q →
  is_Some (q !! k) ↔
  is_Some (o !! k) ∨
  (k ≠ u16 "__proto__" ∧
   ∃ pair, pair ∈ pairs ∧ pair_key pair ≠ [] ∧
           decodeURIComponent (pair_key pair) = Some k).
Proof.
  revert o. induction pairs as [|p pairs IH]; intros o; simpl.
  - intros [= ->]. split; [by left|]. intros [H|(_ & ? & ?%elem_of_nil & _)]; done.
  - rewrite add_pair_alt. case_bool_decide as Hk.
    { intros Hq. rewrite (IH _ Hq). split.
      - intros [H|(Hp & pair & Hin & H)]; [by left|].
        right. split; [done|]. exists pair. split; [by right|done].
      - intros [H|(Hp & pair & [->|Hin]%elem_of_cons & Hne & H)];
          [by left|done|]. right. split; [done|]. by exists pair. }
    destruct (decodeURIComponent (pair_key p)) as [k1|] eqn:Ek; simpl.
    2:{ by rewrite fold_pairs_None. }
    destruct (decodeURIComponent (pair_value p)) as [v1|] eqn:Ev; simpl.
    2:{ by rewrite fold_pairs_None. }
    intros Hq. rewrite (IH _ Hq), set_prop_lookup. split.
    + intros [[H|[-> Hp]]|(Hp & pair & Hin & H)].
      * by left.
      * right. split; [done|]. exists p. split_and!; [by left|done..].
      * right. split; [done|]. exists pair. split; [by right|done].
    + intros [H|(Hp & pair & [->|Hin]%elem_of_cons & Hne & H)].
      * by left; left.
      * left. right. split; congruence.
      * right. split; [done|]. by exists pair.
Qed.

Lemma query_pairs_app (url p : jsstring) :
  63%N ∈ url → 38%N ∉ p →
  query_pairs (url ++ 38%N :: p) = query_pairs url ++ [p].
Proof.
  intros Hq Hp. unfold query_pairs.
  destruct (indexOf 63 url) as [i|] eqn:Ei.
  2:{ by apply indexOf_None in Ei. }
  apply indexOf_Some in Ei as [Hn He].
  assert (Hlen : i < length url).
  { pose proof (f_equal length He) as Hl.
    rewrite length_app, length_take in Hl. simpl in Hl.
    rewrite length_drop in Hl. lia. }
  assert (Hi : indexOf 63 (url ++ 38%N :: p) = Some i).
  { rewrite He at 1. rewrite <- app_assoc. simpl.
    rewrite indexOf_app by done. by rewrite length_take, Nat.min_l by lia. }
  rewrite Hi. rewrite drop_app_le by lia.
  by rewrite split_app, (split_plain _ p).
Qed.

Lemma parseQuery_app (url p : jsstring) :
  63%N ∈ url → 38%N ∉ p →
  parseQuery (url ++ 38%N :: p) = parseQuery url ≫= λ o, add_pair o p.
Proof.
  intros Hq Hp. rewrite !parseQuery_pairs, query_pairs_app by done.
  by rewrite foldl_app.
Qed.

End QueryFacts.

(** ** hoh-ws-server.js: the clients map over the runs *)

Module HohRuns.
Import JS HohWs HohSpec.

Lemma meta_of_keys (m : list (nat * meta)) (w : nat) :
  is_Some (meta_of m w) ↔ w ∈ fst <$> m.
Proof.
  induction m as [|[k v] m IH]; simpl.
  - split; [by intros [? [=]]|by intros ?%elem_of_nil].
  - destruct (Nat.eqb_spec k w) as [->|Hne].
    + split; [intros _; by left|by eexists].
    + rewrite IH, elem_of_cons. naive_solver.
Qed.

Lemma meta_of_elem (m : list (nat * meta)) (w : nat) (v : meta) :
  NoDup (fst <$> m) → (w, v) ∈ m ↔ meta_of m w = Some v.
Proof.
  induction m as [|[k v'] m IH]; simpl; intros Hn.
  - split; [by intros ?%elem_of_nil|done].
  - apply NoDup_cons in Hn as [Hk Hn]. rewrite elem_of_cons, (IH Hn).
    destruct (Nat.eqb_spec k w) as [->|Hne].
    + split.
      * intros [[= <-]|H]; [done|]. destruct Hk. apply meta_of_keys. by eexists.
      * intros [= ->]. by left.
    + split; [|by right]. intros [[= ? ?]|H]; [congruence|done].
Qed.

Lemma keys_update_meta (m : list (nat * meta)) (ws : nat) (f : meta → meta) :
  fst <$> update_meta m ws f = fst <$> m.
Proof.
  induction m as [|[k v] m IH]; simpl; [done|].
  destruct (Nat.eqb k ws); simpl; [done|]. f_equal. exact IH.
Qed.

Lemma keys_map_set (m : list (nat * meta)) (ws : nat) (v : meta) :
  ws ∉ fst <$> m → fst <$> map_set m ws v = (fst <$> m) ++ [ws].
Proof.
  induction m as [|[k v'] m IH]; simpl; [done|].
  intros [Hk Hm]%not_elem_of_cons.
  destruct (Nat.eqb_spec k ws) as [->|_]; [done|]. simpl. f_equal. by apply IH.
Qed.

(** What a message handler sends: nothing, a reply to its own
    connection, or a broadcast that leaves its own connection out. *)
Lemma on_message_sent (ws : nat) (data : inbound) (now : float) (st : state) :
  let st' := on_message ws data now st in
  sent st' = sent st ∨
  (∃ f, sent st' = sent st ++ [(ws, f)]) ∨
  (∃ room message,
     sent st' = sent st ++ ((λ w, (w, message)) <$> recipients st room (Some ws))).
Proof.
  intros st'. subst st'.
  unfold on_message. destruct data as [raw|msg]; [by left|].
  destruct (getprop msg "type") as [type|]; [|by left].
  destruct (getprop msg "room") as [room|]; [|by left].
  destruct (is_str type "message:new").
  { repeat case_match; by left. }
  destruct (is_str type "message" && truthy room).
  { repeat case_match; try (by left).
    rewrite HohFacts.hoh_broadcast_spec. right. right. by eexists _, _. }
  destruct (is_str type "join" && truthy room).
  { right. left. by eexists. }
  destruct (is_str type "leave" && truthy room).
  { right. left. by eexists. }
  destruct (_ && _); [|by left].
  rewrite HohFacts.hoh_broadcast_spec. right. right. by eexists _, _.
Qed.

(** A message handler touches no entry of [clients] but its own, and
    of its own entry only the rooms. *)
Lemma on_message_keys (ws : nat) (data : inbound) (now : float) (st : state) :
  ∃ g, clients (on_message ws data now st) = clients (with_rooms_of ws g st).
Proof.
  assert (Hid : ∀ st' : state, clients st' = clients st →
    ∃ g, clients st' = clients (with_rooms_of ws g st)).
  { intros st' ->. exists (λ v, v). symmetry. apply HohFacts.update_meta_id.
    by intros []. }
  unfold on_message. destruct data as [raw|msg]; [by apply Hid|].
  destruct (getprop msg "type") as [type|]; [|by apply Hid].
  destruct (getprop msg "room") as [room|]; [|by apply Hid].
  destruct (is_str type "message:new").
  { repeat case_match; by eexists. }
  destruct (is_str type "message" && truthy room).
  { repeat case_match; try (by apply Hid).
    rewrite HohFacts.hoh_broadcast_spec. by apply Hid. }
  destruct (is_str type "join" && truthy room); [by eexists|].
  destruct (is_str type "leave" && truthy room); [by eexists|].
  destruct (_ && _); [|by apply Hid].
  rewrite HohFacts.hoh_broadcast_spec. by apply Hid.
Qed.

Lemma recipients_registered (st : state) (room : value) (exceptWs : option nat)
    (w : nat) :
  w ∈ recipients st room exceptWs → is_Some (meta_of (clients st) w).
Proof.
  intros (_ & _ & m & Hin & _)%HohFacts.elem_of_recipients.
  apply meta_of_keys, list_elem_of_fmap. by exists (w, m).
Qed.

Section Config.
Variable HOH_JWT_SECRET : option jsstring.
Variable jwt_verify : jsstring → jsstring → option value.
Notation on_connection := (on_connection HOH_JWT_SECRET jwt_verify).
Notation decide_connection := (decide_connection HOH_JWT_SECRET jwt_verify).
Notation step := (step HOH_JWT_SECRET jwt_verify).
Notation run := (run HOH_JWT_SECRET jwt_verify).
Notation accepted := (accepted HOH_JWT_SECRET jwt_verify).

(** The clients map after the connection handler. *)
Lemma connection_clients (req : upgrade) (st : state) :
  match decide_connection req with
  | Reject _ => clients (on_connection req st) = clients st
  | Accept userId name =>
      ∃ f, clients (on_connection req st)
           = update_meta
               (map_set (clients st) (length (sockets st)) (Meta userId name []))
               (length (sockets st)) f
  end.
Proof.
  unfold HohWs.on_connection, HohSpec.decide_connection.
  destruct req as [|token q]; [done|].
  destruct (falsy token); [done|].
  destruct (jwt_verify _ _) as [payload|]; [|done].
  destruct (getprop payload "sub") as [sub|];
    destruct (getprop payload "user_id") as [uid|];
    destruct (getprop payload "name") as [nm|]; try done.
  by eexists.
Qed.

Lemma hoh_run_snoc (es : list event) (e : event) (st : state) :
  run (es ++ [e]) st = step e (run es st).
Proof. unfold HohWs.run. by rewrite foldl_app. Qed.

Lemma consistent_init : consistent init.
Proof.
  split; simpl.
  - by intros w [? [=]].
  - constructor.
  - by intros w s ?.
  - by intros w f ?%elem_of_nil.
Qed.

Lemma consistent_same (st st' : state) :
  clients st' = clients st → sockets st' = sockets st → sent st' = sent st →
  consistent st → consistent st'.
Proof.
  intros Hc Hs Hse [H1 H2 H3 H4]. split; rewrite ?Hc, ?Hs, ?Hse; done.
Qed.

Lemma consistent_broadcast (room message : value) (exceptWs : option nat)
    (st : state) :
  consistent st → consistent (broadcastToRoom room message exceptWs st).
Proof.
  intros [H1 H2 H3 H4]. rewrite HohFacts.hoh_broadcast_spec.
  split; simpl; try done.
  intros w f [H|(x & [= -> ->] & Hx)%list_elem_of_fmap]%elem_of_app.
  - by eapply H4.
  - by eapply recipients_registered.
Qed.

Lemma consistent_step (e : event) (st : state) :
  consistent st → consistent (step e st).
Proof.
  intros Hc. pose proof Hc as [H1 H2 H3 H4].
  unfold HohWs.step. destruct (crashed st); [done|].
  destruct e as [req|w data now|w|i outcome|method url body].
  - pose proof (HohFacts.hoh_connection_decided HOH_JWT_SECRET jwt_verify req st)
      as (_ & _ & _ & H).
    pose proof (connection_clients req st) as Hcl.
    assert (Hfresh : length (sockets st) ∉ fst <$> clients st).
    { intros (s & Hs & _)%meta_of_keys%H1. apply lookup_lt_Some in Hs. lia. }
    destruct (decide_connection req) as [code|uid nm].
    + destruct H as (Hcs & Hse & _ & Hsk). split; rewrite ?Hcs, ?Hse, ?Hsk.
      * intros w (s & Hs & Hl)%H1. exists s. split; [|done].
        by apply lookup_app_l_Some.
      * done.
      * intros w s [Hs|[Hw Hs]]%lookup_app_Some Hl; [by eapply H3|].
        destruct (w - length (sockets st)); simpl in Hs; [|done].
        injection Hs as <-. done.
      * done.
    + destruct H as (_ & _ & Hsk & Hm & Ho & Hse). destruct Hcl as [f Hcl].
      split; rewrite ?Hsk, ?Hse.
      * intros w Hw. destruct (decide (w = length (sockets st))) as [->|Hne].
        -- exists (Socket OPEN true). split; [|done].
           rewrite lookup_app_r by lia. by rewrite Nat.sub_diag.
        -- rewrite Ho in Hw by done. destruct (H1 w Hw) as (s & Hs & Hl).
           exists s. split; [|done]. by apply lookup_app_l_Some.
      * rewrite Hcl, keys_update_meta, keys_map_set by done.
        apply NoDup_app. split_and!; [done| |apply NoDup_singleton].
        intros x Hx ->%list_elem_of_singleton. done.
      * intros w s [Hs|[Hw Hs]]%lookup_app_Some Hl.
        -- rewrite Ho; [by eapply H3|]. apply lookup_lt_Some in Hs. lia.
        -- destruct (w - length (sockets st)) eqn:E; simpl in Hs; [|done].
           assert (w = length (sockets st)) as -> by lia. by rewrite Hm.
      * intros w f' [Hw|[= -> ->]%list_elem_of_singleton]%elem_of_app.
        -- destruct (decide (w = length (sockets st))) as [->|Hne];
             [by rewrite Hm|]. rewrite Ho by done. by eapply H4.
        -- by rewrite Hm.
  - destruct (sockets st !! w) as [[rs []]|] eqn:Hw; try done.
    case_bool_decide; [done|].
    destruct (on_message_keys w data now st) as [f Hk]. simpl in Hk.
    destruct (HohFacts.on_message_effects w data now st)
      as (Hsk & _).
    assert (Hmeta : ∀ x, is_Some (meta_of (clients (on_message w data now st)) x)
                         ↔ is_Some (meta_of (clients st) x)).
    { intros x. by rewrite !meta_of_keys, Hk, keys_update_meta. }
    split.
    + intros x Hx. rewrite Hsk. apply H1. by apply Hmeta.
    + by rewrite Hk, keys_update_meta.
    + intros x s. rewrite Hsk. intros Hs Hl. apply Hmeta. by eapply H3.
    + intros x f'. rewrite Hmeta.
      destruct (on_message_sent w data now st)
        as [->|[(g & ->)|(room & message & ->)]].
      * apply H4.
      * intros [Hx|[= -> ->]%list_elem_of_singleton]%elem_of_app;
          [by eapply H4|]. by eapply H3.
      * intros [Hx|(y & [= -> ->] & Hy)%list_elem_of_fmap]%elem_of_app;
          [by eapply H4|]. by eapply recipients_registered.
  - split; simpl; try done.
    + intros x (s & Hs & Hl)%H1. destruct (decide (w = x)) as [->|Hne].
      * eexists. rewrite list_lookup_alter_eq, Hs. done.
      * exists s. by rewrite list_lookup_alter_ne.
    + intros x s Hs Hl. destruct (decide (w = x)) as [->|Hne].
      * rewrite list_lookup_alter_eq in Hs.
        destruct (sockets st !! x) as [s0|] eqn:E; [|done].
        injection Hs as <-. by eapply H3.
      * rewrite list_lookup_alter_ne in Hs by done. by eapply H3.
  - destruct (fetches st !! i) as [[w body]|]; [|done].
    assert (Hc' : consistent (with_fetches (delete i) st)) by (by split).
    destruct outcome as [|[raw|saved]]; try (by destruct Hc').
    by apply consistent_broadcast.
  - unfold on_request. destruct (_ && _); [|by split].
    repeat case_match; try (by split).
    all: eapply (consistent_same (broadcastToRoom _ _ _ st));
           [done..|by apply consistent_broadcast].
Qed.

Lemma consistent_run (es : list event) (st : state) :
  consistent st → consistent (run es st).
Proof.
  revert st. induction es as [|e es IH]; intros st H; [done|].
  simpl. by apply IH, consistent_step.
Qed.

(** A client is registered by the connection handler, when it accepts,
    and by nothing else. *)
Lemma step_registered (e : event) (st : state) (w : nat) :
  is_Some (meta_of (clients (step e st)) w) →
  is_Some (meta_of (clients st) w) ∨
  (crashed st = false ∧ w = length (sockets st) ∧
   ∃ req userId name,
     e = Connection req ∧ decide_connection req = Accept userId name).
Proof.
  unfold HohWs.step. destruct (crashed st) eqn:Hcr; [by left|].
  destruct e as [req|w' data now|w'|i outcome|method url body].
  - pose proof (HohFacts.hoh_connection_decided HOH_JWT_SECRET jwt_verify req st)
      as (_ & _ & _ & H).
    destruct (decide_connection req) as [code|uid nm] eqn:Hd.
    + destruct H as (-> & _). by left.
    + destruct H as (_ & _ & _ & _ & Ho & _).
      destruct (decide (w = length (sockets st))) as [->|Hne].
      * intros _. right. split_and!; [done..|]. by exists req, uid, nm.
      * rewrite Ho by done. by left.
  - destruct (sockets st !! w') as [[rs []]|]; try by left.
    case_bool_decide; [by left|].
    destruct (on_message_keys w' data now st) as [g ->]. simpl.
    rewrite !meta_of_keys, keys_update_meta. by left.
  - by left.
  - destruct (fetches st !! i) as [[w' body]|]; [|by left].
    destruct outcome as [|[raw|saved]]; try by left.
    unfold on_settled. rewrite HohFacts.hoh_broadcast_spec. by left.
  - unfold on_request. repeat case_match; try by left.
    all: rewrite HohFacts.hoh_broadcast_spec; by left.
Qed.

Lemma hoh_accepted_snoc (es : list event) (e : event) (w : nat) :
  accepted es w → accepted (es ++ [e]) w.
Proof.
  intros (es1 & req & es2 & uid & nm & -> & H).
  exists es1, req, (es2 ++ [e]), uid, nm. split; [|done].
  by rewrite <- app_assoc.
Qed.

Lemma registered_accepted (es : list event) (w : nat) :
  is_Some (meta_of (clients (run es init)) w) → accepted es w.
Proof.
  induction es as [|e es IH] using rev_ind.
  - by intros [? [=]].
  - rewrite hoh_run_snoc.
    intros [H|(Hcr & -> & req & uid & nm & -> & Hd)]%step_registered.
    + by apply hoh_accepted_snoc, IH.
    + by exists es, req, [], uid, nm.
Qed.

(** The identity of a registered client outlives every event. *)
Lemma step_identity (e : event) (st : state) (ws : nat) (m : meta) :
  ws < length (sockets st) → meta_of (clients st) ws = Some m →
  ws < length (sockets (step e st)) ∧
  ∃ m', meta_of (clients (step e st)) ws = Some m' ∧
        userId m' = userId m ∧ name m' = name m.
Proof.
  intros Hlt Hm.
  assert (Hsame : ∀ st' : state, sockets st' = sockets st →
            clients st' = clients st →
            ws < length (sockets st') ∧
            ∃ m', meta_of (clients st') ws = Some m' ∧
                  userId m' = userId m ∧ name m' = name m).
  { intros st' -> ->. split; [done|]. by exists m. }
  unfold HohWs.step. destruct (crashed st); [by apply Hsame|].
  destruct e as [req|w data now|w|i outcome|method url body].
  - pose proof (HohFacts.hoh_connection_decided HOH_JWT_SECRET jwt_verify req st)
      as (_ & _ & _ & H).
    destruct (decide_connection req) as [code|uid nm].
    + destruct H as (Hc & _ & _ & Hs). rewrite Hc, Hs. split.
      * rewrite length_app. lia.
      * by exists m.
    + destruct H as (_ & _ & Hs & _ & Ho & _). rewrite Hs, Ho by lia. split.
      * rewrite length_app. lia.
      * by exists m.
  - destruct (sockets st !! w) as [[rs []]|]; try by apply Hsame.
    case_bool_decide; [by apply Hsame|].
    destruct (on_message_keys w data now st) as [g ->].
    destruct (HohFacts.on_message_effects w data now st) as (-> & _).
    split; [done|]. simpl. rewrite HohFacts.meta_of_update, Hm.
    case_decide; by eexists.
  - split; [simpl; by rewrite length_alter|]. by exists m.
  - destruct (fetches st !! i) as [[w body]|]; [|by apply Hsame].
    destruct outcome as [|[raw|saved]]; try by apply Hsame.
    unfold on_settled. rewrite HohFacts.hoh_broadcast_spec. by apply Hsame.
  - unfold on_request. repeat case_match; try by apply Hsame.
    all: rewrite HohFacts.hoh_broadcast_spec; by apply Hsame.
Qed.

Lemma recipients_NoDup (st : state) (room : value) (exceptWs : option nat) :
  NoDup (fst <$> clients st) → NoDup (recipients st room exceptWs).
Proof.
  unfold recipients. generalize (clients st). intros m.
  induction m as [|[k v] m IH]; simpl; [constructor|].
  intros [Hk Hm]%NoDup_cons. destruct (_ && _); [|by apply IH].
  simpl. apply NoDup_cons. split; [|by apply IH].
  intros ([k' v'] & -> & Hin%list_elem_of_In%filter_In)%list_elem_of_fmap.
  apply Hk, list_elem_of_fmap. exists (k', v'). split; [done|].
  apply list_elem_of_In. tauto.
Qed.

End Config.
End HohRuns.

(** ** server.js: the sockets over the runs *)

Module ServerTrace.
Import JS Server ServerSpec.

(** What a broadcast sends goes to open members of the room. *)
Lemma broadcast_members (room : jsstring) (data : value) (st : state) :
  let st' := broadcastToRoom room data st in
  rooms st' = rooms st ∧ sockets st' = sockets st ∧
  ∃ l, sent st' = sent st ++ l ∧
       ∀ w f, (w, f) ∈ l → w ∈ members st' room ∧ is_open st' w = true.
Proof.
  intros st'. subst st'. rewrite ServerFacts.server_broadcast_spec. simpl.
  split_and!; [done..|]. eexists. split; [done|].
  intros w f (x & [= -> ->] & Hx)%list_elem_of_fmap.
  by apply ServerFacts.elem_of_server_recipients in Hx.
Qed.

Section Config.
Variable JWT_SECRET : option jsstring.
Variable jwt_verify : jsstring → jsstring → option value.
Notation on_connection := (on_connection JWT_SECRET jwt_verify).
Notation decide_connection := (decide_connection JWT_SECRET jwt_verify).
Notation step := (step JWT_SECRET jwt_verify).
Notation run := (run JWT_SECRET jwt_verify).
Notation accepted := (accepted JWT_SECRET jwt_verify).

Lemma server_run_snoc (es : list event) (e : event) (st : state) :
  run (es ++ [e]) st = step e (run es st).
Proof. unfold Server.run. by rewrite foldl_app. Qed.

Lemma server_accepted_snoc (es : list event) (e : event) (w : nat) :
  accepted es w → accepted (es ++ [e]) w.
Proof.
  intros (es1 & req & now & es2 & user & room & -> & H).
  exists es1, req, now, (es2 ++ [e]), user, room. split; [|done].
  by rewrite <- app_assoc.
Qed.

(** Every frame of a step goes to an open member of some room of the
    state the step ends in. *)
Lemma step_sent (e : event) (st : state) :
  ∃ l, sent (step e st) = sent st ++ l ∧
       ∀ w f, (w, f) ∈ l →
         ∃ room, w ∈ members (step e st) room ∧ is_open (step e st) w = true.
Proof.
  assert (Hnil : ∀ st' : state, sent st' = sent st →
    ∃ l, sent st' = sent st ++ l ∧
         ∀ w f, (w, f) ∈ l →
           ∃ room, w ∈ members st' room ∧ is_open st' w = true).
  { intros st' ->. exists []. rewrite app_nil_r. split; [done|].
    by intros w f ?%elem_of_nil. }
  unfold Server.step. destruct (crashed st); [by apply Hnil|].
  destruct e as [req now|ws message now|ws now].
  - pose proof (ServerFacts.server_connection_decided JWT_SECRET jwt_verify
                  req now st) as (_ & H).
    destruct (decide_connection req) as [code|user room|user room].
    + destruct H as (_ & Hs & _). by apply Hnil.
    + destruct H as (_ & _ & _ & _ & Hs). eexists. split; [exact Hs|].
      intros w f (x & [= -> ->] & Hx)%list_elem_of_fmap. exists room.
      by apply ServerFacts.elem_of_server_recipients in Hx.
    + destruct H as (_ & _ & Hs & _). by apply Hnil.
  - destruct (sockets st !! ws) as [[rs r u [room|]]|]; try by apply Hnil.
    case_bool_decide; [by apply Hnil|].
    unfold on_message. destruct (getprop _ "type"); [|by apply Hnil].
    destruct (is_str _ _);
      match goal with |- context [broadcastToRoom ?r ?d ?s] =>
        destruct (broadcast_members r d s) as (_ & _ & l & Hl & Hm) end;
      exists l; split; [done| |done|]; intros w f Hw; exists room; eauto.
  - destruct (sockets st !! ws) as [[rs r u l]|]; [|by apply Hnil].
    case_bool_decide; [by apply Hnil|].
    destruct l as [room|]; [|by apply Hnil].
    unfold on_close. destruct (to_string_throws _); [by apply Hnil|].
    match goal with |- context [broadcastToRoom ?r ?d ?s] =>
      destruct (broadcast_members r d s) as (_ & _ & l & Hl & Hm) end.
    exists l. split.
    + etrans; [exact Hl|]. f_equal.
      match goal with |- context [leaveRoom ?w ?s] =>
        by destruct (ServerFacts.leaveRoom_frame w s) as (_ & -> & _) end.
    + intros w f Hw. exists room. eauto.
Qed.

(** Of a socket the connection handler has dealt with, later events
    change the [readyState] and nothing else. *)
Lemma step_socket (e : event) (st : state) (w : nat) (s : socket) :
  sockets st !! w = Some s →
  ∃ rs, sockets (step e st) !! w
        = Some (Socket rs (_room s) (_user s) (listening s)).
Proof.
  intros Hs.
  assert (Hsame : ∀ st' : state, sockets st' = sockets st →
    ∃ rs, sockets st' !! w = Some (Socket rs (_room s) (_user s) (listening s))).
  { intros st' ->. exists (readyState s). rewrite Hs. by destruct s. }
  assert (Happ : ∀ (st' : state) new, sockets st' = sockets st ++ [new] →
    ∃ rs, sockets st' !! w = Some (Socket rs (_room s) (_user s) (listening s))).
  { intros st' new ->. exists (readyState s).
    rewrite lookup_app_l by (by eapply lookup_lt_Some).
    rewrite Hs. by destruct s. }
  unfold Server.step. destruct (crashed st); [by apply Hsame|].
  destruct e as [req now|ws message now|ws now].
  - pose proof (ServerFacts.server_connection_decided JWT_SECRET jwt_verify
                  req now st) as (_ & H).
    destruct (decide_connection req) as [code|user room|user room].
    + destruct H as (_ & _ & _ & H). by eapply Happ.
    + destruct H as (_ & _ & _ & H & _). by eapply Happ.
    + destruct H as (_ & _ & _ & _ & _ & H). by eapply Happ.
  - destruct (sockets st !! ws) as [[rs r u [room|]]|]; try by apply Hsame.
    case_bool_decide; [by apply Hsame|].
    apply Hsame.
    by destruct (ServerFacts.server_message_frame ws room message now st)
      as (_ & -> & _).
  - destruct (sockets st !! ws) as [[rs r u l]|] eqn:Hws; [|by apply Hsame].
    case_bool_decide; [by apply Hsame|].
    assert (Hst1 : ∃ rs', alter (λ _, Socket CLOSED r u l) ws (sockets st) !! w
                = Some (Socket rs' (_room s) (_user s) (listening s))).
    { destruct (decide (ws = w)) as [->|Hne].
      - exists CLOSED. rewrite list_lookup_alter_eq, Hws. simpl.
        rewrite Hs in Hws. by injection Hws as ->.
      - exists (readyState s). rewrite list_lookup_alter_ne by done.
        rewrite Hs. by destruct s. }
    destruct l as [room|]; [|done].
    match goal with |- context [on_close ?w ?r ?n ?s] =>
      by destruct (ServerFacts.sockets_on_close w r n s) as (-> & _) end.
Qed.

(** A socket gets its listeners from the connection handler, when it
    accepts, and from nothing else. *)
Lemma step_listening (e : event) (st : state) (w : nat) (s' : socket)
    (room : jsstring) :
  sockets (step e st) !! w = Some s' → listening s' = Some room →
  (∃ s, sockets st !! w = Some s ∧ listening s = Some room) ∨
  (crashed st = false ∧ w = length (sockets st) ∧
   ∃ req now user,
     e = Connection req now ∧ decide_connection req = Accept user room).
Proof.
  intros Hs' Hl.
  destruct (sockets st !! w) as [s|] eqn:Hs.
  { left. exists s. split; [done|].
    destruct (step_socket e st w s Hs) as [rs Hrs].
    rewrite Hs' in Hrs. injection Hrs as ->. done. }
  right. revert Hs'. unfold Server.step.
  destruct (crashed st) eqn:Hcr; [congruence|].
  destruct e as [req now|ws message now|ws now].
  - pose proof (ServerFacts.server_connection_decided JWT_SECRET jwt_verify
                  req now st) as (_ & H).
    apply lookup_ge_None in Hs.
    destruct (decide_connection req) as [code|user room'|user room'] eqn:Hd.
    + destruct H as (_ & _ & _ & ->). rewrite lookup_app_r by done.
      destruct (w - length (sockets st)) as [|n]; simpl; [|done].
      intros [= <-]. done.
    + destruct H as (_ & _ & _ & -> & _). rewrite lookup_app_r by done.
      destruct (w - length (sockets st)) as [|n] eqn:E; simpl; [|done].
      intros [= <-]. simpl in Hl. injection Hl as ->.
      split_and!; [done|lia|]. by exists req, now, user.
    + destruct H as (_ & _ & _ & _ & _ & ->). rewrite lookup_app_r by done.
      destruct (w - length (sockets st)) as [|n]; simpl; [|done].
      intros [= <-]. done.
  - destruct (sockets st !! ws) as [[rs r u [room'|]]|]; try congruence.
    case_bool_decide; [congruence|].
    destruct (ServerFacts.server_message_frame ws room' message now st)
      as (_ & -> & _). congruence.
  - destruct (sockets st !! ws) as [[rs r u l]|] eqn:Hws; [|congruence].
    case_bool_decide; [congruence|].
    assert (Hn : alter (λ _, Socket CLOSED r u l) ws (sockets st) !! w = None).
    { apply lookup_ge_None. rewrite length_alter. by apply lookup_ge_None. }
    destruct l as [room'|]; [|simpl; congruence].
    match goal with |- context [on_close ?w ?r ?n ?s] =>
      destruct (ServerFacts.sockets_on_close w r n s) as (-> & _) end.
    simpl. congruence.
Qed.

Lemma listening_accepted (es : list event) (w : nat) (s : socket)
    (room : jsstring) :
  sockets (run es init) !! w = Some s → listening s = Some room →
  accepted es w.
Proof.
  revert s. induction es as [|e es IH] using rev_ind; intros s; [done|].
  rewrite server_run_snoc. intros Hs Hl.
  destruct (step_listening _ _ _ _ _ Hs Hl)
    as [(s0 & Hs0 & Hl0)|(Hcr & -> & req & now & user & -> & Hd)].
  - by eapply server_accepted_snoc, IH.
  - by exists es, req, now, [], user, room.
Qed.

Lemma sent_accepted (es : list event) (w : nat) (f : value) :
  (w, f) ∈ sent (run es init) → accepted es w.
Proof.
  induction es as [|e es IH] using rev_ind; [by intros ?%elem_of_nil|].
  pose proof (ServerRuns.wf_run JWT_SECRET jwt_verify (es ++ [e]) init
                ServerFacts.wf_init) as Hwf.
  revert Hwf. rewrite server_run_snoc. intros Hwf.
  destruct (step_sent e (run es init)) as (l & -> & Hl).
  intros [H|H]%elem_of_app; [by apply server_accepted_snoc, IH|].
  destruct (Hl w f H) as (room & Hm & Ho).
  destruct (wf_member _ Hwf room w Hm) as (_ & s & Hs & _ & Hli).
  unfold is_open in Ho. rewrite Hs in Ho. apply bool_decide_eq_true in Ho.
  destruct Hli as [[Hli _]|[_ Hno]]; [|done].
  apply (listening_accepted (es ++ [e]) w s room); [|done].
  by rewrite server_run_snoc.
Qed.

Lemma run_socket (es : list event) (st : state) (w : nat) (s : socket) :
  sockets st !! w = Some s →
  ∃ rs, sockets (run es st) !! w
        = Some (Socket rs (_room s) (_user s) (listening s)).
Proof.
  revert st s. induction es as [|e es IH]; intros st s Hs; simpl.
  - exists (readyState s). rewrite Hs. by destruct s.
  - destruct (step_socket e st w s Hs) as [rs Hrs].
    destruct (IH _ _ Hrs) as [rs' Hrs']. by exists rs'.
Qed.

End Config.
End ServerTrace.

(** ** The properties of the specification *)

Ltac eval_is_str :=
  repeat match goal with
    | |- context [JS.is_str (JS.str ?a) ?b] =>
        let v := eval vm_compute in (JS.is_str (JS.str a) b) in
        change (JS.is_str (JS.str a) b) with v
    | H : context [JS.is_str (JS.str ?a) ?b] |- _ =>
        let v := eval vm_compute in (JS.is_str (JS.str a) b) in
        change (JS.is_str (JS.str a) b) with v in H
    end.

(** Decidable side conditions on concrete strings. *)
Ltac by_compute :=
  match goal with
  | |- ?P => apply (@bool_decide_unpack P _); vm_compute; exact I
  end.

Module HohHandlers.
Import JS HohWs HohSpec.

Lemma update_meta_compose (m : list (nat * meta)) (ws : nat) (f g : meta → meta) :
  update_meta (update_meta m ws f) ws g = update_meta m ws (g ∘ f).
Proof.
  induction m as [|[k v] m IH]; simpl; [done|].
  destruct (Nat.eqb k ws) eqn:E; simpl; rewrite E; [done|]. by rewrite IH.
Qed.

Lemma on_message_join (ws : nat) (msg room : value) (now : float) (st : state) :
  join_frame msg room →
  on_message ws (IsJSON msg) now st
  = send ws (obj [("type", str "joined"); ("room", room)])
      (with_rooms_of ws (λ set, set_add same_value_zero set room) st).
Proof.
  intros (Ht & Hr & Htr). unfold on_message. rewrite Ht, Hr, Htr.
  by eval_is_str.
Qed.

Lemma on_message_leave (ws : nat) (msg room : value) (now : float) (st : state) :
  leave_frame msg room →
  on_message ws (IsJSON msg) now st
  = send ws (obj [("type", str "left"); ("room", room)])
      (with_rooms_of ws (λ set, set_delete same_value_zero set room) st).
Proof.
  intros (Ht & Hr & Htr). unfold on_message. rewrite Ht, Hr, Htr.
  by eval_is_str.
Qed.

Lemma on_message_message (ws : nat) (msg room : value) (text : jsstring)
    (now : float) (st : state) (m : meta) :
  message_frame msg room text → meta_of (clients st) ws = Some m →
  on_message ws (IsJSON msg) now st
  = if bool_decide (trim text = []) then st
    else broadcastToRoom room (relayed_message room text m now) (Some ws) st.
Proof.
  intros (Ht & Hr & Htr & Htx) Hm. unfold on_message.
  rewrite Ht, Hr, Htr, Htx, Hm. eval_is_str. cbn [andb from_option fmap option_fmap option_map id].
  cbv iota. simpl truthy.
  destruct text as [|c text]; [done|].
  by rewrite bool_decide_eq_false_2 by done.
Qed.

Lemma recipients_with_rooms_of (ws : nat) (g : list value → list value)
    (room : value) (st : state) :
  recipients (with_rooms_of ws g st) room (Some ws)
  = recipients st room (Some ws).
Proof.
  unfold recipients, with_rooms_of, is_open. simpl.
  generalize (clients st). intros m.
  induction m as [|[k v] m IH]; simpl; [done|].
  destruct (Nat.eqb_spec k ws) as [->|Hne]; simpl.
  - rewrite bool_decide_eq_true_2 by done. by rewrite !andb_false_r.
  - rewrite bool_decide_eq_false_2 by congruence.
    destruct (_ && _); simpl; [f_equal|]; exact IH.
Qed.

Lemma identity_with_rooms_of (ws w : nat) (g : list value → list value)
    (st : state) :
  userId <$> meta_of (clients (with_rooms_of ws g st)) w
  = userId <$> meta_of (clients st) w ∧
  name <$> meta_of (clients (with_rooms_of ws g st)) w
  = name <$> meta_of (clients st) w.
Proof.
  simpl. rewrite HohFacts.meta_of_update.
  case_decide; by destruct (meta_of (clients st) w).
Qed.

End HohHandlers.

Module RegistryFacts.
Import JS Server ServerSpec.

Lemma room_joinRoom (ws : nat) (room : jsstring) (st : state) :
  ws < length (sockets st) →
  sockets (joinRoom ws room st) !! ws ≫= _room = Some room.
Proof.
  intros Hlt. rewrite ServerFacts.sockets_joinRoom.
  destruct (lookup_lt_is_Some_2 _ _ Hlt) as [s Hs].
  by rewrite list_lookup_alter_eq, Hs.
Qed.

(** [leaveRoom] touches no room but the [_room] of the socket. *)
Lemma members_leaveRoom_other (ws : nat) (r : jsstring) (st : state) :
  sockets st !! ws ≫= _room ≠ Some r →
  members (leaveRoom ws st) r = members st r.
Proof.
  intros Hr. unfold leaveRoom.
  destruct (sockets st !! ws ≫= _room) as [room|]; [|done].
  case_bool_decide; [done|].
  destruct (rooms st !! room) as [set|]; [|done].
  assert (room ≠ r) by congruence.
  case_bool_decide; unfold members; simpl.
  - by rewrite lookup_delete_ne.
  - by rewrite lookup_insert_ne.
Qed.

End RegistryFacts.

Section Properties.
Import JS.

(** *** Broadcast recipients *)

Lemma server_sender_included (JWT_SECRET : option jsstring)
    (jwt_verify : jsstring → jsstring → option value)
    (ws : nat) (s : Server.socket) (room : jsstring) (message : inbound)
    (now : float) (st : Server.state) :
  ServerSpec.wf st → ServerSpec.session st ws s room →
  Server.readyState s = OPEN →
  (∀ v, message = IsJSON v → is_Some (getprop v "type")) →
  ws ∈ ServerSpec.recipients st room ∧
  ∃ f, Server.sent (Server.step JWT_SECRET jwt_verify
                      (Server.Message ws message now) st)
       = Server.sent st ++ ((λ w, (w, f)) <$> ServerSpec.recipients st room).
Proof.
  intros Hwf (Hcr & Hs & Hli & Hrs) Hopen Hty. split.
  - apply ServerFacts.elem_of_server_recipients. split.
    + by eapply ServerSpec.wf_listening.
    + unfold Server.is_open. rewrite Hs. by apply bool_decide_eq_true.
  - unfold Server.step. rewrite Hcr, Hs. destruct s as [rs r u l].
    simpl in *. subst l. rewrite bool_decide_eq_false_2 by done.
    unfold Server.on_message.
    set (data := match message with IsJSON v => v | NotJSON raw => _ end).
    assert (Hd : is_Some (getprop data "type")).
    { subst data. destruct message as [raw|v]; [by eexists|]. by apply Hty. }
    destruct Hd as [ty ->].
    destruct (is_str ty "typing"); rewrite ServerFacts.server_broadcast_spec;
      by eexists.
Qed.

(** C1.  A broadcast of [hoh-ws-server.js] sends its frame to exactly
    the clients that are open, have the room in their rooms and are not
    [exceptWs]; the only frames a message handler sends to its own
    connection are the [joined] and [left] replies, and the broadcast
    of a saved body-chat message skips the connection that wrote it.
    [broadcastToRoom] of [server.js] takes no session to leave out: it
    sends to exactly the open members of the room, and the open
    session whose frame is handled is among the recipients of the
    [typing] or [message] broadcast of its own frame. *)
Theorem broadcast_recipients :
  (∀ room message exceptWs st,
     HohWs.broadcastToRoom room message exceptWs st
     = HohWs.State (HohWs.clients st) (HohWs.sockets st)
         (HohWs.sent st
            ++ ((λ w, (w, message)) <$> HohSpec.recipients st room exceptWs))
         (HohWs.closes st) (HohWs.errors st) (HohWs.fetches st)
         (HohWs.responses st) (HohWs.crashed st) ∧
     ∀ w, w ∈ HohSpec.recipients st room exceptWs ↔
          HohWs.is_open st w = true ∧ exceptWs ≠ Some w ∧
          ∃ m, (w, m) ∈ HohWs.clients st ∧ HohWs.in_room m room = true) ∧
  (∀ ws data now st,
     ∃ l, HohWs.sent (HohWs.on_message ws data now st) = HohWs.sent st ++ l ∧
          ∀ f, (ws, f) ∈ l → HohSpec.is_reply f = true) ∧
  (∀ ws saved st,
     ∃ l, HohWs.sent (HohWs.on_settled ws (HohWs.Responded (IsJSON saved)) st)
          = HohWs.sent st ++ l ∧ HohSpec.silent_for ws l) ∧
  (∀ room data st,
     Server.broadcastToRoom room data st
     = Server.State (Server.rooms st) (Server.sockets st)
         (Server.sent st ++ ((λ w, (w, data)) <$> ServerSpec.recipients st room))
         (Server.closes st) (Server.console st) (Server.crashed st) ∧
     ∀ w, w ∈ ServerSpec.recipients st room ↔
          w ∈ Server.members st room ∧ Server.is_open st w = true) ∧
  (∀ JWT_SECRET jwt_verify es ws s room message now,
     let st := Server.run JWT_SECRET jwt_verify es Server.init in
     ServerSpec.session st ws s room → Server.readyState s = OPEN →
     (∀ v, message = IsJSON v → is_Some (getprop v "type")) →
     ws ∈ ServerSpec.recipients st room ∧
     ∃ f, Server.sent (Server.step JWT_SECRET jwt_verify
                         (Server.Message ws message now) st)
          = Server.sent st ++ ((λ w, (w, f)) <$> ServerSpec.recipients st room)).
Proof.
  split_and!.
  - intros room message exceptWs st. split.
    + apply HohFacts.hoh_broadcast_spec.
    + apply HohFacts.elem_of_recipients.
  - intros ws data now st.
    destruct (HohFacts.on_message_effects ws data now st)
      as (_ & _ & _ & _ & l & Hl & Hl').
    exists l. split; [done|]. intros f Hf.
    destruct (Hl' ws f Hf) as [[_ ?]|[? _]]; done.
  - intros ws saved st. unfold HohWs.on_settled.
    rewrite HohFacts.hoh_broadcast_spec. eexists. split; [done|].
    intros f (w & [= <- ->] & Hw)%list_elem_of_fmap.
    apply HohFacts.elem_of_recipients in Hw as (_ & Hne & _). done.
  - intros room data st. split.
    + apply ServerFacts.server_broadcast_spec.
    + apply ServerFacts.elem_of_server_recipients.
  - intros k v es ws s room message now st Hse Hopen Hty.
    apply (server_sender_included k v ws s); try done.
    apply ServerRuns.wf_run, ServerFacts.wf_init.
Qed.

(** On [server.js] a sender does receive its own broadcast: with alice
    and bob in the lobby, alice's [typing] frame is sent to alice and
    to bob. *)
Lemma server_typing_echo :
  Server.sent
    (Server.step Examples.secret Examples.verify
       (Server.Message 0 (IsJSON (obj [("type", str "typing")])) 3)
       Examples.server_lobby)
  = Server.sent Examples.server_lobby
    ++ [(0, Examples.typing_frame); (1, Examples.typing_frame)].
Proof. vm_compute. reflexivity. Qed.

(** *** Closing a connection *)






(** *** Malformed frames *)

Lemma hoh_on_message_incomplete (ws : nat) (msg : value) (now : float)
    (st : HohWs.state) :
  HohSpec.lacks_required_field msg = true →
  HohWs.on_message ws (IsJSON msg) now st = st.
Proof.
  unfold HohSpec.lacks_required_field, HohSpec.missing, field,
    HohWs.on_message.
  destruct msg as [| |b|x|s|items|ps|fn]; try done.
  cbn [getprop default from_option].
  generalize (own_prop (u16 "type") ps) (own_prop (u16 "room") ps)
    (own_prop (u16 "text") ps) (own_prop (u16 "payload") ps).
  intros type room text payload.
  unfold id. intros H.
  destruct (is_str type "join") eqn:Ej.
  { apply is_str_true in Ej. subst type. eval_is_str. simpl in H |- *.
    by destruct (truthy room). }
  destruct (is_str type "leave") eqn:El.
  { apply is_str_true in El. subst type. eval_is_str. simpl in H |- *.
    by destruct (truthy room). }
  simpl in H.
  destruct (is_str type "message") eqn:Em.
  { apply is_str_true in Em. subst type. eval_is_str. simpl in H |- *.
    destruct (truthy room); simpl in H |- *; [|done].
    destruct text as [| |b|x|t|items|qs|fn]; simpl in H |- *; try done.
    - by destruct b.
    - by destruct (_ || _)%bool.
    - by rewrite H. }
  destruct (is_str type "event") eqn:Ee; [|done].
  apply is_str_true in Ee. subst type. eval_is_str. simpl in H |- *.
  destruct (truthy room); simpl in H |- *; [|done].
  destruct (truthy payload); simpl in H |- *; [|done].
  by destruct (truthy _).
Qed.

(** C3.  [hoh-ws-server.js] drops a frame that is not JSON: the state
    is the one before, so nothing is sent and no connection is closed;
    and it drops a [join], [leave], [message] or [event] frame without
    a field its type requires (absent, or falsy) in the same way.
    [server.js] does not drop a frame that is not JSON: it broadcasts
    it to the room of the connection as a [message] whose text is the
    frame. *)
Theorem malformed_frames :
  (∀ ws raw now st, HohWs.on_message ws (NotJSON raw) now st = st) ∧
  (∀ HOH_JWT_SECRET jwt_verify ws raw now st,
     HohWs.step HOH_JWT_SECRET jwt_verify (HohWs.Message ws (NotJSON raw) now) st
     = st) ∧
  (∀ ws msg now st,
     HohSpec.lacks_required_field msg = true →
     HohWs.on_message ws (IsJSON msg) now st = st) ∧
  (∀ ws room raw now st,
     Server.on_message ws room (NotJSON raw) now st
     = Server.broadcastToRoom room
         (obj [("type", str "message"); ("user", Server.user_of st ws);
               ("room", VStr room); ("text", VStr raw);
               ("timestamp", VNum now)]) st).
Proof.
  split_and!.
  - done.
  - intros k v ws raw now st. unfold HohWs.step.
    destruct (HohWs.crashed st); [done|].
    destruct (HohWs.sockets st !! ws) as [[rs []]|]; try done.
    by case_bool_decide.
  - apply hoh_on_message_incomplete.
  - intros ws room raw now st. unfold Server.on_message.
    cbn [getprop obj fmap list_fmap prod_map fst snd own_prop].
    change (own_prop (u16 "type") _) with (str "message").
    eval_is_str. cbv iota.
    change (default VUndef (Some (own_prop (u16 "text") _))) with (VStr raw).
    by destruct raw.
Qed.

(** On [server.js] a frame that is not JSON is not discarded: alice's
    [hello] goes to the lobby as a message. *)
Lemma server_forwards_non_json :
  Server.sent
    (Server.step Examples.secret Examples.verify
       (Server.Message 0 (NotJSON (u16 "hello")) 3) Examples.server_lobby)
  = Server.sent Examples.server_lobby
    ++ [(0, obj [("type", str "message"); ("user", Examples.alice_user);
                 ("room", str "lobby"); ("text", str "hello");
                 ("timestamp", VNum 3)]);
        (1, obj [("type", str "message"); ("user", Examples.alice_user);
                 ("room", str "lobby"); ("text", str "hello");
                 ("timestamp", VNum 3)])].
Proof. vm_compute. reflexivity. Qed.

(** A [join] without a room changes nothing. *)
Lemma malformed_frames_witness :
  HohSpec.lacks_required_field (obj [("type", str "join")]) = true ∧
  HohWs.on_message 0 (IsJSON (obj [("type", str "join")])) 4 Examples.hoh_lobby
  = Examples.hoh_lobby.
Proof.
  split; [reflexivity|].
  apply (proj1 (proj2 (proj2 malformed_frames))). reflexivity.
Defined.

(** *** Authentication *)

(** C4.  [server.js] closes a connection without a token or without a
    configured secret with the one code 4001, and a connection whose
    token fails verification with 4002; [hoh-ws-server.js] closes a
    connection without a token with 4001 and one whose token fails
    verification with 4002; each time nothing else is done.
    [hoh-ws-server.js] has no failure for a missing secret: it then
    verifies against [change-me-in-production]. *)
Theorem authentication_failures :
  (∀ JWT_SECRET jwt_verify token room_param now st,
     let st' := Server.on_connection JWT_SECRET jwt_verify
                  (Server.Query token room_param) now st in
     (Server.falsy token || Server.falsy JWT_SECRET = true →
      ServerSpec.rejected st st' 4001) ∧
     (Server.falsy token || Server.falsy JWT_SECRET = false →
      jwt_verify (default [] token) (default [] JWT_SECRET) = None →
      ServerSpec.rejected st st' 4002)) ∧
  (∀ HOH_JWT_SECRET jwt_verify token rooms_param st,
     let st' := HohWs.on_connection HOH_JWT_SECRET jwt_verify
                  (HohWs.Query token rooms_param) st in
     (HohWs.falsy token = true → HohSpec.rejected st st' (Some 4001%N)) ∧
     (HohWs.falsy token = false →
      jwt_verify (default [] token) (HohWs.JWT_SECRET HOH_JWT_SECRET) = None →
      HohSpec.rejected st st' (Some 4002%N))) ∧
  (∀ HOH_JWT_SECRET,
     HohWs.falsy HOH_JWT_SECRET = true →
     HohWs.JWT_SECRET HOH_JWT_SECRET = u16 "change-me-in-production").
Proof.
  split_and!.
  - intros k v token q now st st'. subst st'.
    destruct (ServerFacts.server_connection_decided k v
                (Server.Query token q) now st) as [_ H].
    unfold ServerSpec.decide_connection in H. split.
    + intros Hf. by rewrite Hf in H.
    + intros Hf Hv. by rewrite Hf, Hv in H.
  - intros k v token q st st'. subst st'.
    destruct (HohFacts.hoh_connection_decided k v (HohWs.Query token q) st)
      as (_ & _ & _ & H).
    unfold HohSpec.decide_connection in H. split.
    + intros Hf. by rewrite Hf in H.
    + intros Hf Hv. by rewrite Hf, Hv in H.
  - intros k Hk. unfold HohWs.JWT_SECRET. by rewrite Hk.
Qed.

(** The failure kinds do not each have a code of their own, and a
    missing secret does not always refuse: [server.js] answers a
    missing token and a missing secret with the same 4001, and
    [hoh-ws-server.js] without a configured secret accepts a token
    signed with its built-in one. *)
Lemma one_code_for_two_failures :
  Server.closes
    (Server.on_connection Examples.secret Examples.verify
       (Server.Query None Examples.lobby) 1 Server.init) = [(0, 4001%N)] ∧
  Server.closes
    (Server.on_connection None Examples.verify
       (Server.Query Examples.alice Examples.lobby) 1 Server.init)
  = [(0, 4001%N)] ∧
  HohWs.closes
    (HohWs.on_connection None Examples.verify
       (HohWs.Query (Some (u16 "mallory")) None) HohWs.init) = [] ∧
  HohWs.sent
    (HohWs.on_connection None Examples.verify
       (HohWs.Query (Some (u16 "mallory")) None) HohWs.init)
  = [(0, HohSpec.connected_frame (str "u3") (str "Mallory") [])].
Proof. vm_compute. repeat split. Qed.

(** An unknown token is turned down with 4002 by [server.js], a
    missing one with 4001 by [hoh-ws-server.js]. *)
Lemma authentication_failures_witness :
  ServerSpec.rejected Examples.server_lobby
    (Server.on_connection Examples.secret Examples.verify
       (Server.Query (Some (u16 "eve")) None) 9 Examples.server_lobby) 4002 ∧
  HohSpec.rejected Examples.hoh_lobby
    (HohWs.on_connection Examples.secret Examples.verify
       (HohWs.Query None Examples.lobby) Examples.hoh_lobby) (Some 4001%N).
Proof.
  split.
  - apply (proj1 authentication_failures Examples.secret Examples.verify);
      reflexivity.
  - apply (proj1 (proj2 authentication_failures) Examples.secret Examples.verify).
    reflexivity.
Defined.

(** C5.  On a successful authentication [hoh-ws-server.js] seeds the
    rooms of the session with the entries of the comma-separated
    [rooms] parameter, each trimmed, the empty ones left out, none
    twice, and sends that client exactly one frame, [connected], with
    the resolved [userId], [name] and those rooms.  [server.js] instead
    joins the one room the [room] parameter names (or [team_chat]) and,
    its join log written (the name of the user converts to a string),
    sends the open members of that room a [presence] [join]
    notification. *)
Theorem connection_seeds_rooms :
  (∀ HOH_JWT_SECRET jwt_verify token q payload st,
     HohWs.falsy token = false →
     jwt_verify (default [] token) (HohWs.JWT_SECRET HOH_JWT_SECRET)
       = Some payload →
     is_Some (getprop payload "sub") →
     let ws := length (HohWs.sockets st) in
     let st' := HohWs.on_connection HOH_JWT_SECRET jwt_verify
                  (HohWs.Query token q) st in
     let userId := js_or (field payload "sub")
                     (field payload "user_id") in
     let name := js_or (field payload "name") (str "Guest") in
     NoDup (HohWs.rooms_of st' ws) ∧
     (∀ r, r ∈ HohWs.rooms_of st' ws ↔
           ∃ s e, q = Some s ∧ e ∈ split 44 s ∧ trim e ≠ [] ∧ r = VStr (trim e)) ∧
     HohWs.sent st'
     = HohWs.sent st
       ++ [(ws, HohSpec.connected_frame userId name (HohWs.rooms_of st' ws))]) ∧
  (∀ JWT_SECRET jwt_verify token room_param payload now st,
     Server.falsy token || Server.falsy JWT_SECRET = false →
     jwt_verify (default [] token) (default [] JWT_SECRET) = Some payload →
     is_Some (getprop payload "sub") →
     to_string_throws (field payload "name") = false →
     let ws := length (Server.sockets st) in
     let st' := Server.on_connection JWT_SECRET jwt_verify
                  (Server.Query token room_param) now st in
     let user := obj [("id", field payload "sub");
                      ("name", field payload "name");
                      ("email", field payload "email")] in
     let room := if Server.falsy room_param then u16 "team_chat"
                 else default [] room_param in
     Server.members st' room = set_add Nat.eqb (Server.members st room) ws ∧
     (∀ r, r ≠ room → Server.members st' r = Server.members st r) ∧
     Server.sent st'
     = Server.sent st
       ++ ((λ w, (w, Server.presence "join" user room now))
             <$> ServerSpec.recipients st' room)).
Proof.
  split.
  - intros k v token q payload st Hf Hv [sub Hsub] ws st' userId name.
    destruct (HohFacts.hoh_connection_decided k v (HohWs.Query token q) st)
      as (_ & _ & _ & H).
    unfold HohSpec.decide_connection in H. rewrite Hf, Hv in H.
    assert (Hp : getprop payload "user_id" = Some (field payload "user_id")
                 ∧ getprop payload "name" = Some (field payload "name")
                 ∧ sub = field payload "sub").
    { unfold field. destruct payload; simpl in *; try done;
        by injection Hsub as <-. }
    destruct Hp as (Hu & Hn & ->). rewrite Hsub, Hu, Hn in H.
    destruct H as (_ & _ & _ & Hm & _ & Hs). fold ws st' in Hm, Hs.
    assert (Hr : HohWs.rooms_of st' ws = HohWs.add_initial_rooms q []).
    { unfold HohWs.rooms_of. by rewrite Hm. }
    rewrite Hr. split_and!.
    + apply HohFacts.add_initial_rooms_NoDup. constructor.
    + intros r. destruct q as [s|].
      * rewrite HohFacts.add_initial_rooms_spec. split.
        -- intros [?%elem_of_nil|(e & ? & ? & ?)]; [done|]. by exists s, e.
        -- intros (s' & e & [= <-] & ? & ? & ?). right. by exists e.
      * simpl. split; [by intros ?%elem_of_nil|]. by intros (s & e & ? & _).
    + exact Hs.
  - intros k v token q payload now st Hf Hv [sub Hsub] Hname ws st' user room.
    destruct (ServerFacts.server_connection_decided k v
                (Server.Query token q) now st) as [_ H].
    unfold ServerSpec.decide_connection in H. rewrite Hf, Hv in H.
    assert (Hp : getprop payload "name" = Some (field payload "name")
                 ∧ getprop payload "email" = Some (field payload "email")
                 ∧ sub = field payload "sub").
    { unfold field. destruct payload; simpl in *; try done;
        by injection Hsub as <-. }
    destruct Hp as (Hn & He & ->). rewrite Hsub, Hn, He, Hname in H.
    destruct H as (_ & _ & Hr & _ & Hs). fold ws st' user room in Hr, Hs.
    split_and!.
    + unfold Server.members at 1. by rewrite Hr, lookup_insert_eq.
    + intros r Hne. unfold Server.members. by rewrite Hr, lookup_insert_ne.
    + exact Hs.
Qed.

(** [server.js] neither splits a room list nor sends [connected]: the
    room parameter is one room name, comma and all, and the only frame
    after a successful authentication is the presence notification. *)
Lemma server_sends_no_connected :
  Server.sent
    (Server.on_connection Examples.secret Examples.verify
       (Server.Query Examples.alice (Some (u16 "lobby, foyer"))) 1 Server.init)
  = [(0, Server.presence "join" Examples.alice_user (u16 "lobby, foyer") 1)] ∧
  Server.members
    (Server.on_connection Examples.secret Examples.verify
       (Server.Query Examples.alice (Some (u16 "lobby, foyer"))) 1 Server.init)
    (u16 "lobby, foyer") = [0] ∧
  Server.members
    (Server.on_connection Examples.secret Examples.verify
       (Server.Query Examples.alice (Some (u16 "lobby, foyer"))) 1 Server.init)
    (u16 "lobby") = [].
Proof. vm_compute. repeat split. Qed.

(** A list with a padded entry, an empty entry and a repetition seeds
    two rooms, and the one frame is [connected]. *)
Lemma connection_seeds_rooms_witness :
  HohWs.rooms_of
    (HohWs.on_connection Examples.secret Examples.verify
       (HohWs.Query Examples.alice (Some (u16 " lobby, ,foyer,lobby")))
       HohWs.init) 0
  = [str "lobby"; str "foyer"] ∧
  HohWs.sent
    (HohWs.on_connection Examples.secret Examples.verify
       (HohWs.Query Examples.alice (Some (u16 " lobby, ,foyer,lobby")))
       HohWs.init)
  = [(0, HohSpec.connected_frame (str "u1") (str "Alice")
           [str "lobby"; str "foyer"])] ∧
  Server.sent
    (Server.on_connection Examples.secret Examples.verify
       (Server.Query Examples.bob Examples.lobby) 2
       (Server.on_connection Examples.secret Examples.verify
          (Server.Query Examples.alice Examples.lobby) 1 Server.init))
  = [(0, Server.presence "join" Examples.alice_user (u16 "lobby") 1);
     (0, Server.presence "join"
           (obj [("id", str "u2"); ("name", str "Bob"); ("email", VUndef)])
           (u16 "lobby") 2);
     (1, Server.presence "join"
           (obj [("id", str "u2"); ("name", str "Bob"); ("email", VUndef)])
           (u16 "lobby") 2)].
Proof.
  split; [by vm_compute|]. split.
  - refine (proj2 (proj2 (proj1 connection_seeds_rooms Examples.secret
      Examples.verify Examples.alice (Some (u16 " lobby, ,foyer,lobby"))
      (obj [("sub", str "u1"); ("name", str "Alice")]) HohWs.init
      eq_refl eq_refl _))).
    by eexists.
  - etrans; [exact (proj2 (proj2 (proj2 connection_seeds_rooms Examples.secret
      Examples.verify Examples.bob Examples.lobby
      (obj [("sub", str "u2"); ("name", str "Bob")]) 2%float
      (Server.on_connection Examples.secret Examples.verify
         (Server.Query Examples.alice Examples.lobby) 1 Server.init)
      eq_refl eq_refl (ex_intro _ _ eq_refl) eq_refl)))|].
    by vm_compute.
Defined.

(** *** The [/emit] ingress *)

Lemma emit_cases (body : inbound) (st : HohWs.state) :
  HohWs.on_request (u16 "POST") (u16 "/emit") body st
  = if HohSpec.bad_emit body
    then HohWs.respond 400
           (match HohSpec.parse_body body with
            | Some v => if bool_decide (getprop v "room" = None)
                        then "Invalid JSON" else "Missing room or event"
            | None => "Invalid JSON"
            end) st
    else HohWs.respond 200 "OK"
           (HohWs.broadcastToRoom
              (field (default VUndef (HohSpec.parse_body body)) "room")
              (HohSpec.emit_frame (default VUndef (HohSpec.parse_body body)))
              None st).
Proof.
  unfold HohWs.on_request, HohSpec.bad_emit, HohSpec.missing, field,
    HohSpec.emit_frame, field.
  change (bool_decide (u16 "POST" = u16 "POST")) with true.
  change (bool_decide (u16 "/emit" = u16 "/emit")) with true.
  cbv iota. simpl andb. cbv iota.
  fold (HohSpec.parse_body body).
  destruct (HohSpec.parse_body body) as [v|]; [|done].
  by destruct v as [| |b|x|s|items|ps|fn].
Qed.

(** C6.  A [POST /emit] request is answered once, with 400 or 200.  It
    is answered 400, with the reason [Invalid JSON] or [Missing room or
    event] and nothing sent, exactly when the body does not parse or
    has no [room] or no [event] (absent, or falsy as [!room] tests
    it).  Otherwise it is answered 200 after one broadcast of [{type:
    'event', room, event, data, from: {system: true}}] ([data] being
    [{}] when the body has none) to every open client that has the room
    in its rooms, none left out; when no client has the room, nothing
    is sent.  The clients and sockets stay as they are. *)
Theorem emit_request (body : inbound) (st : HohWs.state) :
  let st' := HohWs.on_request (u16 "POST") (u16 "/emit") body st in
  HohWs.clients st' = HohWs.clients st ∧ HohWs.sockets st' = HohWs.sockets st ∧
  (∃ code reason, HohWs.responses st' = HohWs.responses st ++ [(code, reason)] ∧
     (code = 400%N ∨ code = 200%N) ∧
     (code = 400%N ↔
        HohSpec.parse_body body = None ∨
        (∃ v, HohSpec.parse_body body = Some v ∧
              (HohSpec.missing v "room" = true ∨ HohSpec.missing v "event" = true))) ∧
     (code = 400%N →
        (reason = "Invalid JSON" ∨ reason = "Missing room or event") ∧
        HohWs.sent st' = HohWs.sent st) ∧
     (code = 200%N →
        ∃ v, HohSpec.parse_body body = Some v ∧
             HohWs.sent st'
             = HohWs.sent st
               ++ ((λ w, (w, HohSpec.emit_frame v))
                     <$> HohSpec.recipients st (field v "room") None) ∧
             (∀ w, w ∈ HohSpec.recipients st (field v "room") None ↔
                   HohWs.is_open st w = true ∧
                   ∃ m, (w, m) ∈ HohWs.clients st ∧
                        HohWs.in_room m (field v "room") = true) ∧
             ((∀ w m, (w, m) ∈ HohWs.clients st →
                      HohWs.in_room m (field v "room") = false) →
              HohWs.sent st' = HohWs.sent st))).
Proof.
  intros st'. subst st'. rewrite emit_cases.
  unfold HohSpec.bad_emit.
  destruct (HohSpec.parse_body body) as [v|] eqn:Hp.
  2:{ split; [done|]. split; [done|]. exists 400%N, "Invalid JSON".
      split; [done|]. split; [by left|]. split; [split; [by left|done]|].
      split; [|done]. intros _. split; [by left|done]. }
  destruct (HohSpec.missing v "room" || HohSpec.missing v "event") eqn:Hm.
  - split; [done|]. split; [done|]. eexists 400%N, _.
    split; [done|]. split; [by left|]. split; [|split; [|done]].
    + split; [|done]. intros _. right. exists v. split; [done|].
      by apply orb_true_iff.
    + intros _. split; [|done]. case_bool_decide; auto.
  - rewrite HohFacts.hoh_broadcast_spec.
    split; [done|]. split; [done|]. exists 200%N, "OK".
    split; [done|]. split; [by right|]. split; [|split; [done|]].
    + split; [done|]. intros [?|(v' & [= <-] & Hv)]; [done|].
      apply orb_false_iff in Hm as [? ?]. destruct Hv; congruence.
    + intros _. exists v. simpl default. split; [done|]. split; [done|]. split.
      * intros w. rewrite HohFacts.elem_of_recipients. naive_solver.
      * intros Hnone. cbn -[HohSpec.recipients].
        assert (Hr : HohSpec.recipients st (field v "room") None = []).
        { apply elem_of_nil_inv. intros w Hw.
          apply HohFacts.elem_of_recipients in Hw as (_ & _ & m & Hin & Hr).
          specialize (Hnone w m Hin). congruence. }
        by rewrite Hr, app_nil_r.
Qed.

(** The scenario of the specification: with alice and bob in the
    lobby an announcement reaches both, and the same request for a room
    nobody is in is answered 200 with nothing sent. *)
Lemma emit_request_witness :
  HohWs.clients
    (HohWs.on_request (u16 "POST") (u16 "/emit")
       (IsJSON (obj [("room", str "lobby"); ("event", str "announcement");
                     ("data", obj [("text", str "hi")])]))
       Examples.hoh_lobby)
  = HohWs.clients Examples.hoh_lobby ∧
  HohWs.sent
    (HohWs.on_request (u16 "POST") (u16 "/emit")
       (IsJSON (obj [("room", str "lobby"); ("event", str "announcement");
                     ("data", obj [("text", str "hi")])]))
       Examples.hoh_lobby)
  = HohWs.sent Examples.hoh_lobby
    ++ [(0, obj [("type", str "event"); ("room", str "lobby");
                 ("event", str "announcement");
                 ("data", obj [("text", str "hi")]);
                 ("from", obj [("system", VBool true)])]);
        (1, obj [("type", str "event"); ("room", str "lobby");
                 ("event", str "announcement");
                 ("data", obj [("text", str "hi")]);
                 ("from", obj [("system", VBool true)])])] ∧
  HohWs.responses
    (HohWs.on_request (u16 "POST") (u16 "/emit")
       (IsJSON (obj [("room", str "attic"); ("event", str "announcement")]))
       Examples.hoh_lobby) = [(200%N, "OK")] ∧
  HohWs.sent
    (HohWs.on_request (u16 "POST") (u16 "/emit")
       (IsJSON (obj [("room", str "attic"); ("event", str "announcement")]))
       Examples.hoh_lobby)
  = HohWs.sent Examples.hoh_lobby.
Proof.
  split.
  - exact (proj1 (emit_request _ Examples.hoh_lobby)).
  - by vm_compute.
Defined.

(** *** The registry invariant *)

Lemma apply_ops_pruned (st : Server.state) (ops : list ServerSpec.registry_op) :
  ServerSpec.pruned st → ServerSpec.pruned (foldl ServerSpec.apply_op st ops).
Proof.
  revert st. induction ops as [|[ws room|ws] ops IH]; intros st H; simpl.
  - done.
  - by apply IH, ServerFacts.joinRoom_pruned.
  - by apply IH, ServerFacts.leaveRoom_pruned.
Qed.

Lemma joinRoom_creates (st : Server.state) (ws : nat) (room : jsstring) :
  Server.rooms st !! room = None →
  Server.rooms (Server.joinRoom ws room st) !! room = Some [ws].
Proof.
  intros H. rewrite ServerFacts.rooms_joinRoom, lookup_insert_eq.
  unfold Server.members. by rewrite H.
Qed.

Lemma leaveRoom_deletes (st : Server.state) (ws : nat) (room : jsstring)
    (set : list nat) :
  Server.sockets st !! ws ≫= Server._room = Some room → room ≠ [] →
  Server.rooms st !! room = Some set → set_delete Nat.eqb set ws = [] →
  Server.rooms (Server.leaveRoom ws st) !! room = None.
Proof.
  intros Hroom Hne Hset Hnil. unfold Server.leaveRoom.
  rewrite Hroom, bool_decide_eq_false_2, Hset, Hnil by done.
  simpl. apply lookup_delete_eq.
Qed.

(** C7.  A room is a key of [rooms] exactly when it has a member: in
    every state [server.js] reaches, and after any further calls of
    [joinRoom] and [leaveRoom] from a state where it holds.  [joinRoom]
    creates the entry of an absent room, and [leaveRoom] deletes the
    entry of the room whose last member leaves. *)
Theorem room_entry_iff_members :
  (∀ JWT_SECRET jwt_verify es,
     ServerSpec.pruned (Server.run JWT_SECRET jwt_verify es Server.init)) ∧
  (∀ st ops, ServerSpec.pruned st →
             ServerSpec.pruned (foldl ServerSpec.apply_op st ops)) ∧
  (∀ st ws room, Server.rooms st !! room = None →
                 Server.rooms (Server.joinRoom ws room st) !! room = Some [ws]) ∧
  (∀ st ws room set,
     Server.sockets st !! ws ≫= Server._room = Some room → room ≠ [] →
     Server.rooms st !! room = Some set → set_delete Nat.eqb set ws = [] →
     Server.rooms (Server.leaveRoom ws st) !! room = None).
Proof.
  split_and!.
  - intros k v es.
    apply ServerSpec.wf_pruned, ServerRuns.wf_run, ServerFacts.wf_init.
  - apply apply_ops_pruned.
  - apply joinRoom_creates.
  - apply leaveRoom_deletes.
Qed.

(** With alice and bob in the lobby the invariant holds, it holds after
    more registry calls, and the lobby is gone once both have left. *)
Lemma room_entry_iff_members_witness :
  ServerSpec.pruned Examples.server_lobby ∧
  ServerSpec.pruned
    (foldl ServerSpec.apply_op Examples.server_lobby
       [ServerSpec.Leave 0; ServerSpec.Join 0 (u16 "foyer"); ServerSpec.Leave 1]) ∧
  Server.rooms (Server.leaveRoom 1 (Server.leaveRoom 0 Examples.server_lobby))
    !! u16 "lobby" = None.
Proof.
  pose proof (proj1 room_entry_iff_members Examples.secret Examples.verify
    [Server.Connection (Server.Query Examples.alice Examples.lobby) 1;
     Server.Connection (Server.Query Examples.bob Examples.lobby) 2]) as H.
  split_and!.
  - exact H.
  - exact (proj1 (proj2 room_entry_iff_members) _ _ H).
  - apply (proj2 (proj2 (proj2 room_entry_iff_members)) _ 1 (u16 "lobby") [1]);
      [by vm_compute|done|by vm_compute|by vm_compute].
Defined.

(** *** The body-chat write *)

(** C8.  The claim fails on the code for a write the service refuses:
    the handler reads no status, so a response with an error status
    and a JSON body counts as saved.  Alice's write, answered 403 with
    the body [refusal], is not logged, and [refusal] is broadcast to
    bob as the saved message. *)
Theorem refused_write_is_broadcast :
  let st := HohWs.run Examples.secret Examples.verify
              [HohWs.Message 1
                 (IsJSON (obj [("type", str "join");
                               ("room", str "body_chat")])) 4;
               HohWs.Message 0
                 (IsJSON (obj [("type", str "message:new");
                               ("message", obj [("content", str "hi")])])) 5]
              Examples.hoh_lobby in
  let st' := HohWs.step Examples.secret Examples.verify
               (HohWs.Settled 0 (HohWs.Responded (IsJSON Examples.refusal)))
               st in
  HohWs.fetches st
  = [(0, obj [("body_chat_id", VUndef); ("user_id", str "u1");
              ("content", str "hi"); ("message_type", VUndef);
              ("metadata", VUndef)])] ∧
  HohWs.errors st' = [] ∧
  HohWs.sent st'
  = HohWs.sent st ++ [(1, HohSpec.saved_frame Examples.refusal)].
Proof. vm_compute. repeat split. Qed.

(** X22.  When the promise of the write of a body-chat message is
    rejected ([fetch] rejects, or the body of the response is not
    JSON), its continuation logs the failure with [console.error] and
    does nothing else: no frame is sent, no socket is closed or
    changed, the clients keep their rooms and the server goes on, the
    write being no longer pending. *)
Theorem write_failure_logged (HOH_JWT_SECRET : option jsstring)
    (jwt_verify : jsstring → jsstring → option value)
    (i ws : nat) (body : value) (outcome : HohWs.fetch_outcome)
    (st : HohWs.state) :
  HohWs.crashed st = false → HohWs.fetches st !! i = Some (ws, body) →
  HohSpec.write_failed outcome = true →
  let st' := HohWs.step HOH_JWT_SECRET jwt_verify (HohWs.Settled i outcome) st in
  st' = HohWs.on_settled ws outcome (HohWs.with_fetches (delete i) st) ∧
  HohWs.errors st' = HohWs.errors st ++ [HohWs.LogSaveFailed] ∧
  HohWs.sent st' = HohWs.sent st ∧
  HohWs.clients st' = HohWs.clients st ∧
  HohWs.sockets st' = HohWs.sockets st ∧
  HohWs.closes st' = HohWs.closes st ∧
  HohWs.responses st' = HohWs.responses st ∧
  HohWs.fetches st' = delete i (HohWs.fetches st) ∧
  HohWs.crashed st' = false.
Proof.
  intros Hcr Hf Hw st'. subst st'. unfold HohWs.step. rewrite Hcr, Hf.
  by destruct outcome as [|[raw|saved]].
Qed.

(** Alice sends a [message:new]; the write is rejected: one line is
    logged, nothing is sent, and alice is still served. *)
Lemma write_failure_logged_witness :
  HohWs.errors
    (HohWs.run Examples.secret Examples.verify
       [HohWs.Message 0
          (IsJSON (obj [("type", str "message:new");
                        ("message", obj [("content", str "hi")])])) 5;
        HohWs.Settled 0 HohWs.Rejected] Examples.hoh_lobby)
  = [HohWs.LogSaveFailed] ∧
  HohWs.sent
    (HohWs.run Examples.secret Examples.verify
       [HohWs.Message 0
          (IsJSON (obj [("type", str "message:new");
                        ("message", obj [("content", str "hi")])])) 5;
        HohWs.Settled 0 HohWs.Rejected] Examples.hoh_lobby)
  = HohWs.sent Examples.hoh_lobby ∧
  HohWs.sockets
    (HohWs.run Examples.secret Examples.verify
       [HohWs.Message 0
          (IsJSON (obj [("type", str "message:new");
                        ("message", obj [("content", str "hi")])])) 5;
        HohWs.Settled 0 HohWs.Rejected] Examples.hoh_lobby)
  = [HohWs.Socket OPEN true; HohWs.Socket OPEN true].
Proof.
  pose proof (write_failure_logged Examples.secret Examples.verify 0 0
    (obj [("body_chat_id", VUndef); ("user_id", str "u1");
          ("content", str "hi"); ("message_type", VUndef);
          ("metadata", VUndef)])
    HohWs.Rejected
    (HohWs.step Examples.secret Examples.verify
       (HohWs.Message 0
          (IsJSON (obj [("type", str "message:new");
                        ("message", obj [("content", str "hi")])])) 5)
       Examples.hoh_lobby)
    eq_refl eq_refl eq_refl) as (_ & He & Hs & _ & Hk & _).
  split_and!.
  - etrans; [exact He|]. by vm_compute.
  - etrans; [exact Hs|]. by vm_compute.
  - etrans; [exact Hk|]. by vm_compute.
Defined.

(** *** Joining twice *)

Lemma server_state_eq (a b : Server.state) :
  Server.rooms a = Server.rooms b → Server.sockets a = Server.sockets b →
  Server.sent a = Server.sent b → Server.closes a = Server.closes b →
  Server.console a = Server.console b → Server.crashed a = Server.crashed b →
  a = b.
Proof. destruct a, b. simpl. by intros -> -> -> -> -> ->. Qed.

Lemma joinRoom_joined (st : Server.state) (ws : nat) (room : jsstring) :
  ServerSpec.joined st ws room → Server.joinRoom ws room st = st.
Proof.
  intros [Hin Hroom].
  destruct (ServerFacts.others_joinRoom ws room st) as (Hse & Hcl & Hco & Hcr).
  apply server_state_eq; try done.
  - rewrite ServerFacts.rooms_joinRoom.
    rewrite set_add_present by (by apply ws_has_spec).
    apply insert_id. unfold Server.members in *.
    destruct (Server.rooms st !! room); [done|]. by apply elem_of_nil in Hin.
  - rewrite ServerFacts.sockets_joinRoom. apply alter_fixed.
    intros [rs r u l] Hs. specialize (Hroom _ Hs). simpl in *. by subst.
Qed.

Lemma joined_joinRoom (st : Server.state) (ws : nat) (room : jsstring) :
  ServerSpec.joined (Server.joinRoom ws room st) ws room.
Proof.
  split.
  - rewrite ServerFacts.members_joinRoom, decide_True by done.
    apply elem_of_ws_add. by right.
  - intros s. rewrite ServerFacts.sockets_joinRoom, list_lookup_alter_eq.
    destruct (Server.sockets st !! ws); simpl; [|done]. by intros [= <-].
Qed.

Lemma hoh_join_present (ws : nat) (msg room : value) (now : float)
    (st : HohWs.state) :
  HohSpec.join_frame msg room →
  set_has same_value_zero (HohWs.rooms_of st ws) room = true →
  HohWs.clients (HohWs.on_message ws (IsJSON msg) now st) = HohWs.clients st.
Proof.
  intros (Ht & Hr & Htr) Hhas. unfold HohWs.on_message. rewrite Ht, Hr, Htr.
  eval_is_str. cbn -[set_add].
  apply HohFacts.update_meta_id. intros [u n rs] Hm.
  unfold HohWs.rooms_of in Hhas. rewrite Hm in Hhas. simpl in *.
  by rewrite set_add_present.
Qed.

(** C9.  Joining a room the session is in already changes neither the
    registry nor the rooms of the session: [joinRoom] of [server.js]
    returns the state it was given (and is idempotent outright), and a
    [join] frame of [hoh-ws-server.js] leaves the [clients] map as it
    is. *)
Theorem join_idempotent :
  (∀ st ws room, ServerSpec.joined st ws room → Server.joinRoom ws room st = st) ∧
  (∀ st ws room,
     Server.joinRoom ws room (Server.joinRoom ws room st)
     = Server.joinRoom ws room st) ∧
  (∀ ws msg room now st,
     HohSpec.join_frame msg room →
     set_has same_value_zero (HohWs.rooms_of st ws) room = true →
     HohWs.clients (HohWs.on_message ws (IsJSON msg) now st) = HohWs.clients st).
Proof.
  split_and!.
  - apply joinRoom_joined.
  - intros st ws room. apply joinRoom_joined, joined_joinRoom.
  - apply hoh_join_present.
Qed.

(** Alice joins the lobby again on [server.js], bob on
    [hoh-ws-server.js]: nothing changes. *)
Lemma join_idempotent_witness :
  ServerSpec.joined Examples.server_lobby 0 (u16 "lobby") ∧
  Server.joinRoom 0 (u16 "lobby") Examples.server_lobby = Examples.server_lobby ∧
  set_has same_value_zero (HohWs.rooms_of Examples.hoh_lobby 1) (str "lobby") = true ∧
  HohWs.clients
    (HohWs.on_message 1
       (IsJSON (obj [("type", str "join"); ("room", str "lobby")])) 5
       Examples.hoh_lobby)
  = HohWs.clients Examples.hoh_lobby.
Proof.
  assert (H : ServerSpec.joined Examples.server_lobby 0 (u16 "lobby")).
  { split.
    - vm_compute. apply list_elem_of_here.
    - intros s. vm_compute. by intros [= <-]. }
  split_and!.
  - exact H.
  - exact (proj1 join_idempotent _ _ _ H).
  - by vm_compute.
  - apply (proj2 (proj2 join_idempotent) 1 _ (str "lobby")).
    + repeat split.
    + by vm_compute.
Defined.

(** *** A new body-chat message *)

Lemma message_new_rooms (ws : nat) (msg : value) (now : float)
    (st : HohWs.state) :
  getprop msg "type" = Some (str "message:new") →
  HohWs.clients (HohWs.on_message ws (IsJSON msg) now st)
  = HohWs.clients
      (HohWs.with_rooms_of ws
         (λ set, set_add same_value_zero set (str "body_chat")) st) ∧
  HohWs.sent (HohWs.on_message ws (IsJSON msg) now st) = HohWs.sent st.
Proof.
  intros Ht. unfold HohWs.on_message. rewrite Ht.
  destruct (getprop msg "room") as [room|] eqn:Hr.
  2:{ destruct msg; simpl in *; done. }
  eval_is_str. cbv iota.
  by repeat case_match.
Qed.

Lemma message_new_write (ws : nat) (msg : value) (now : float)
    (st : HohWs.state) (m : HohWs.meta) :
  getprop msg "type" = Some (str "message:new") →
  HohWs.meta_of (HohWs.clients st) ws = Some m →
  field msg "message" ≠ VUndef → field msg "message" ≠ VNull →
  HohWs.on_message ws (IsJSON msg) now st
  = HohWs.with_fetches (λ l, l ++ [(ws, HohSpec.write_body msg m)])
      (HohWs.with_rooms_of ws
         (λ set, set_add same_value_zero set (str "body_chat")) st).
Proof.
  intros Ht Hm Hu Hn. unfold HohWs.on_message. rewrite Ht, Hm.
  destruct (getprop msg "room") as [room|] eqn:Hr.
  2:{ destruct msg; simpl in *; done. }
  eval_is_str. cbv iota. unfold HohSpec.write_body. fold (field msg "message").
  fold (field msg "body_chat_id").
  unfold field at 4 5 6.
  by destruct (field msg "message").
Qed.

(** C10.  Whatever else a [message:new] frame carries, a room field
    included, its handler adds the room [body_chat] to the rooms of the
    sender, changes no other client and sends nothing yet.  If the
    frame has a message, the handler issues the write of it for the
    sender, and nothing else happens then.  When a write issued for
    the sender succeeds, the saved message is broadcast as [{type:
    'message:new', message: saved}] to exactly the open clients other
    than the sender that have [body_chat] in their rooms, and the write
    is no longer pending; so for the write of this frame, settled next. *)
Theorem body_chat_message (HOH_JWT_SECRET : option jsstring)
    (jwt_verify : jsstring → jsstring → option value)
    (ws : nat) (msg : value) (now : float)
    (st : HohWs.state) (m : HohWs.meta) :
  getprop msg "type" = Some (str "message:new") →
  HohWs.meta_of (HohWs.clients st) ws = Some m →
  let st' := HohWs.on_message ws (IsJSON msg) now st in
  HohWs.rooms_of st' ws
  = set_add same_value_zero (HohWs.rooms m) (str "body_chat") ∧
  str "body_chat" ∈ HohWs.rooms_of st' ws ∧
  (∀ w, w ≠ ws → HohWs.rooms_of st' w = HohWs.rooms_of st w) ∧
  HohWs.sent st' = HohWs.sent st ∧
  (field msg "message" ≠ VUndef → field msg "message" ≠ VNull →
   HohWs.fetches st' = HohWs.fetches st ++ [(ws, HohSpec.write_body msg m)] ∧
   HohWs.sockets st' = HohWs.sockets st ∧ HohWs.closes st' = HohWs.closes st ∧
   HohWs.errors st' = HohWs.errors st ∧
   HohWs.responses st' = HohWs.responses st ∧
   HohWs.crashed st' = HohWs.crashed st) ∧
  (∀ i body saved st1,
     HohWs.crashed st1 = false → HohWs.fetches st1 !! i = Some (ws, body) →
     let st2 := HohWs.step HOH_JWT_SECRET jwt_verify
                  (HohWs.Settled i (HohWs.Responded (IsJSON saved))) st1 in
     HohWs.sent st2
     = HohWs.sent st1
       ++ ((λ w, (w, HohSpec.saved_frame saved))
             <$> HohSpec.recipients st1 (str "body_chat") (Some ws)) ∧
     HohWs.fetches st2 = delete i (HohWs.fetches st1) ∧
     HohWs.clients st2 = HohWs.clients st1 ∧
     HohWs.errors st2 = HohWs.errors st1 ∧
     ∀ w, w ∈ HohSpec.recipients st1 (str "body_chat") (Some ws) ↔
          w ≠ ws ∧ HohWs.is_open st1 w = true ∧
          ∃ m', (w, m') ∈ HohWs.clients st1 ∧
                HohWs.in_room m' (str "body_chat") = true) ∧
  (field msg "message" ≠ VUndef → field msg "message" ≠ VNull →
   HohWs.crashed st = false →
   ∀ saved,
     HohWs.sent
       (HohWs.step HOH_JWT_SECRET jwt_verify
          (HohWs.Settled (length (HohWs.fetches st))
             (HohWs.Responded (IsJSON saved))) st')
     = HohWs.sent st
       ++ ((λ w, (w, HohSpec.saved_frame saved))
             <$> HohSpec.recipients st' (str "body_chat") (Some ws))).
Proof.
  intros Ht Hm st'. subst st'.
  destruct (message_new_rooms ws msg now st Ht) as [Hc Hs].
  assert (Hr : ∀ w, HohWs.rooms_of (HohWs.on_message ws (IsJSON msg) now st) w
                    = HohWs.rooms_of
                        (HohWs.with_rooms_of ws
                           (λ set, set_add same_value_zero set (str "body_chat"))
                           st) w).
  { intros w. unfold HohWs.rooms_of. by rewrite Hc. }
  assert (Hws : HohWs.rooms_of (HohWs.on_message ws (IsJSON msg) now st) ws
                = set_add same_value_zero (HohWs.rooms m) (str "body_chat")).
  { rewrite Hr, HohFacts.rooms_of_with_rooms_of, decide_True, Hm by done.
    unfold HohWs.rooms_of. by rewrite Hm. }
  assert (Hsettle : ∀ i body saved st1,
     HohWs.crashed st1 = false → HohWs.fetches st1 !! i = Some (ws, body) →
     HohWs.step HOH_JWT_SECRET jwt_verify
       (HohWs.Settled i (HohWs.Responded (IsJSON saved))) st1
     = HohWs.broadcastToRoom (str "body_chat") (HohSpec.saved_frame saved)
         (Some ws) (HohWs.with_fetches (delete i) st1)).
  { intros i body saved st1 Hcr Hf. unfold HohWs.step. by rewrite Hcr, Hf. }
  split; [done|]. split.
  { rewrite Hws. apply elem_of_str_add. by right. }
  split.
  { intros w Hw. by rewrite Hr, HohFacts.rooms_of_with_rooms_of, decide_False. }
  split; [done|]. split.
  { intros Hu Hn. by rewrite (message_new_write ws msg now st m Ht Hm Hu Hn). }
  split.
  - intros i body saved st1 Hcr Hf st2. subst st2.
    rewrite (Hsettle i body saved st1 Hcr Hf), HohFacts.hoh_broadcast_spec.
    split_and!; try done.
    intros w. rewrite HohFacts.elem_of_recipients. split.
    + intros (? & Hne & ?). split; [congruence|done].
    + intros (Hne & ? & ?). split; [done|]. split; [congruence|done].
  - intros Hu Hn Hcr saved.
    rewrite (Hsettle (length (HohWs.fetches st)) (HohSpec.write_body msg m)).
    + rewrite HohFacts.hoh_broadcast_spec.
      cbn [HohWs.sent HohWs.with_fetches]. by rewrite Hs.
    + by rewrite (message_new_write ws msg now st m Ht Hm Hu Hn).
    + rewrite (message_new_write ws msg now st m Ht Hm Hu Hn). cbn.
      rewrite lookup_app_r by done. by rewrite Nat.sub_diag.
Qed.

(** Bob is in [body_chat]; alice, in the lobby, sends a [message:new]
    that names the lobby: she is in [body_chat] as well afterwards,
    her write is pending, and once it is saved bob, and bob only, is
    sent the saved message. *)
Lemma body_chat_message_witness :
  HohWs.rooms_of
    (HohWs.on_message 0
       (IsJSON (obj [("type", str "message:new"); ("room", str "lobby");
                     ("message", obj [("content", str "hi")])])) 5
       (HohWs.on_message 1
          (IsJSON (obj [("type", str "join"); ("room", str "body_chat")])) 4
          Examples.hoh_lobby)) 0
  = [str "lobby"; str "body_chat"] ∧
  HohWs.fetches
    (HohWs.on_message 0
       (IsJSON (obj [("type", str "message:new"); ("room", str "lobby");
                     ("message", obj [("content", str "hi")])])) 5
       (HohWs.on_message 1
          (IsJSON (obj [("type", str "join"); ("room", str "body_chat")])) 4
          Examples.hoh_lobby))
  = [(0, obj [("body_chat_id", VUndef); ("user_id", str "u1");
              ("content", str "hi"); ("message_type", VUndef);
              ("metadata", VUndef)])] ∧
  HohWs.sent
    (HohWs.run Examples.secret Examples.verify
       [HohWs.Message 1
          (IsJSON (obj [("type", str "join"); ("room", str "body_chat")])) 4;
        HohWs.Message 0
          (IsJSON (obj [("type", str "message:new"); ("room", str "lobby");
                        ("message", obj [("content", str "hi")])])) 5;
        HohWs.Settled 0 (HohWs.Responded (IsJSON (obj [("id", VNum 7)])))]
       Examples.hoh_lobby)
  = HohWs.sent Examples.hoh_lobby
    ++ [(1, obj [("type", str "joined"); ("room", str "body_chat")]);
        (1, HohSpec.saved_frame (obj [("id", VNum 7)]))].
Proof.
  pose proof (body_chat_message Examples.secret Examples.verify 0
    (obj [("type", str "message:new"); ("room", str "lobby");
          ("message", obj [("content", str "hi")])]) 5
    (HohWs.on_message 1
       (IsJSON (obj [("type", str "join"); ("room", str "body_chat")])) 4
       Examples.hoh_lobby)
    (HohWs.Meta (str "u1") (str "Alice") [str "lobby"]) eq_refl eq_refl)
    as (H1 & _ & _ & _ & H5 & _ & H7).
  split_and!.
  - etrans; [exact H1|]. by vm_compute.
  - destruct H5 as [H5 _]; [by vm_compute..|].
    etrans; [exact H5|]. by vm_compute.
  - etrans; [|etrans; [exact (H7 ltac:(by vm_compute) ltac:(by vm_compute)
                                eq_refl (obj [("id", VNum 7)]))|]];
      by vm_compute.
Defined.

(** *** The membership invariant and the uncaught errors *)

(** X1.  In every state [server.js] reaches, a client is a member of a
    room of the registry exactly when its socket has the room as
    [_room] and either carries the listeners of the room and is not
    closed, or carries no listener, its join log having thrown, and
    is not open. *)
Theorem server_membership_consistent (JWT_SECRET : option jsstring)
    (jwt_verify : jsstring → jsstring → option value)
    (es : list Server.event) (ws : nat) (room : jsstring) :
  let st := Server.run JWT_SECRET jwt_verify es Server.init in
  ws ∈ Server.members st room ↔
  ∃ s, Server.sockets st !! ws = Some s ∧ Server._room s = Some room ∧
       (Server.listening s = Some room ∧ Server.readyState s ≠ CLOSED ∨
        Server.listening s = None ∧ Server.readyState s ≠ OPEN).
Proof.
  intros st.
  assert (Hwf : ServerSpec.wf st) by apply ServerRuns.wf_run, ServerFacts.wf_init.
  split.
  - intros Hin. by destruct (ServerSpec.wf_member _ Hwf room ws Hin) as [_ ?].
  - intros (s & Hs & Hr & [[Hl Hrs]|[Hl _]]).
    + by eapply ServerSpec.wf_listening.
    + by eapply ServerSpec.wf_stuck.
Qed.

(** X2.  Frames on which a message handler throws a [TypeError] that
    nothing catches: the frame [null] on both servers; on
    [hoh-ws-server.js] a [message:new] frame without a [message]
    object, [body_chat] being added to the rooms of the sender before
    the throw, and a [message] frame with a room whose text is truthy
    but not a string.  After such an error the server handles no
    further event. *)
Theorem uncaught_type_errors :
  (∀ ws now st,
     HohWs.on_message ws (IsJSON VNull) now st = HohWs.uncaught st) ∧
  (∀ ws msg now st,
     getprop msg "type" = Some (str "message:new") →
     (field msg "message" = VUndef ∨ field msg "message" = VNull) →
     HohWs.on_message ws (IsJSON msg) now st
     = HohWs.uncaught
         (HohWs.with_rooms_of ws
            (λ set, set_add same_value_zero set (str "body_chat")) st)) ∧
  (∀ ws msg now st,
     getprop msg "type" = Some (str "message") →
     truthy (field msg "room") = true → truthy (field msg "text") = true →
     (∀ text, field msg "text" ≠ VStr text) →
     HohWs.on_message ws (IsJSON msg) now st = HohWs.uncaught st) ∧
  (∀ ws room now st,
     Server.on_message ws room (IsJSON VNull) now st = Server.uncaught st) ∧
  (∀ HOH_JWT_SECRET jwt_verify e st,
     HohWs.crashed st = true → HohWs.step HOH_JWT_SECRET jwt_verify e st = st) ∧
  (∀ JWT_SECRET jwt_verify e st,
     Server.crashed st = true → Server.step JWT_SECRET jwt_verify e st = st).
Proof.
  split_and!.
  - done.
  - intros ws msg now st Ht Hm. unfold HohWs.on_message. rewrite Ht.
    unfold field in Hm.
    destruct msg as [| |b|x|s|items|ps|fn]; try done.
    cbn [getprop default from_option id] in *.
    eval_is_str. cbv iota.
    destruct Hm as [-> | ->]; done.
  - intros ws msg now st Ht Hr Htx Hns. unfold HohWs.on_message. rewrite Ht.
    unfold field in *.
    destruct msg as [| |b|x|s|items|ps|fn]; try done.
    cbn [getprop default from_option id] in *.
    eval_is_str. cbv iota. rewrite Hr. simpl andb. cbv iota.
    destruct (own_prop (u16 "text") ps) as [| |b|x|text|l|ps'|fn];
      try by rewrite Htx.
    by destruct (Hns text).
  - done.
  - intros k v e st H. unfold HohWs.step. by rewrite H.
  - intros k v e st H. unfold Server.step. by rewrite H.
Qed.

(** A [message:new] frame without a message stops the server, alice
    being in [body_chat] by then. *)
Lemma uncaught_type_errors_witness :
  HohWs.crashed
    (HohWs.on_message 0 (IsJSON (obj [("type", str "message:new")])) 5
       Examples.hoh_lobby) = true ∧
  HohWs.rooms_of
    (HohWs.on_message 0 (IsJSON (obj [("type", str "message:new")])) 5
       Examples.hoh_lobby) 0
  = [str "lobby"; str "body_chat"].
Proof.
  rewrite (proj1 (proj2 uncaught_type_errors) 0
             (obj [("type", str "message:new")]) 5%float Examples.hoh_lobby
             eq_refl (or_introl eq_refl)).
  by vm_compute.
Defined.





(** *** The query of the upgrade request *)

(** X4.  [parseQuery] gives the empty object for a URL without [?],
    and it does not throw on a URL without [%]. *)
Theorem parseQuery_without_escape (url : jsstring) :
  (63%N ∉ url → HohWs.parseQuery url = Some ∅) ∧
  (37%N ∉ url → is_Some (HohWs.parseQuery url)).
Proof.
  split.
  - intros H. unfold HohWs.parseQuery.
    by rewrite (proj2 (indexOf_None 63 url) H).
  - intros H. destruct (HohWs.parseQuery url) as [q|] eqn:E; [by eexists|].
    rewrite QueryFacts.parseQuery_pairs in E.
    apply QueryFacts.fold_pairs_throws in E as (pair & Hin & _ & Hd).
    assert (Hp : 37%N ∉ pair).
    { intros Hp. apply H. unfold HohSpec.query_pairs in Hin.
      destruct (indexOf 63 url) as [i|]; [|by apply elem_of_nil in Hin].
      apply (elem_of_split _ _ _ _ Hin) in Hp.
      eapply elem_of_sublist; [exact Hp|apply sublist_drop]. }
    apply (QueryFacts.key_value_plain 37) in Hp as [Hk Hv].
    rewrite !decodeURIComponent_plain in Hd by done. by destruct Hd.
Qed.

Lemma parseQuery_without_escape_witness :
  HohWs.parseQuery (u16 "/ws") = Some ∅ ∧
  is_Some (HohWs.parseQuery (u16 "/ws?token=abc&rooms=a+b,c")).
Proof.
  split.
  - apply (proj1 (parseQuery_without_escape (u16 "/ws"))). by_compute.
  - apply (proj2 (parseQuery_without_escape (u16 "/ws?token=abc&rooms=a+b,c"))).
    by_compute.
Defined.

(** X5.  The parameters [parseQuery] returns: [k] is a property of the
    object exactly when some pair of the query has a non-empty key
    that decodes to [k], the key [__proto__] apart. *)
Theorem parseQuery_keys (url k : jsstring) (q : gmap jsstring jsstring) :
  HohWs.parseQuery url = Some q →
  is_Some (q !! k) ↔
  k ≠ u16 "__proto__" ∧
  ∃ pair, pair ∈ HohSpec.query_pairs url ∧ HohSpec.pair_key pair ≠ [] ∧
          decodeURIComponent (HohSpec.pair_key pair) = Some k.
Proof.
  rewrite QueryFacts.parseQuery_pairs. intros H.
  rewrite (QueryFacts.fold_pairs_keys _ _ _ k H), lookup_empty.
  split; [|by right]. intros [[? [=]]|H']. done.
Qed.

Lemma parseQuery_keys_witness :
  HohWs.parseQuery (u16 "/ws?token=abc&=x&__proto__=y&r%6Foms=a")
  = Some {[ u16 "token" := u16 "abc"; u16 "rooms" := u16 "a" ]} ∧
  (is_Some (({[ u16 "token" := u16 "abc"; u16 "rooms" := u16 "a" ]}
               : gmap jsstring jsstring) !! u16 "rooms") ↔
   u16 "rooms" ≠ u16 "__proto__" ∧
   ∃ pair,
     pair ∈ HohSpec.query_pairs (u16 "/ws?token=abc&=x&__proto__=y&r%6Foms=a") ∧
     HohSpec.pair_key pair ≠ [] ∧
     decodeURIComponent (HohSpec.pair_key pair) = Some (u16 "rooms")).
Proof.
  assert (H : HohWs.parseQuery (u16 "/ws?token=abc&=x&__proto__=y&r%6Foms=a")
              = Some {[ u16 "token" := u16 "abc"; u16 "rooms" := u16 "a" ]})
    by (by vm_compute).
  split; [exact H|]. exact (parseQuery_keys _ (u16 "rooms") _ H).
Defined.

(** X6.  Appending [&k=v] to a URL that has a query sets the decoded
    [k] to the decoded [v] and keeps the other parameters, so that a
    later pair overrides an earlier one; if the URL makes [parseQuery]
    throw it still does.  A pair without [=] sets the empty string,
    and what follows a second [=] is dropped. *)
Theorem parseQuery_append_pair (url k v k' v' : jsstring) :
  63%N ∈ url → k ≠ [] →
  38%N ∉ k → 61%N ∉ k → 38%N ∉ v → 61%N ∉ v →
  decodeURIComponent k = Some k' → decodeURIComponent v = Some v' →
  k' ≠ u16 "__proto__" →
  HohWs.parseQuery (url ++ 38%N :: k ++ 61%N :: v)
  = insert k' v' <$> HohWs.parseQuery url ∧
  HohWs.parseQuery (url ++ 38%N :: k)
  = insert k' [] <$> HohWs.parseQuery url ∧
  ∀ w, 38%N ∉ w →
    HohWs.parseQuery (url ++ 38%N :: k ++ 61%N :: v ++ 61%N :: w)
    = insert k' v' <$> HohWs.parseQuery url.
Proof.
  intros Hq Hk Hka Hke Hva Hve Dk Dv Hp.
  assert (Hadd : ∀ p o, HohWs.key_value p = (k, Some v) →
            HohWs.add_pair o p = Some (<[k' := v']> o)).
  { intros p o Hkv. unfold HohWs.add_pair. rewrite Hkv.
    rewrite bool_decide_eq_false_2 by done. simpl. rewrite Dk, Dv. simpl.
    unfold HohWs.set_prop. by rewrite bool_decide_eq_false_2. }
  split_and!.
  - rewrite QueryFacts.parseQuery_app; [|done|].
    2:{ rewrite elem_of_app, elem_of_cons. intros [?|[?|?]]; done. }
    destruct (HohWs.parseQuery url) as [o|]; [|done]. simpl.
    apply Hadd. by apply QueryFacts.key_value_pair.
  - rewrite QueryFacts.parseQuery_app by done.
    destruct (HohWs.parseQuery url) as [o|]; [|done]. simpl.
    unfold HohWs.add_pair. rewrite QueryFacts.key_value_bare by done.
    rewrite bool_decide_eq_false_2 by done. simpl. rewrite Dk. simpl.
    unfold HohWs.set_prop. by rewrite bool_decide_eq_false_2.
  - intros w Hw. rewrite QueryFacts.parseQuery_app; [|done|].
    2:{ rewrite elem_of_app, elem_of_cons, elem_of_app, elem_of_cons.
        intros [?|[?|[?|[?|?]]]]; done. }
    destruct (HohWs.parseQuery url) as [o|]; [|done]. simpl.
    apply Hadd. by apply QueryFacts.key_value_cut.
Qed.

Lemma parseQuery_append_pair_witness :
  HohWs.parseQuery (u16 "/ws?token=abc&rooms=x" ++ 38%N :: u16 "rooms" ++ 61%N :: u16 "a%2Cb")
  = Some {[ u16 "token" := u16 "abc"; u16 "rooms" := u16 "a,b" ]}.
Proof.
  destruct (parseQuery_append_pair (u16 "/ws?token=abc&rooms=x") (u16 "rooms")
              (u16 "a%2Cb") (u16 "rooms") (u16 "a,b")) as (H & _);
    [by_compute|done|by_compute..|by vm_compute|by vm_compute|done|].
  etrans; [exact H|]. by vm_compute.
Defined.

(** X7.  [parseQuery] throws exactly when some pair with a key has a
    key or a value that [decodeURIComponent] rejects.  The connection
    handler catches it: it logs the error and closes the socket
    without a code; no client is registered and no frame is sent. *)
Theorem unreadable_query_closes (HOH_JWT_SECRET : option jsstring)
    (jwt_verify : jsstring → jsstring → option value)
    (url : jsstring) (st : HohWs.state) :
  (HohWs.parseQuery url = None ↔
   ∃ pair, pair ∈ HohSpec.query_pairs url ∧ HohSpec.pair_key pair ≠ [] ∧
           (decodeURIComponent (HohSpec.pair_key pair) = None ∨
            decodeURIComponent (HohSpec.pair_value pair) = None)) ∧
  (HohWs.parseQuery url = None →
   let st' := HohWs.on_connection HOH_JWT_SECRET jwt_verify
                (HohWs.upgrade_of url) st in
   HohSpec.rejected st st' None ∧
   HohWs.errors st' = HohWs.errors st ++ [HohWs.LogConnectionError]).
Proof.
  split.
  - rewrite QueryFacts.parseQuery_pairs. apply QueryFacts.fold_pairs_throws.
  - intros H st'. subst st'. unfold HohWs.upgrade_of. rewrite H.
    pose proof (HohFacts.hoh_connection_decided HOH_JWT_SECRET jwt_verify
                  HohWs.BadQuery st) as (_ & _ & _ & Hr).
    split; [exact Hr|done].
Qed.

Lemma unreadable_query_closes_witness :
  HohWs.closes (HohWs.on_connection Examples.secret Examples.verify
                  (HohWs.upgrade_of (u16 "/ws?token=alice&rooms=50%"))
                  Examples.hoh_lobby)
  = HohWs.closes Examples.hoh_lobby ++ [(2, None)].
Proof.
  destruct (unreadable_query_closes Examples.secret Examples.verify
              (u16 "/ws?token=alice&rooms=50%") Examples.hoh_lobby) as [_ H].
  destruct H as [(_ & _ & H & _) _]; [by vm_compute|].
  etrans; [exact H|]. by vm_compute.
Defined.

(** X8.  A URL whose query has no pair with the key [token], a URL
    without a query among them, is turned down with 4001. *)
Theorem connection_without_token (HOH_JWT_SECRET : option jsstring)
    (jwt_verify : jsstring → jsstring → option value)
    (url : jsstring) (st : HohWs.state) :
  is_Some (HohWs.parseQuery url) →
  (∀ pair, pair ∈ HohSpec.query_pairs url →
     decodeURIComponent (HohSpec.pair_key pair) ≠ Some (u16 "token")) →
  HohSpec.rejected st
    (HohWs.on_connection HOH_JWT_SECRET jwt_verify (HohWs.upgrade_of url) st)
    (Some 4001%N).
Proof.
  intros [q Hq] Hno.
  assert (Ht : q !! u16 "token" = None).
  { apply eq_None_not_Some. intros Hs.
    rewrite QueryFacts.parseQuery_pairs in Hq.
    apply (QueryFacts.fold_pairs_keys _ _ _ _ Hq) in Hs
      as [[? [=]]|(_ & pair & Hin & _ & Hd)].
    by apply (Hno pair). }
  unfold HohWs.upgrade_of. rewrite Hq, Ht.
  pose proof (HohFacts.hoh_connection_decided HOH_JWT_SECRET jwt_verify
                (HohWs.Query None (q !! u16 "rooms")) st) as (_ & _ & _ & Hr).
  exact Hr.
Qed.

Lemma connection_without_token_witness :
  HohSpec.rejected Examples.hoh_lobby
    (HohWs.on_connection Examples.secret Examples.verify
       (HohWs.upgrade_of (u16 "/ws?room=lobby&Token=alice")) Examples.hoh_lobby)
    (Some 4001%N).
Proof.
  apply connection_without_token.
  - eexists. by vm_compute.
  - intros pair Hin.
    assert (Hp : HohSpec.query_pairs (u16 "/ws?room=lobby&Token=alice")
                 = [u16 "room=lobby"; u16 "Token=alice"]) by (by vm_compute).
    rewrite Hp in Hin.
    apply elem_of_cons in Hin as [->|Hin]; [by vm_compute|].
    apply list_elem_of_singleton in Hin as ->. by vm_compute.
Defined.

(** X9.  The connection handler on [path?token=T&rooms=R]: the token
    it verifies is the decoded [T] and the rooms it seeds are those of
    the decoded [R]; when the token is accepted the socket is sent the
    [connected] frame with these rooms. *)
Theorem connection_from_url (HOH_JWT_SECRET : option jsstring)
    (jwt_verify : jsstring → jsstring → option value)
    (path T R T' R' : jsstring) (st : HohWs.state) :
  63%N ∉ path → 38%N ∉ T → 61%N ∉ T → 38%N ∉ R → 61%N ∉ R →
  decodeURIComponent T = Some T' → decodeURIComponent R = Some R' →
  let url := path ++ u16 "?token=" ++ T ++ u16 "&rooms=" ++ R in
  let st' := HohWs.on_connection HOH_JWT_SECRET jwt_verify
               (HohWs.upgrade_of url) st in
  HohWs.upgrade_of url = HohWs.Query (Some T') (Some R') ∧
  ∀ userId name,
    HohSpec.decide_connection HOH_JWT_SECRET jwt_verify
      (HohWs.Query (Some T') (Some R')) = HohSpec.Accept userId name →
    HohWs.rooms_of st' (length (HohWs.sockets st))
    = HohWs.add_initial_rooms (Some R') [] ∧
    HohWs.sent st'
    = HohWs.sent st ++
      [(length (HohWs.sockets st),
        HohSpec.connected_frame userId name
          (HohWs.add_initial_rooms (Some R') []))].
Proof.
  intros Hp HTa HTe HRa HRe DT DR url st'.
  assert (Hu : HohWs.upgrade_of url = HohWs.Query (Some T') (Some R')).
  { assert (Hurl : url = path ++ 63%N :: (u16 "token" ++ 61%N :: T)
                             ++ 38%N :: (u16 "rooms" ++ 61%N :: R)).
    { unfold url.
      let a := eval vm_compute in (u16 "?token=") in
        change (u16 "?token=") with a.
      let a := eval vm_compute in (u16 "&rooms=") in
        change (u16 "&rooms=") with a.
      let a := eval vm_compute in (u16 "token") in change (u16 "token") with a.
      let a := eval vm_compute in (u16 "rooms") in change (u16 "rooms") with a.
      by cbn [app]. }
    rewrite Hurl. clear Hurl. unfold HohWs.upgrade_of, HohWs.parseQuery.
    rewrite indexOf_app by done.
    rewrite drop_app_ge by lia.
    replace (length path + 1 - length path) with 1 by lia.
    cbn [drop]. rewrite drop_0, split_app, !split_plain.
    2:{ rewrite elem_of_app, elem_of_cons. intros [H|[H|H]]; [|done..].
        revert H. by_compute. }
    2:{ rewrite elem_of_app, elem_of_cons. intros [H|[H|H]]; [|done..].
        revert H. by_compute. }
    cbn [foldl app mbind option_bind].
    unfold HohWs.add_pair.
    rewrite !QueryFacts.key_value_pair by (done || by_compute).
    rewrite !bool_decide_eq_false_2 by done.
    rewrite !(decodeURIComponent_plain (u16 _)) by by_compute.
    cbn [mbind option_bind from_option id]. rewrite DT.
    cbn [mbind option_bind]. rewrite DR. cbn [mbind option_bind].
    unfold HohWs.set_prop.
    rewrite !bool_decide_eq_false_2 by done.
    rewrite lookup_insert_eq, lookup_insert_ne by done.
    by rewrite lookup_insert_eq. }
  split; [exact Hu|]. intros userId name Hd. subst st'. rewrite Hu.
  pose proof (HohFacts.hoh_connection_decided HOH_JWT_SECRET jwt_verify
                (HohWs.Query (Some T') (Some R')) st) as (_ & _ & _ & Ha).
  rewrite Hd in Ha. destruct Ha as (_ & _ & _ & Hm & _ & Hs).
  split; [|exact Hs]. unfold HohWs.rooms_of. by rewrite Hm.
Qed.

Lemma connection_from_url_witness :
  HohWs.upgrade_of (u16 "/ws?token=alice&rooms=lobby%2C%20foyer")
  = HohWs.Query (Some (u16 "alice")) (Some (u16 "lobby, foyer")) ∧
  HohWs.rooms_of
    (HohWs.on_connection Examples.secret Examples.verify
       (HohWs.upgrade_of (u16 "/ws?token=alice&rooms=lobby%2C%20foyer"))
       HohWs.init) 0
  = [str "lobby"; str "foyer"].
Proof.
  destruct (connection_from_url Examples.secret Examples.verify
              (u16 "/ws") (u16 "alice") (u16 "lobby%2C%20foyer")
              (u16 "alice") (u16 "lobby, foyer") HohWs.init)
    as (Hu & Ha); [by_compute..|by vm_compute|by vm_compute|].
  split; [exact Hu|].
  destruct (Ha (str "u1") (str "Alice")) as [Hr _]; [by vm_compute|].
  etrans; [exact Hr|]. by vm_compute.
Defined.


(** *** What holds over every run *)

(** X10.  [hoh-ws-server.js] sends frames to accepted connections
    only: whatever the events, a socket that is passed to [ws.send] is
    one the connection handler accepted, its token verified. *)
Theorem hoh_frames_reach_accepted_only (HOH_JWT_SECRET : option jsstring)
    (jwt_verify : jsstring → jsstring → option value)
    (es : list HohWs.event) (ws : nat) (f : value) :
  (ws, f) ∈ HohWs.sent (HohWs.run HOH_JWT_SECRET jwt_verify es HohWs.init) →
  HohSpec.accepted HOH_JWT_SECRET jwt_verify es ws.
Proof.
  intros H. apply HohRuns.registered_accepted.
  eapply HohSpec.sent_registered; [|exact H].
  apply HohRuns.consistent_run, HohRuns.consistent_init.
Qed.

Lemma hoh_frames_reach_accepted_only_witness :
  HohSpec.accepted Examples.secret Examples.verify
    [HohWs.Connection (HohWs.Query None Examples.lobby);
     HohWs.Connection (HohWs.Query Examples.alice Examples.lobby);
     HohWs.Request (u16 "POST") (u16 "/emit")
       (IsJSON (obj [("room", str "lobby"); ("event", str "ping")]))] 1.
Proof.
  eapply hoh_frames_reach_accepted_only. vm_compute. left.
Defined.

(** X11.  [server.js] sends frames to accepted connections only. *)
Theorem server_frames_reach_accepted_only (JWT_SECRET : option jsstring)
    (jwt_verify : jsstring → jsstring → option value)
    (es : list Server.event) (ws : nat) (f : value) :
  (ws, f) ∈ Server.sent (Server.run JWT_SECRET jwt_verify es Server.init) →
  ServerSpec.accepted JWT_SECRET jwt_verify es ws.
Proof. apply ServerTrace.sent_accepted. Qed.

Lemma server_frames_reach_accepted_only_witness :
  ServerSpec.accepted Examples.secret Examples.verify
    [Server.Connection (Server.Query None Examples.lobby) 1;
     Server.Connection (Server.Query Examples.alice Examples.lobby) 2] 1.
Proof.
  eapply server_frames_reach_accepted_only. vm_compute. left.
Defined.

(** X12.  The [userId] and the [name] of a client of
    [hoh-ws-server.js] are those its token gave it: no later event
    changes them. *)
Theorem identity_fixed_at_connection (HOH_JWT_SECRET : option jsstring)
    (jwt_verify : jsstring → jsstring → option value)
    (es : list HohWs.event) (st : HohWs.state) (ws : nat) (m : HohWs.meta) :
  ws < length (HohWs.sockets st) →
  HohWs.meta_of (HohWs.clients st) ws = Some m →
  ∃ m', HohWs.meta_of
          (HohWs.clients (HohWs.run HOH_JWT_SECRET jwt_verify es st)) ws
        = Some m' ∧
        HohWs.userId m' = HohWs.userId m ∧ HohWs.name m' = HohWs.name m.
Proof.
  revert st m. induction es as [|e es IH]; intros st m Hlt Hm; simpl.
  - by exists m.
  - destruct (HohRuns.step_identity HOH_JWT_SECRET jwt_verify e st ws m Hlt Hm)
      as (Hlt' & m1 & Hm1 & Hu & Hn).
    destruct (IH _ _ Hlt' Hm1) as (m' & Hm' & Hu' & Hn').
    exists m'. split_and!; [done|congruence..].
Qed.

Lemma identity_fixed_at_connection_witness :
  ∃ m', HohWs.meta_of
          (HohWs.clients
             (HohWs.run Examples.secret Examples.verify
                [HohWs.Message 0
                   (IsJSON (obj [("type", str "join"); ("room", str "foyer");
                                 ("userId", str "u2"); ("name", str "Bob")])) 5;
                 HohWs.Connection (HohWs.Query Examples.bob None)]
                Examples.hoh_lobby)) 0
        = Some m' ∧
        HohWs.userId m' = str "u1" ∧ HohWs.name m' = str "Alice".
Proof.
  apply (identity_fixed_at_connection Examples.secret Examples.verify _
           Examples.hoh_lobby 0
           (HohWs.Meta (str "u1") (str "Alice") [str "lobby"])).
  - vm_compute. lia.
  - by vm_compute.
Defined.

(** X13.  Of a socket of [server.js] later events change the
    [readyState] and nothing else: the connection keeps the user and
    the room the connection handler gave it. *)
Theorem socket_keeps_user_and_room (JWT_SECRET : option jsstring)
    (jwt_verify : jsstring → jsstring → option value)
    (es : list Server.event) (st : Server.state) (ws : nat)
    (s : Server.socket) :
  Server.sockets st !! ws = Some s →
  ∃ rs, Server.sockets (Server.run JWT_SECRET jwt_verify es st) !! ws
        = Some (Server.Socket rs (Server._room s) (Server._user s)
                  (Server.listening s)).
Proof. apply ServerTrace.run_socket. Qed.

Lemma socket_keeps_user_and_room_witness :
  ∃ rs, Server.sockets
          (Server.run Examples.secret Examples.verify
             [Server.Message 0
                (IsJSON (obj [("type", str "message"); ("room", str "foyer");
                              ("user", str "bob"); ("text", str "hi")])) 5;
              Server.Close 0 6] Examples.server_lobby) !! 0
        = Some (Server.Socket rs (Some (u16 "lobby")) Examples.alice_user
                  (Some (u16 "lobby"))).
Proof.
  apply (socket_keeps_user_and_room Examples.secret Examples.verify _
           Examples.server_lobby 0
           (Server.Socket OPEN (Some (u16 "lobby")) Examples.alice_user
              (Some (u16 "lobby")))).
  by vm_compute.
Defined.

(** X14.  In every state either server reaches a broadcast sends a
    frame at most once to a connection. *)
Theorem broadcast_at_most_once (HOH_JWT_SECRET JWT_SECRET : option jsstring)
    (jwt_verify : jsstring → jsstring → option value) :
  (∀ es room message exceptWs,
     let st := HohWs.run HOH_JWT_SECRET jwt_verify es HohWs.init in
     ∃ l, HohWs.sent (HohWs.broadcastToRoom room message exceptWs st)
          = HohWs.sent st ++ ((λ w, (w, message)) <$> l) ∧ NoDup l) ∧
  (∀ es room data,
     let st := Server.run JWT_SECRET jwt_verify es Server.init in
     ∃ l, Server.sent (Server.broadcastToRoom room data st)
          = Server.sent st ++ ((λ w, (w, data)) <$> l) ∧ NoDup l).
Proof.
  split.
  - intros es room message exceptWs st.
    exists (HohSpec.recipients st room exceptWs).
    rewrite HohFacts.hoh_broadcast_spec. split; [done|].
    apply HohRuns.recipients_NoDup, HohSpec.registered_once.
    apply HohRuns.consistent_run, HohRuns.consistent_init.
  - intros es room data st.
    exists (ServerSpec.recipients st room).
    rewrite ServerFacts.server_broadcast_spec. split; [done|].
    unfold ServerSpec.recipients. apply NoDup_ListNoDup, List.NoDup_filter.
    apply NoDup_ListNoDup, ServerSpec.wf_nodup.
    apply ServerRuns.wf_run, ServerFacts.wf_init.
Qed.


(** *** The frames of hoh-ws-server.js *)

(** X15.  A [join] followed by a [leave] of the same room: the client
    is not in the room afterwards and was sent [joined] and [left];
    its other rooms are as before, and if it was not in the room
    before [clients] is as it was. *)
Theorem join_then_leave (ws : nat) (j l : value) (r : jsstring)
    (now1 now2 : float) (st : HohWs.state) (m : HohWs.meta) :
  HohWs.meta_of (HohWs.clients st) ws = Some m →
  HohSpec.join_frame j (VStr r) → HohSpec.leave_frame l (VStr r) →
  let st2 := HohWs.on_message ws (IsJSON l) now2
               (HohWs.on_message ws (IsJSON j) now1 st) in
  HohWs.rooms_of st2 ws = set_delete same_value_zero (HohWs.rooms m) (VStr r) ∧
  (VStr r ∉ HohWs.rooms_of st2 ws) ∧
  (VStr r ∉ HohWs.rooms m → HohWs.clients st2 = HohWs.clients st) ∧
  HohWs.sent st2
  = HohWs.sent st ++ [(ws, obj [("type", str "joined"); ("room", VStr r)]);
                      (ws, obj [("type", str "left"); ("room", VStr r)])].
Proof.
  intros Hm Hj Hl st2. subst st2.
  rewrite (HohHandlers.on_message_join _ _ _ _ _ Hj).
  rewrite (HohHandlers.on_message_leave _ _ _ _ _ Hl).
  assert (Hsame : same_value_zero (VStr r) (VStr r) = true).
  { simpl. by apply bool_decide_eq_true. }
  assert (Hrooms : HohWs.rooms_of
      (HohWs.send ws (obj [("type", str "left"); ("room", VStr r)])
         (HohWs.with_rooms_of ws
            (λ set, set_delete same_value_zero set (VStr r))
            (HohWs.send ws (obj [("type", str "joined"); ("room", VStr r)])
               (HohWs.with_rooms_of ws
                  (λ set, set_add same_value_zero set (VStr r)) st)))) ws
    = set_delete same_value_zero (HohWs.rooms m) (VStr r)).
  { unfold HohWs.rooms_of. simpl.
    rewrite !HohFacts.meta_of_update, !decide_True, Hm by done. simpl.
    by apply set_delete_add. }
  split_and!.
  - exact Hrooms.
  - rewrite Hrooms. intros H%str_has_spec.
    by rewrite set_has_delete in H.
  - intros Hno. simpl. rewrite HohHandlers.update_meta_compose.
    apply HohFacts.update_meta_id. intros v Hv. rewrite Hm in Hv.
    injection Hv as <-. destruct m as [u n rs]. simpl in *. f_equal.
    rewrite set_delete_add by done. apply set_delete_absent.
    destruct (set_has same_value_zero rs (VStr r)) eqn:E; [|done].
    by apply str_has_spec in E.
  - simpl. by rewrite <- app_assoc.
Qed.

Lemma join_then_leave_witness :
  HohWs.clients
    (HohWs.on_message 0
       (IsJSON (obj [("type", str "leave"); ("room", str "foyer")])) 6
       (HohWs.on_message 0
          (IsJSON (obj [("type", str "join"); ("room", str "foyer")])) 5
          Examples.hoh_lobby))
  = HohWs.clients Examples.hoh_lobby.
Proof.
  destruct (join_then_leave 0
              (obj [("type", str "join"); ("room", str "foyer")])
              (obj [("type", str "leave"); ("room", str "foyer")])
              (u16 "foyer") 5 6 Examples.hoh_lobby
              (HohWs.Meta (str "u1") (str "Alice") [str "lobby"]))
    as (_ & _ & H & _); [by vm_compute..|].
  apply H. simpl. intros E%list_elem_of_singleton. vm_compute in E.
  discriminate E.
Defined.

(** X16.  The rooms of a client decide what it is sent: in every
    state the server reaches, an open client that joins a room is a
    recipient of the broadcasts to the room from then on, and a client
    that leaves a room is a recipient of none. *)
Theorem rooms_control_delivery (HOH_JWT_SECRET : option jsstring)
    (jwt_verify : jsstring → jsstring → option value)
    (es : list HohWs.event) (ws : nat) (msg : value) (r : jsstring)
    (now : float) :
  let st := HohWs.run HOH_JWT_SECRET jwt_verify es HohWs.init in
  let st' := HohWs.on_message ws (IsJSON msg) now st in
  is_Some (HohWs.meta_of (HohWs.clients st) ws) →
  (HohSpec.join_frame msg (VStr r) → HohWs.is_open st ws = true →
   ws ∈ HohSpec.recipients st' (VStr r) None) ∧
  (HohSpec.leave_frame msg (VStr r) →
   ∀ exceptWs, ws ∉ HohSpec.recipients st' (VStr r) exceptWs).
Proof.
  intros st st' [m Hm]. subst st'.
  assert (Hnd : NoDup (fst <$> HohWs.clients st)).
  { apply HohSpec.registered_once, HohRuns.consistent_run,
      HohRuns.consistent_init. }
  split.
  - intros Hj Ho. rewrite (HohHandlers.on_message_join _ _ _ _ _ Hj).
    apply HohFacts.elem_of_recipients. split_and!; [done..|].
    eexists. split.
    + apply HohRuns.meta_of_elem.
      { simpl. by rewrite HohRuns.keys_update_meta. }
      simpl. rewrite HohFacts.meta_of_update, decide_True, Hm by done. done.
    + unfold HohWs.in_room. simpl. apply set_has_add. simpl.
      by apply bool_decide_eq_true.
  - intros Hl exceptWs. rewrite (HohHandlers.on_message_leave _ _ _ _ _ Hl).
    intros (_ & _ & m' & Hin & Hr)%HohFacts.elem_of_recipients.
    apply HohRuns.meta_of_elem in Hin.
    2:{ simpl. by rewrite HohRuns.keys_update_meta. }
    simpl in Hin. rewrite HohFacts.meta_of_update, decide_True, Hm in Hin by done.
    injection Hin as <-. unfold HohWs.in_room in Hr. simpl in Hr.
    by rewrite set_has_delete in Hr.
Qed.

Lemma rooms_control_delivery_witness :
  1 ∈ HohSpec.recipients
        (HohWs.on_message 1
           (IsJSON (obj [("type", str "join"); ("room", str "foyer")])) 5
           Examples.hoh_lobby) (str "foyer") None.
Proof.
  apply (rooms_control_delivery Examples.secret Examples.verify
           [HohWs.Connection (HohWs.Query Examples.alice Examples.lobby);
            HohWs.Connection (HohWs.Query Examples.bob Examples.lobby)] 1
           (obj [("type", str "join"); ("room", str "foyer")]) (u16 "foyer") 5).
  - eexists. by vm_compute.
  - by vm_compute.
  - by vm_compute.
Defined.

(** X17.  A [message] frame whose text is a string: a text of white
    space only (the empty text among them) is dropped, nothing sent
    and nothing changed; any other text is relayed as it came, not
    trimmed, with the identity of the sender, to the recipients of the
    room other than the sender. *)
Theorem message_text_verbatim (ws : nat) (msg room : value) (text : jsstring)
    (now : float) (st : HohWs.state) (m : HohWs.meta) :
  HohSpec.message_frame msg room text →
  HohWs.meta_of (HohWs.clients st) ws = Some m →
  let st' := HohWs.on_message ws (IsJSON msg) now st in
  (Forall (λ c, is_space c = true) text → st' = st) ∧
  (¬ Forall (λ c, is_space c = true) text →
   HohWs.sent st'
   = HohWs.sent st ++
     ((λ w, (w, HohSpec.relayed_message room text m now))
        <$> HohSpec.recipients st room (Some ws)) ∧
   HohWs.clients st' = HohWs.clients st).
Proof.
  intros Hf Hm st'. subst st'.
  rewrite (HohHandlers.on_message_message _ _ _ _ _ _ _ Hf Hm).
  split.
  - intros Hb. by rewrite bool_decide_eq_true_2 by (by apply trim_blank).
  - intros Hb. rewrite bool_decide_eq_false_2
      by (by rewrite trim_blank).
    by rewrite HohFacts.hoh_broadcast_spec.
Qed.

Lemma message_text_verbatim_witness :
  HohWs.on_message 0
    (IsJSON (obj [("type", str "message"); ("room", str "lobby");
                  ("text", str "  ")])) 5 Examples.hoh_lobby
  = Examples.hoh_lobby ∧
  HohWs.sent
    (HohWs.on_message 0
       (IsJSON (obj [("type", str "message"); ("room", str "lobby");
                     ("text", str " hi ")])) 5 Examples.hoh_lobby)
  = HohWs.sent Examples.hoh_lobby ++
    [(1, HohSpec.relayed_message (str "lobby") (u16 " hi ")
           (HohWs.Meta (str "u1") (str "Alice") [str "lobby"]) 5)].
Proof.
  split.
  - apply (message_text_verbatim 0 _ (str "lobby") (u16 "  ") 5
             Examples.hoh_lobby
             (HohWs.Meta (str "u1") (str "Alice") [str "lobby"]));
      [by vm_compute..|].
    vm_compute. repeat constructor.
  - destruct (message_text_verbatim 0
                (obj [("type", str "message"); ("room", str "lobby");
                      ("text", str " hi ")]) (str "lobby") (u16 " hi ") 5
                Examples.hoh_lobby
                (HohWs.Meta (str "u1") (str "Alice") [str "lobby"]))
      as [_ H]; [by vm_compute..|].
    destruct H as [H _].
    + intros Hb. apply Forall_cons in Hb as [_ Hb].
      apply Forall_cons in Hb as [Hb _]. vm_compute in Hb. discriminate Hb.
    + etrans; [exact H|]. by vm_compute.
Defined.

(** X18.  The server does not look at the rooms of the sender: what a
    frame makes it send is the same whatever rooms the sender is in,
    so that a client relays messages and events to a room it has not
    joined. *)
Theorem sender_rooms_not_checked (ws : nat) (data : inbound) (now : float)
    (g : list value → list value) (st : HohWs.state) :
  HohWs.sent (HohWs.on_message ws data now (HohWs.with_rooms_of ws g st))
  = HohWs.sent (HohWs.on_message ws data now st).
Proof.
  unfold HohWs.on_message. destruct data as [raw|msg]; [done|].
  destruct (getprop msg "type") as [type|]; [|done].
  destruct (getprop msg "room") as [room|]; [|done].
  destruct (HohHandlers.identity_with_rooms_of ws ws g st) as [-> ->].
  destruct (is_str type "message:new").
  { repeat case_match; done. }
  destruct (is_str type "message" && truthy room).
  { repeat case_match; try done.
    rewrite !HohFacts.hoh_broadcast_spec. cbn -[HohSpec.recipients].
    by rewrite HohHandlers.recipients_with_rooms_of. }
  destruct (is_str type "join" && truthy room); [done|].
  destruct (is_str type "leave" && truthy room); [done|].
  destruct (_ && _); [|done].
  rewrite !HohFacts.hoh_broadcast_spec. cbn -[HohSpec.recipients].
  by rewrite HohHandlers.recipients_with_rooms_of.
Qed.


(** *** The registry of server.js *)

(** X19.  [leaveRoom] twice is [leaveRoom] once. *)
Theorem leaveRoom_idempotent (ws : nat) (st : Server.state) :
  Server.leaveRoom ws (Server.leaveRoom ws st) = Server.leaveRoom ws st.
Proof.
  unfold Server.leaveRoom at 2 3.
  destruct (Server.sockets st !! ws ≫= Server._room) as [room|] eqn:Hr.
  2:{ unfold Server.leaveRoom. by rewrite Hr. }
  case_bool_decide as Hne.
  { unfold Server.leaveRoom. rewrite Hr. by rewrite bool_decide_eq_true_2. }
  destruct (Server.rooms st !! room) as [set|] eqn:Hs.
  2:{ unfold Server.leaveRoom. rewrite Hr, Hs.
      by rewrite bool_decide_eq_false_2. }
  case_bool_decide as Hlen; unfold Server.leaveRoom; simpl; rewrite Hr;
    rewrite bool_decide_eq_false_2 by done.
  - by rewrite lookup_delete_eq.
  - rewrite lookup_insert_eq, set_delete_idemp.
    rewrite bool_decide_eq_false_2 by done.
    unfold Server.with_rooms. simpl. by rewrite insert_insert_eq.
Qed.

(** X20.  [joinRoom] then [leaveRoom]: the client is out of the room,
    and the registry is as before if the client was not in the room
    (and the room was not there without a member).  The room of the
    empty name is the exception: [leaveRoom] returns at once, and the
    client stays a member. *)
Theorem joinRoom_then_leaveRoom (ws : nat) (room : jsstring)
    (st : Server.state) :
  ws < length (Server.sockets st) →
  let st' := Server.leaveRoom ws (Server.joinRoom ws room st) in
  (room ≠ [] → ws ∉ Server.members st' room) ∧
  (room ≠ [] → ws ∉ Server.members st room →
   Server.rooms st !! room ≠ Some [] → Server.rooms st' = Server.rooms st) ∧
  (room = [] → ws ∈ Server.members st' room).
Proof.
  intros Hlt st'. subst st'.
  pose proof (RegistryFacts.room_joinRoom ws room st Hlt) as Hroom.
  assert (Hin : ws ∈ Server.members (Server.joinRoom ws room st) room).
  { rewrite ServerFacts.members_joinRoom, decide_True by done.
    apply elem_of_ws_add. by right. }
  split_and!.
  - intros Hne.
    rewrite (ServerFacts.members_leaveRoom ws room room _ Hroom Hne Hin).
    rewrite decide_True by done. rewrite elem_of_ws_delete. naive_solver.
  - intros Hne Hnot Hpr. unfold Server.leaveRoom. rewrite Hroom.
    rewrite bool_decide_eq_false_2 by done.
    rewrite ServerFacts.rooms_joinRoom, lookup_insert_eq.
    assert (Hdel : set_delete Nat.eqb
                     (set_add Nat.eqb (Server.members st room) ws) ws
                   = Server.members st room).
    { rewrite set_delete_add by apply Nat.eqb_refl.
      apply set_delete_absent.
      destruct (set_has Nat.eqb (Server.members st room) ws) eqn:E; [|done].
      by apply ws_has_spec in E. }
    rewrite Hdel.
    destruct (Server.rooms st !! room) as [set|] eqn:Hs.
    + assert (Hmem : Server.members st room = set).
      { unfold Server.members. by rewrite Hs. }
      rewrite Hmem. destruct set as [|x set]; [done|].
      rewrite bool_decide_eq_false_2 by done.
      cbn [Server.rooms Server.with_rooms].
      rewrite ServerFacts.rooms_joinRoom, insert_insert_eq.
      by apply insert_id.
    + assert (Hmem : Server.members st room = []).
      { unfold Server.members. by rewrite Hs. }
      rewrite Hmem, bool_decide_eq_true_2 by done.
      cbn [Server.rooms Server.with_rooms].
      rewrite ServerFacts.rooms_joinRoom, delete_insert_eq.
      by apply delete_id.
  - intros ->. unfold Server.leaveRoom. rewrite Hroom. done.
Qed.

Lemma joinRoom_then_leaveRoom_witness :
  Server.rooms
    (Server.leaveRoom 1 (Server.joinRoom 1 (u16 "foyer") Examples.server_lobby))
  = Server.rooms Examples.server_lobby.
Proof.
  destruct (joinRoom_then_leaveRoom 1 (u16 "foyer") Examples.server_lobby)
    as (_ & H & _); [vm_compute; lia|].
  apply H; [done| |done].
  vm_compute. apply not_elem_of_nil.
Defined.

(** X21.  [joinRoom] does not take the client out of the room it is
    in: after a second [joinRoom] the client is a member of both
    rooms, and [leaveRoom], which goes by [_room], leaves it in the
    first. *)
Theorem joinRoom_keeps_previous_room (ws : nat) (a b : jsstring)
    (st : Server.state) :
  a ≠ b → ws < length (Server.sockets st) →
  let st' := Server.joinRoom ws b (Server.joinRoom ws a st) in
  ws ∈ Server.members st' a ∧ ws ∈ Server.members st' b ∧
  Server.sockets st' !! ws ≫= Server._room = Some b ∧
  ws ∈ Server.members (Server.leaveRoom ws st') a.
Proof.
  intros Hab Hlt st'. subst st'.
  assert (Ha : ws ∈ Server.members
                      (Server.joinRoom ws b (Server.joinRoom ws a st)) a).
  { rewrite ServerFacts.members_joinRoom, decide_False by done.
    rewrite ServerFacts.members_joinRoom, decide_True by done.
    apply elem_of_ws_add. by right. }
  assert (Hb : Server.sockets (Server.joinRoom ws b (Server.joinRoom ws a st))
                 !! ws ≫= Server._room = Some b).
  { apply RegistryFacts.room_joinRoom.
    by rewrite ServerFacts.sockets_joinRoom, length_alter. }
  split_and!; [done| |done|].
  - rewrite ServerFacts.members_joinRoom, decide_True by done.
    apply elem_of_ws_add. by right.
  - rewrite RegistryFacts.members_leaveRoom_other; [done|].
    rewrite Hb. congruence.
Qed.

Lemma joinRoom_keeps_previous_room_witness :
  0 ∈ Server.members
        (Server.leaveRoom 0 (Server.joinRoom 0 (u16 "foyer") Examples.server_lobby))
        (u16 "lobby").
Proof.
  assert (H : Examples.server_lobby
              = Server.joinRoom 0 (u16 "lobby") Examples.server_lobby)
    by (by vm_compute).
  rewrite H at 1.
  apply (joinRoom_keeps_previous_room 0 (u16 "lobby") (u16 "foyer")
           Examples.server_lobby); [by vm_compute|vm_compute; lia].
Defined.

(** *** The join log that throws *)

Lemma aborted_never_sent (JWT_SECRET : option jsstring)
    (jwt_verify : jsstring → jsstring → option value)
    (es : list Server.event) (st : Server.state) (ws : nat)
    (room : jsstring) (user : value) :
  ServerSpec.wf st →
  Server.sockets st !! ws = Some (Server.Socket CLOSING (Some room) user None) →
  ∃ l, Server.sent (Server.run JWT_SECRET jwt_verify es st)
       = Server.sent st ++ l ∧ ∀ f, (ws, f) ∉ l.
Proof.
  intros Hwf Hs. induction es as [|e es IH] using rev_ind.
  - exists []. rewrite app_nil_r. split; [done|]. intros f. apply not_elem_of_nil.
  - destruct IH as (l & Hl & Hno).
    rewrite ServerTrace.server_run_snoc.
    destruct (ServerTrace.step_sent JWT_SECRET jwt_verify e
                (Server.run JWT_SECRET jwt_verify es st)) as (l' & Hl' & Ht).
    exists (l ++ l'). split.
    { by rewrite Hl', Hl, app_assoc. }
    intros f [H|H]%elem_of_app; [by eapply Hno|].
    destruct (Ht ws f H) as (r & _ & Ho).
    destruct (ServerTrace.run_socket JWT_SECRET jwt_verify (es ++ [e]) st ws _ Hs)
      as [rs Hrs].
    rewrite ServerTrace.server_run_snoc in Hrs.
    assert (Hwf' : ServerSpec.wf (Server.run JWT_SECRET jwt_verify (es ++ [e]) st))
      by (by apply ServerRuns.wf_run).
    rewrite ServerTrace.server_run_snoc in Hwf'.
    assert (Hin : ws ∈ Server.members
                         (Server.step JWT_SECRET jwt_verify e
                            (Server.run JWT_SECRET jwt_verify es st)) room).
    { by eapply ServerSpec.wf_stuck. }
    destruct (ServerSpec.wf_member _ Hwf' room ws Hin) as (_ & s & Hs' & _ & Hd).
    rewrite Hrs in Hs'. injection Hs' as <-. simpl in Hd.
    unfold Server.is_open in Ho. rewrite Hrs in Ho. simpl in Ho.
    apply bool_decide_eq_true in Ho. destruct Hd as [[? _]|[_ ?]]; done.
Qed.

(** X23.  When the join log of [server.js] throws, the name of the
    user being an object with an own [toString] (or an array that
    holds one), the handler has joined the room already: the socket is
    closed with 1011, no [presence] frame is sent and no listener is
    installed.  As [leaveRoom] is called by the close listener only,
    the socket stays a member of the room through every later event,
    the room is never deleted, and the socket is never sent a frame. *)
Theorem join_log_throw_leaves_member (JWT_SECRET : option jsstring)
    (jwt_verify : jsstring → jsstring → option value)
    (es : list Server.event) (req : Server.upgrade) (now : float)
    (user : value) (room : jsstring) :
  let st := Server.run JWT_SECRET jwt_verify es Server.init in
  let ws := length (Server.sockets st) in
  let st' := Server.step JWT_SECRET jwt_verify (Server.Connection req now) st in
  Server.crashed st = false →
  ServerSpec.decide_connection JWT_SECRET jwt_verify req
  = ServerSpec.Abort user room →
  ServerSpec.aborted st st' user room ∧
  ∀ es',
    ws ∈ Server.members (Server.run JWT_SECRET jwt_verify es' st') room ∧
    is_Some (Server.rooms (Server.run JWT_SECRET jwt_verify es' st') !! room) ∧
    ∃ l, Server.sent (Server.run JWT_SECRET jwt_verify es' st')
         = Server.sent st ++ l ∧ ∀ f, (ws, f) ∉ l.
Proof.
  intros st ws st' Hcr Hd.
  assert (Hwf : ServerSpec.wf st) by apply ServerRuns.wf_run, ServerFacts.wf_init.
  assert (Hst' : st' = Server.on_connection JWT_SECRET jwt_verify req now st).
  { unfold st', Server.step. by rewrite Hcr. }
  assert (Hwf' : ServerSpec.wf st').
  { rewrite Hst'. by apply ServerFacts.wf_on_connection. }
  pose proof (ServerFacts.server_connection_decided JWT_SECRET jwt_verify
                req now st) as [_ H].
  rewrite Hd, <- Hst' in H. destruct H as [Hne Hab].
  split; [exact Hab|]. destruct Hab as (_ & Hsent & _ & _ & Hsk).
  assert (Hs : Server.sockets st' !! ws
               = Some (Server.Socket CLOSING (Some room) user None)).
  { rewrite Hsk, lookup_app_r by done. unfold ws. by rewrite Nat.sub_diag. }
  intros es'.
  assert (Hin : ws ∈ Server.members (Server.run JWT_SECRET jwt_verify es' st') room).
  { destruct (ServerTrace.run_socket JWT_SECRET jwt_verify es' st' ws _ Hs)
      as [rs Hrs].
    eapply ServerSpec.wf_stuck; [by apply ServerRuns.wf_run|exact Hrs|done..]. }
  split_and!.
  - exact Hin.
  - apply (ServerSpec.wf_pruned _ (ServerRuns.wf_run JWT_SECRET jwt_verify es' st' Hwf')).
    intros E. rewrite E in Hin. by apply elem_of_nil in Hin.
  - rewrite <- Hsent. by eapply aborted_never_sent.
Qed.

Lemma join_log_throw_leaves_member_witness :
  Server.members
    (Server.run Examples.secret Examples.verify_unprintable
       [Server.Connection (Server.Query Examples.alice Examples.lobby) 1;
        Server.Connection (Server.Query (Some (u16 "eve")) Examples.lobby) 2;
        Server.Close 1 3; Server.Close 0 4] Server.init) (u16 "lobby")
  = [1] ∧
  1 ∈ Server.members
        (Server.run Examples.secret Examples.verify_unprintable
           [Server.Close 1 3; Server.Close 0 4]
           (Server.step Examples.secret Examples.verify_unprintable
              (Server.Connection (Server.Query (Some (u16 "eve")) Examples.lobby) 2)
              (Server.run Examples.secret Examples.verify_unprintable
                 [Server.Connection (Server.Query Examples.alice Examples.lobby) 1]
                 Server.init))) (u16 "lobby").
Proof.
  split; [by vm_compute|].
  destruct (join_log_throw_leaves_member Examples.secret
              Examples.verify_unprintable
              [Server.Connection (Server.Query Examples.alice Examples.lobby) 1]
              (Server.Query (Some (u16 "eve")) Examples.lobby) 2
              (obj [("id", str "u4"); ("name", obj [("toString", VNull)]);
                    ("email", VUndef)]) (u16 "lobby"))
    as [_ H]; [by vm_compute..|].
  exact (proj1 (H [Server.Close 1 3; Server.Close 0 4])).
Defined.

End Properties.
